(** * A bounded, domain-scoped web crawler: URL validator and scraper

    Shallow embedding of [src/utils/url_validator.py] (class [URLValidator])
    and [src/scraper/web_scraper.py] (class [WebScraper]), the
    properties of the specification that hold of them, and further
    properties of the two classes: the shape of normalized and cleaned
    URLs, the extraction of titles, text and metadata, the history of a
    crawl session and its summary.

    Data.  Python strings are lists of characters, a character being a
    code point below 256.  Python integers are [Z].  The visited set of a
    crawl is a [gset], its result list a [list]; a page is a record; a
    parsed document is a tree of tags and strings.

    Libraries.  The functions of the Python standard library that the
    code calls ([str.strip], [str.splitlines], [str.split],
    [urllib.parse.urlsplit], [urlparse], [urljoin]) are written out after
    CPython 3.12.  Of [urlsplit], the validation of a bracketed host
    ([_check_bracketed_netloc], which uses [ipaddress]) is a parameter;
    [_checknetloc] never raises on code points below 256 and is left out.
    The predicate [validators.url] of the package [validators] is a
    parameter.  The network and the HTML parser are one parameter,
    [session_get], which answers a request with a parsed document or with
    a failure.

    Effects.  Exceptions are results [Ok] or [Raise].  The crawl threads
    the state of the scraper through its calls; the state records, next
    to the two fields of the class, the requests made and the states the
    session went through, so that a property of every state of a session
    can be stated.  [time.sleep], logging, the time stamp of a page and
    the recursion limit of the interpreter are left out. *)

From stdpp Require Import base decidable option list sets gmap strings sorting.
From Stdlib Require Import Ascii ZArith Lia.
From Stdlib Require String.

Local Open Scope Z_scope.

(** ** Python strings *)

Module PyStr.

Abbreviation str := (list ascii).

(** A string literal of the source. *)
Definition py (s : string) : str := String.list_ascii_of_string s.

Definition chr (n : nat) : ascii := ascii_of_nat n.
Definition ord (c : ascii) : nat := nat_of_ascii c.

(** [str.isspace] on one character (code points below 256):
    TAB, LF, VT, FF, CR, FS, GS, RS, US, SPACE, NEL, NBSP. *)
Definition isspace (c : ascii) : bool :=
  bool_decide (ord c ∈ [9; 10; 11; 12; 13; 28; 29; 30; 31; 32; 133; 160]%nat).

(** Line boundaries of [str.splitlines]: LF, VT, FF, CR, FS, GS, RS, NEL
    (and CR LF as one boundary). *)
Definition islinebreak (c : ascii) : bool :=
  bool_decide (ord c ∈ [10; 11; 12; 13; 28; 29; 30; 133]%nat).

(** [s.lstrip(chars)], with the character class as a predicate. *)
Fixpoint lstrip_by (p : ascii → bool) (s : str) : str :=
  match s with
  | c :: s' => if p c then lstrip_by p s' else s
  | [] => []
  end.

Definition rstrip_by (p : ascii → bool) (s : str) : str :=
  reverse (lstrip_by p (reverse s)).

Definition strip_by (p : ascii → bool) (s : str) : str :=
  rstrip_by p (lstrip_by p s).

(** [s.strip()] *)
Definition strip (s : str) : str := strip_by isspace s.

(** [s.startswith(t)], [s.endswith(t)] *)
Definition startswith (s t : str) : bool := bool_decide (t `prefix_of` s).
Definition endswith (s t : str) : bool := bool_decide (t `suffix_of` s).

(** [s.count(c)] for a one-character [c]. *)
Definition count (c : ascii) (s : str) : Z :=
  Z.of_nat (length (filter (λ d, d = c) s)).

(** [c in s] for a one-character [c]. *)
Definition contains (c : ascii) (s : str) : bool := bool_decide (c ∈ s).

(** The longest prefix of [s] without a character of class [p], and the
    rest (empty, or starting with the first character of class [p]).
    This is the slicing [s[:i], s[i:]] at [i], the least index of such a
    character, and [len(s)] when there is none. *)
Fixpoint break (p : ascii → bool) (s : str) : str * str :=
  match s with
  | [] => ([], [])
  | c :: s' => if p c then ([], s) else let '(a, b) := break p s' in (c :: a, b)
  end.

Definition is_char (c : ascii) : ascii → bool := λ d, bool_decide (d = c).

(** [s.split(c, 1)] when [c in s]: the text before the first [c] and the
    text after it. *)
Definition split1 (c : ascii) (s : str) : str * str :=
  let '(a, b) := break (is_char c) s in (a, tail b).

(** [s.split(c)] for a one-character separator: never empty. *)
Fixpoint split (c : ascii) (s : str) : list str :=
  match s with
  | [] => [[]]
  | d :: s' =>
      if bool_decide (d = c) then [] :: split c s'
      else match split c s' with
           | seg :: segs => (d :: seg) :: segs
           | [] => [[d]]
           end
  end.

(** [sep.join(parts)] *)
Fixpoint join (sep : str) (parts : list str) : str :=
  match parts with
  | [] => []
  | [p] => p
  | p :: ps => p ++ sep ++ join sep ps
  end.

(** [s.lower()] on ASCII letters. *)
Definition lower_char (c : ascii) : ascii :=
  if bool_decide (65 ≤ ord c ≤ 90)%nat then chr (ord c + 32) else c.
Definition lower (s : str) : str := lower_char <$> s.

Definition isascii (c : ascii) : bool := bool_decide (ord c < 128)%nat.
(** [c.isalpha()] for an ASCII character. *)
Definition isalpha (c : ascii) : bool :=
  bool_decide (65 ≤ ord c ≤ 90 ∨ 97 ≤ ord c ≤ 122)%nat.
Definition isdigit (c : ascii) : bool := bool_decide (48 ≤ ord c ≤ 57)%nat.

(** [s.splitlines()]: [cur] is the current line, reversed. *)
Fixpoint splitlines_from (cur : str) (s : str) : list str :=
  match s with
  | [] => match cur with [] => [] | _ => [reverse cur] end
  | c :: s' =>
      if bool_decide (c = chr 13) then
        match s' with
        | d :: s'' =>
            if bool_decide (d = chr 10) then reverse cur :: splitlines_from [] s''
            else reverse cur :: splitlines_from [] s'
        | [] => [reverse cur]
        end
      else if islinebreak c then reverse cur :: splitlines_from [] s'
      else splitlines_from (c :: cur) s'
  end.
Definition splitlines (s : str) : list str := splitlines_from [] s.

(** [s.split("  ")]: split at each double space, left to right;
    [cur] is the current piece, reversed. *)
Fixpoint split_double_space_from (cur : str) (s : str) : list str :=
  match s with
  | [] => [reverse cur]
  | c :: s' =>
      match s' with
      | d :: s'' =>
          if bool_decide (c = " "%char) && bool_decide (d = " "%char)
          then reverse cur :: split_double_space_from [] s''
          else split_double_space_from (c :: cur) s'
      | [] => [reverse (c :: cur)]
      end
  end.
Definition split_double_space (s : str) : list str :=
  split_double_space_from [] s.

End PyStr.

Import PyStr.

(** ** Exceptions *)

Inductive exn : Type :=
  | ValueError (msg : str).

Inductive result (A : Type) : Type :=
  | Ok (a : A)
  | Raise (e : exn).
Arguments Ok {A} a.
Arguments Raise {A} e.

Global Instance result_bind : MBind result := λ A B k r,
  match r with
  | Ok a => k a
  | Raise e => Raise e
  end.

(** ** [urllib.parse] (CPython 3.12) *)

Module Urllib.

Record SplitResult : Type := mkSplit {
  s_scheme : str; s_netloc : str; s_path : str; s_query : str; s_fragment : str }.

Record ParseResult : Type := mkParse {
  scheme : str; netloc : str; path : str; params : str; query : str; fragment : str }.

Definition uses_relative : list str := py <$>
  ["" ; "ftp"; "http"; "gopher"; "nntp"; "imap"; "wais"; "file"; "https";
   "shttp"; "mms"; "prospero"; "rtsp"; "rtspu"; "sftp"; "svn"; "svn+ssh";
   "ws"; "wss"].

Definition uses_netloc : list str := py <$>
  ["" ; "ftp"; "http"; "gopher"; "nntp"; "telnet"; "imap"; "wais"; "file";
   "mms"; "https"; "shttp"; "snews"; "prospero"; "rtsp"; "rtspu"; "rsync";
   "svn"; "svn+ssh"; "sftp"; "nfs"; "git"; "git+ssh"; "ws"; "wss";
   "itms-services"].

Definition uses_params : list str := py <$>
  ["" ; "ftp"; "hdl"; "prospero"; "http"; "imap"; "https"; "shttp"; "rtsp";
   "rtspu"; "sip"; "sips"; "mms"; "sftp"; "tel"].

(** [scheme_chars]: ASCII letters, digits and [+-.] *)
Definition scheme_char (c : ascii) : bool :=
  (isascii c && isalpha c) || isdigit c
  || bool_decide (c ∈ ["+"; "-"; "."]%char).

(** [_WHATWG_C0_CONTROL_OR_SPACE]: code points 0 to 32. *)
Definition c0_control_or_space (c : ascii) : bool :=
  bool_decide (ord c ≤ 32)%nat.

(** [_UNSAFE_URL_BYTES_TO_REMOVE]: TAB, CR, LF. *)
Definition unsafe_url_bytes : list ascii := [chr 9; chr 13; chr 10].

Definition remove_unsafe (s : str) : str :=
  filter (λ c, c ∉ unsafe_url_bytes) s.

Definition netloc_delim (c : ascii) : bool :=
  bool_decide (c ∈ ["/"; "?"; "#"]%char).

(** [_splitnetloc(url, 2)], applied to [url[2:]]. *)
Definition splitnetloc (rest : str) : str * str := break netloc_delim rest.

(** The scheme test of [urlsplit]: [url.find(':') > 0], a first character
    that is an ASCII letter, and only scheme characters before the colon. *)
Definition split_scheme (default : str) (url : str) : str * str :=
  let '(pre, rest) := break (is_char ":"%char) url in
  match pre, rest with
  | c0 :: _, _ :: after =>
      if isascii c0 && isalpha c0 && forallb scheme_char pre
      then (lower pre, after)
      else (default, url)
  | _, _ => (default, url)
  end.

(** [if '#' in url: url, fragment = url.split('#', 1)] and the same for
    the query. *)
Definition split_fragment (url : str) : str * str :=
  if contains "#"%char url then split1 "#"%char url else (url, []).

Definition split_query (url : str) : str * str :=
  if contains "?"%char url then split1 "?"%char url else (url, []).

(** [_splitparams]: the parameters start at the first [;] of the last
    path segment; a path without one is returned unchanged. *)
Definition last_segment (url : str) : str * str :=
  let '(seg_rev, head_rev) := break (is_char "/"%char) (reverse url) in
  (reverse head_rev, reverse seg_rev).

Definition splitparams (url : str) : str * str :=
  let '(head, seg) := last_segment url in
  let '(a, b) := break (is_char ";"%char) seg in
  match b with
  | [] => (url, [])
  | _ :: ps => (head ++ a, ps)
  end.

Section checks.

(** [_check_bracketed_netloc]: the validation of a bracketed host with the
    [ipaddress] module, [true] when it passes (always, before 3.11.4). *)
Variable check_bracketed_netloc : str → bool.

(** The bracket tests of [urlsplit] on the network location. *)
Definition invalid_ipv6 (netloc : str) : bool :=
  (contains "["%char netloc && negb (contains "]"%char netloc))
  || (contains "]"%char netloc && negb (contains "["%char netloc))
  || (contains "["%char netloc && contains "]"%char netloc
      && negb (check_bracketed_netloc netloc)).

Definition urlsplit (url : str) (scheme : str) : result SplitResult :=
  let url := lstrip_by c0_control_or_space url in
  let scheme := strip_by c0_control_or_space scheme in
  let url := remove_unsafe url in
  let scheme := remove_unsafe scheme in
  let '(scheme, url) := split_scheme scheme url in
  '(netloc, url) ←
    (if bool_decide (take 2 url = py "//") then
       let '(netloc, url) := splitnetloc (drop 2 url) in
       if invalid_ipv6 netloc
       then Raise (ValueError (py "Invalid IPv6 URL"))
       else Ok (netloc, url)
     else Ok ([], url));
  let '(url, fragment) := split_fragment url in
  let '(url, query) := split_query url in
  Ok (mkSplit scheme netloc url query fragment).

Definition urlparse (url : str) (scheme : str) : result ParseResult :=
  r ← urlsplit url scheme ;
  let '(url, params) :=
    if bool_decide (s_scheme r ∈ uses_params) && contains ";"%char (s_path r)
    then splitparams (s_path r) else (s_path r, []) in
  Ok (mkParse (s_scheme r) (s_netloc r) url params (s_query r) (s_fragment r)).

End checks.

(** [urlunsplit], [urlunparse] *)
Definition urlunsplit (scheme netloc url query fragment : str) : str :=
  let url :=
    if negb (bool_decide (netloc = []))
       || (negb (bool_decide (scheme = [])) && bool_decide (scheme ∈ uses_netloc)
           && negb (bool_decide (take 2 url = py "//")))
    then
      let url := if negb (bool_decide (url = []))
                    && negb (bool_decide (take 1 url = py "/"))
                 then py "/" ++ url else url in
      py "//" ++ netloc ++ url
    else url in
  let url := if bool_decide (scheme = []) then url else scheme ++ py ":" ++ url in
  let url := if bool_decide (query = []) then url else url ++ py "?" ++ query in
  if bool_decide (fragment = []) then url else url ++ py "#" ++ fragment.

Definition urlunparse (p : ParseResult) : str :=
  let url := if bool_decide (params p = []) then path p
             else path p ++ py ";" ++ params p in
  urlunsplit (scheme p) (netloc p) url (query p) (fragment p).

(** The dot-segment loop of [urljoin]. *)
Fixpoint resolve_segments (resolved : list str) (segments : list str) : list str :=
  match segments with
  | [] => resolved
  | seg :: rest =>
      if bool_decide (seg = py "..") then
        resolve_segments (take (length resolved - 1) resolved) rest
      else if bool_decide (seg = py ".") then resolve_segments resolved rest
      else resolve_segments (resolved ++ [seg]) rest
  end.

(** [segments[1:-1] = filter(None, segments[1:-1])] *)
Definition filter_inner (segments : list str) : list str :=
  match segments with
  | [] => []
  | [a] => [a]
  | a :: rest =>
      a :: filter (λ s, s ≠ []) (take (length rest - 1) rest)
        ++ drop (length rest - 1) rest
  end.

Section join.

Variable check_bracketed_netloc : str → bool.

Definition urljoin (base url : str) : result str :=
  if bool_decide (base = []) then Ok url
  else if bool_decide (url = []) then Ok base
  else
    b ← urlparse check_bracketed_netloc base [] ;
    u ← urlparse check_bracketed_netloc url (scheme b) ;
    if negb (bool_decide (scheme u = scheme b))
       || negb (bool_decide (scheme u ∈ uses_relative))
    then Ok url
    else if bool_decide (scheme u ∈ uses_netloc)
            && negb (bool_decide (netloc u = []))
    then Ok (urlunparse u)
    else
      let netloc' := if bool_decide (scheme u ∈ uses_netloc)
                     then netloc b else netloc u in
      if bool_decide (path u = []) && bool_decide (params u = []) then
        let query' := if bool_decide (query u = []) then query b else query u in
        Ok (urlunparse (mkParse (scheme u) netloc' (path b) (params b)
                          query' (fragment u)))
      else
        let base_parts := split "/"%char (path b) in
        let base_parts :=
          if bool_decide (last base_parts = Some [])
          then base_parts
          else take (length base_parts - 1) base_parts in
        let segments :=
          if bool_decide (take 1 (path u) = py "/")
          then split "/"%char (path u)
          else filter_inner (base_parts ++ split "/"%char (path u)) in
        let resolved_path := resolve_segments [] segments in
        let resolved_path :=
          if bool_decide (last segments = Some (py "."))
             || bool_decide (last segments = Some (py ".."))
          then resolved_path ++ [[]] else resolved_path in
        let joined := join (py "/") resolved_path in
        Ok (urlunparse (mkParse (scheme u) netloc'
                          (if bool_decide (joined = []) then py "/" else joined)
                          (params u) (query u) (fragment u))).

End join.

End Urllib.

(** ** [URLValidator] (src/utils/url_validator.py) *)

Module URLValidator.

Section URLValidator.

(** [validators.url] of the third-party package [validators], as a
    predicate: [true] when it accepts the string. *)
Variable validators_url : str → bool.

(** [urllib.parse._check_bracketed_netloc] (see [Urllib]). *)
Variable check_bracketed_netloc : str → bool.

Definition urlparse (url : str) : result Urllib.ParseResult :=
  Urllib.urlparse check_bracketed_netloc url [].
Definition urljoin : str → str → result str :=
  Urllib.urljoin check_bracketed_netloc.

Definition http_schemes : list str := [py "http"; py "https"].

Definition is_valid_url (url : str) : result bool :=
  if bool_decide (url = []) then Ok false
  else if negb (validators_url url) then Ok false
  else
    parsed ← urlparse url;
    if negb (bool_decide (Urllib.scheme parsed ∈ http_schemes)) then Ok false
    else if bool_decide (Urllib.netloc parsed = []) then Ok false
    else Ok true.

Definition normalize_url (url : str) : result (option str) :=
  if bool_decide (url = []) then Ok None
  else
    let url := strip url in
    let url :=
      if negb (startswith url (py "http://") || startswith url (py "https://"))
      then py "https://" ++ url else url in
    parsed ← urlparse url;
    let normalized :=
      Urllib.scheme parsed ++ py "://" ++ Urllib.netloc parsed ++ Urllib.path parsed in
    let normalized :=
      if negb (bool_decide (Urllib.query parsed = []))
      then normalized ++ py "?" ++ Urllib.query parsed else normalized in
    is_valid_url normalized ≫= λ valid : bool,
    if valid then Ok (Some normalized) else Ok None.

(** [get_domain] catches every exception and returns [None]. *)
Definition get_domain (url : str) : option str :=
  match urlparse url with
  | Ok parsed =>
      if bool_decide (Urllib.netloc parsed = []) then None
      else Some (Urllib.netloc parsed)
  | Raise _ => None
  end.

Definition is_same_domain (url1 url2 : str) : bool :=
  match get_domain url1, get_domain url2 with
  | Some domain1, Some domain2 => bool_decide (domain1 = domain2)
  | _, _ => false
  end.

Definition is_absolute_url (url : str) : result bool :=
  parsed ← urlparse url;
  Ok (negb (bool_decide (Urllib.scheme parsed = []))
      && negb (bool_decide (Urllib.netloc parsed = []))).

(** [make_absolute_url] catches every exception and returns [None]. *)
Definition make_absolute_url (base_url relative_url : str) : option str :=
  match (absolute ← urljoin base_url relative_url;
         is_valid_url absolute ≫= λ valid : bool,
         Ok (if valid then Some absolute else None)) with
  | Ok r => r
  | Raise _ => None
  end.

Definition clean_url (url : str) : str :=
  let url := strip url in
  if endswith url (py "/") && bool_decide (count "/"%char url > 3)
  then take (length url - 1) url
  else url.

End URLValidator.

End URLValidator.


(** ** Parsed documents ([bs4]) *)

Module Bs4.

(** A parsed document: text nodes, comments (and the other special strings
    that [get_text] leaves out) and tags with their attributes and
    children.  The [BeautifulSoup] object is the root tag, named
    [[document]]. *)
#[warnings="-register-all"]
Inductive node : Type :=
  | NavigableString (text : str)
  | Comment (text : str)
  | Tag (name : str) (attrs : list (str * str)) (contents : list node).

(** [tag.get(key)] *)
Fixpoint get (attrs : list (str * str)) (key : str) : option str :=
  match attrs with
  | [] => None
  | (k, v) :: attrs' => if bool_decide (k = key) then Some v else get attrs' key
  end.

(** [tag.descendants]: every node below [n], in document order. *)
Fixpoint descendants (n : node) : list node :=
  match n with
  | Tag _ _ cs =>
      (fix go (cs : list node) : list node :=
         match cs with
         | [] => []
         | c :: cs' => c :: descendants c ++ go cs'
         end) cs
  | _ => []
  end.

Definition is_tag_named (names : list str) (n : node) : bool :=
  match n with
  | Tag name _ _ => bool_decide (name ∈ names)
  | _ => false
  end.

(** [tag.find_all(names)], [tag.find(name)] *)
Definition find_all (names : list str) (n : node) : list node :=
  filter (λ d, is_tag_named names d = true) (descendants n).

Definition find (name : str) (n : node) : option node :=
  head (find_all [name] n).

(** [tag.string]: the single string child, looked for through single
    child tags; a node that is a string is its own [string]. *)
Fixpoint string_of (n : node) : option str :=
  match n with
  | NavigableString s => Some s
  | Comment s => Some s
  | Tag _ _ [c] => string_of c
  | Tag _ _ _ => None
  end.

(** [tag.get_text()]: the text nodes below [n], concatenated. *)
Fixpoint get_text (n : node) : str :=
  match n with
  | NavigableString s => s
  | Comment _ => []
  | Tag _ _ cs =>
      (fix go (cs : list node) : str :=
         match cs with
         | [] => []
         | c :: cs' => get_text c ++ go cs'
         end) cs
  end.

(** [for element in soup(names): element.decompose()]: every tag with one
    of the names is cut out of the tree, with all below it. *)
Fixpoint decompose_all (names : list str) (n : node) : node :=
  match n with
  | Tag name attrs cs =>
      Tag name attrs
        ((fix go (cs : list node) : list node :=
            match cs with
            | [] => []
            | c :: cs' =>
                if is_tag_named names c then go cs'
                else decompose_all names c :: go cs'
            end) cs)
  | _ => n
  end.

End Bs4.

(** ** [WebScraper]: page extraction (src/scraper/web_scraper.py) *)

Module Extract.

Import Bs4.

Inductive meta_value : Type :=
  | MetaContent (content : str)
  | MetaHeadings (headings : list (Z * str)).

Definition _extract_title (soup : node) : str :=
  match find (py "title") soup with
  | Some title =>
      match string_of title with
      | Some s => if bool_decide (s = []) then [] else strip s
      | None => []
      end
  | None =>
      match find (py "h1") soup with
      | Some h1 => strip (get_text h1)
      | None => py "Untitled"
      end
  end.

Definition non_content_tags : list str :=
  py <$> ["script"; "style"; "nav"; "footer"; "header"; "aside"].

(** The white-space clean-up of [_extract_content]. *)
Definition clean_text (text : str) : str :=
  let lines := strip <$> splitlines text in
  let chunks := strip <$> (lines ≫= split_double_space) in
  join (py " ") (filter (λ chunk, chunk ≠ []) chunks).

(** [_extract_content] changes the document it is given: the text and the
    document as it is left. *)
Definition _extract_content (soup : node) : str * node :=
  let soup := decompose_all non_content_tags soup in
  (clean_text (get_text soup), soup).

Definition heading_names : list (Z * str) :=
  [(1, py "h1"); (2, py "h2"); (3, py "h3");
   (4, py "h4"); (5, py "h5"); (6, py "h6")].

Definition _extract_metadata (soup : node) : gmap str meta_value :=
  let metadata :=
    foldl (λ (metadata : gmap str meta_value) tag,
             match tag with
             | Tag _ attrs _ =>
                 let name := default (default [] (get attrs (py "property")))
                               (get attrs (py "name")) in
                 let content := default [] (get attrs (py "content")) in
                 if negb (bool_decide (name = [])) && negb (bool_decide (content = []))
                 then <[name := MetaContent content]> metadata
                 else metadata
             | _ => metadata
             end)
          ∅ (find_all [py "meta"] soup) in
  let headings :=
    heading_names ≫= λ '(i, h),
      (λ heading, (i, strip (get_text heading))) <$> find_all [h] soup in
  match headings with
  | [] => metadata
  | _ => <[py "headings" := MetaHeadings headings]> metadata
  end.

Definition skipped_prefixes : list str :=
  py <$> ["#"; "javascript:"; "mailto:"; "tel:"].

(** [href.startswith(('#', 'javascript:', 'mailto:', 'tel:'))] *)
Definition skipped (href : str) : bool :=
  existsb (startswith href) skipped_prefixes.

(** [soup.find_all('a', href=True)], as the list of the [href] values. *)
Definition anchor_hrefs (soup : node) : list str :=
  omap (λ anchor, match anchor with
                  | Tag _ attrs _ => get attrs (py "href")
                  | _ => None
                  end)
       (find_all [py "a"] soup).

Section links.

Variable validators_url : str → bool.
Variable check_bracketed_netloc : str → bool.

(** One turn of the loop of [_extract_links]. *)
Definition add_link (base_url : str) (links : list str) (href : str) : list str :=
  if skipped href then links
  else
    match URLValidator.make_absolute_url validators_url check_bracketed_netloc
            base_url href with
    | Some absolute_url =>
        if negb (bool_decide (absolute_url = []))
           && negb (bool_decide (absolute_url ∈ links))
        then links ++ [absolute_url]
        else links
    | None => links
    end.

Definition _extract_links (soup : node) (base_url : str) : list str :=
  foldl (add_link base_url) [] (anchor_hrefs soup).

End links.

End Extract.

(** ** [WebScraper]: the crawl (src/scraper/web_scraper.py) *)

Module WebScraper.

Import Bs4 Extract.

(** [ScrapedPage], without its [timestamp] (a float read from the clock). *)
Record ScrapedPage : Type := mkPage {
  url : str;
  title : str;
  content : str;
  metadata : gmap str meta_value;
  links : list str;
  depth : Z }.

(** What [session.get(url)], [raise_for_status()] and the parser give: a
    [requests] exception, any other exception, or the parsed document. *)
Inductive response : Type :=
  | RequestException
  | OtherException
  | Document (soup : node).

(** The state of a crawl session: [self.visited_urls] and
    [self.scraped_pages], and the URLs requested so far, oldest first
    (not a field of the class: it records the calls of [session.get]). *)
Record Session : Type := mkSession {
  visited_urls : gset str;
  scraped_pages : list ScrapedPage;
  requests : list str }.

(** A session with the states it went through, newest first (not in the
    source either: every assignment pushes the state it replaces). *)
Record Run : Type := mkRun {
  now : Session;
  past : list Session }.

Definition update (f : Session → Session) (r : Run) : Run :=
  mkRun (f (now r)) (now r :: past r).

(** The states of a run, newest first. *)
Definition states (r : Run) : list Session := now r :: past r.

Definition add_visited (u : str) (s : Session) : Session :=
  mkSession ({[u]} ∪ visited_urls s) (scraped_pages s) (requests s).

Definition append_page (p : ScrapedPage) (s : Session) : Session :=
  mkSession (visited_urls s) (scraped_pages s ++ [p]) (requests s).

Definition log_request (u : str) (s : Session) : Session :=
  mkSession (visited_urls s) (scraped_pages s) (requests s ++ [u]).

(** [visited_urls.clear(); scraped_pages.clear()]: the start of a session. *)
Definition fresh : Run := mkRun (mkSession ∅ [] []) [].

Definition len (s : Session) : Z := Z.of_nat (length (scraped_pages s)).

Section scraper.

Variables max_depth max_pages : Z.
Variable validators_url : str → bool.
Variable check_bracketed_netloc : str → bool.

(** The network and the parser: the answer to a request, which may depend
    on the requests made before it. *)
Variable session_get : list str → str → response.

Definition clean_url := URLValidator.clean_url.
Definition is_same_domain := URLValidator.is_same_domain check_bracketed_netloc.
Definition normalize_url :=
  URLValidator.normalize_url validators_url check_bracketed_netloc.
Definition _extract_links := Extract._extract_links validators_url check_bracketed_netloc.

(** [_scrape_page]: both [except] clauses return [None]. *)
Definition _scrape_page (url : str) (depth : Z) (r : Run) : option ScrapedPage * Run :=
  let response := session_get (requests (now r)) url in
  let r := update (log_request url) r in
  match response with
  | Document soup =>
      let title := _extract_title soup in
      let '(content, soup) := _extract_content soup in
      let metadata := _extract_metadata soup in
      let links := _extract_links soup url in
      (Some (mkPage url title content metadata links depth), r)
  | RequestException => (None, r)
  | OtherException => (None, r)
  end.

(** [_crawl_recursive]; [None] when [fuel] runs out. The inner [fix] is
    the [for link in scraped_page.links] loop. *)
Fixpoint _crawl_recursive (fuel : nat) (url : str) (depth : Z) (r : Run) : option Run :=
  match fuel with
  | O => None
  | S fuel =>
      if bool_decide (depth > max_depth) then Some r
      else if bool_decide (len (now r) >= max_pages) then Some r
      else
        let url := clean_url url in
        if bool_decide (url ∈ visited_urls (now r)) then Some r
        else
          let r := update (add_visited url) r in
          match _scrape_page url depth r with
          | (Some scraped_page, r) =>
              let r := update (append_page scraped_page) r in
              (fix for_links (links : list str) (r : Run) : option Run :=
                 match links with
                 | [] => Some r
                 | link :: links =>
                     if bool_decide (len (now r) >= max_pages) then Some r
                     else if is_same_domain url link then
                       r ← _crawl_recursive fuel link (depth + 1) r;
                       for_links links r
                     else for_links links r
                 end) (links scraped_page) r
          | (None, r) => Some r
          end
  end.

(** The [for] loop of [_crawl_recursive] on its own. *)
Fixpoint crawl_links (fuel : nat) (url : str) (depth : Z)
    (links : list str) (r : Run) : option Run :=
  match links with
  | [] => Some r
  | link :: links =>
      if bool_decide (len (now r) >= max_pages) then Some r
      else if is_same_domain url link then
        r ← _crawl_recursive fuel link (depth + 1) r;
        crawl_links fuel url depth links r
      else crawl_links fuel url depth links r
  end.

(** Calls of [_crawl_recursive] nest at most [max_depth + 2] deep. *)
Definition enough_fuel (depth : Z) : nat := S (Z.to_nat (max_depth - depth + 1)).

(** [scrape_website]: the result or the exception, and the state it
    leaves; [None] only if the recursion ran out of fuel. *)
Definition scrape_website (r : Run) (start_url : str)
    : option (result (list ScrapedPage) * Run) :=
  match normalize_url start_url with
  | Raise e => Some (Raise e, r)
  | Ok None => Some (Raise (ValueError (py "Invalid URL: " ++ start_url)), r)
  | Ok (Some normalized_url) =>
      r ← _crawl_recursive (enough_fuel 0) normalized_url 0 fresh;
      Some (Ok (scraped_pages (now r)), r)
  end.

(** *** The traversal as the specification words it

    A stack of pending [(url, depth)] pairs: take the top one, check the
    stopping conditions, clean, skip a visited URL, mark, fetch, append,
    and push the same-domain links at [depth + 1] in document order. *)
Definition dfs_step (stack : list (str * Z)) (r : Run) : list (str * Z) * Run :=
  match stack with
  | [] => ([], r)
  | (url, depth) :: stack =>
      if bool_decide (depth > max_depth) then (stack, r)
      else if bool_decide (len (now r) >= max_pages) then ([], r)
      else
        let url := clean_url url in
        if bool_decide (url ∈ visited_urls (now r)) then (stack, r)
        else
          let r := update (add_visited url) r in
          match _scrape_page url depth r with
          | (Some scraped_page, r) =>
              let r := update (append_page scraped_page) r in
              (((λ link, (link, depth + 1)) <$>
                  filter (λ link, is_same_domain url link = true) (links scraped_page))
                 ++ stack, r)
          | (None, r) => (stack, r)
          end
  end.

Fixpoint dfs_run (steps : nat) (stack : list (str * Z)) (r : Run) : option Run :=
  match stack with
  | [] => Some r
  | _ =>
      match steps with
      | O => None
      | S steps => let '(stack, r) := dfs_step stack r in dfs_run steps stack r
      end
  end.

End scraper.

(** [get_scraped_pages] *)
Definition get_scraped_pages (s : Session) : list ScrapedPage := scraped_pages s.

(** The dictionary that [get_scrape_summary] returns, by its five keys. *)
Record ScrapeSummary : Type := mkSummary {
  total_pages : Z;
  total_urls_visited : Z;
  max_depth_reached : Z;
  total_content_length : Z;
  unique_domains : Z }.

(** [max(values, default=d)], [sum(values)] *)
Definition max_default (values : list Z) (d : Z) : Z :=
  match values with
  | [] => d
  | x :: values => foldl Z.max x values
  end.

Definition sum (values : list Z) : Z := foldl Z.add 0 values.

Section summary.

Variable check_bracketed_netloc : str → bool.

Definition get_scrape_summary (s : Session) : ScrapeSummary :=
  mkSummary
    (Z.of_nat (length (scraped_pages s)))
    (Z.of_nat (size (visited_urls s)))
    (max_default (depth <$> scraped_pages s) 0)
    (sum ((λ page, Z.of_nat (length (content page))) <$> scraped_pages s))
    (Z.of_nat (size (list_to_set (C := gset (option str))
       ((λ page, URLValidator.get_domain check_bracketed_netloc (url page))
          <$> scraped_pages s)))).

End summary.

End WebScraper.


(** ** Notions used in the statements *)

Module Spec.

(** A character that [urlsplit] keeps. *)
Abbreviation safe := (λ c : ascii, c ∉ Urllib.unsafe_url_bytes).

(** The scheme that [urlsplit] finds and the text it goes on with. *)
Definition after_scheme (dflt url : str) : str * str :=
  Urllib.split_scheme
    (Urllib.remove_unsafe (strip_by Urllib.c0_control_or_space dflt))
    (Urllib.remove_unsafe (lstrip_by Urllib.c0_control_or_space url)).

(** The string that [normalize_url] builds from the parts of a URL. *)
Definition rebuild (sch N P Q : str) : str :=
  let normalized := sch ++ py "://" ++ N ++ P in
  if negb (bool_decide (Q = [])) then normalized ++ py "?" ++ Q else normalized.

(** The path and the parameters that [urlparse] takes from the path of
    [urlsplit]. *)
Definition path_of (scheme url : str) : str * str :=
  if bool_decide (scheme ∈ Urllib.uses_params) && contains ";"%char url
  then Urllib.splitparams url else (url, []).

(** An absolute HTTP(S) URL: it parses with scheme [http] or [https] and a
    non-empty network location. *)
Definition absolute_http (check_bracketed_netloc : str → bool) (url : str) : Prop :=
  ∃ parsed, Urllib.urlparse check_bracketed_netloc url [] = Ok parsed
            ∧ Urllib.scheme parsed ∈ URLValidator.http_schemes
            ∧ Urllib.netloc parsed ≠ [].

(** The request of [u] made after the requests [before] failed. *)
Definition failed (session_get : list str → str → WebScraper.response)
    (before : list str) (u : str) : Prop :=
  ∀ soup, session_get before u ≠ WebScraper.Document soup.

(** What holds of every state of a session. *)
Record session_inv (max_depth max_pages : Z)
    (session_get : list str → str → WebScraper.response)
    (s : WebScraper.Session) : Prop := {
  inv_requests_nodup : NoDup (WebScraper.requests s);
  inv_requests_visited :
    ∀ u, u ∈ WebScraper.requests s → u ∈ WebScraper.visited_urls s;
  inv_pages_visited :
    ∀ p, p ∈ WebScraper.scraped_pages s →
         WebScraper.url p ∈ WebScraper.visited_urls s;
  inv_pages_fetched :
    ∀ p, p ∈ WebScraper.scraped_pages s →
         ∃ before after soup,
           WebScraper.requests s = before ++ WebScraper.url p :: after
           ∧ session_get before (WebScraper.url p) = WebScraper.Document soup;
  inv_budget : 0 ≤ max_pages → WebScraper.len s ≤ max_pages;
  inv_depth :
    ∀ p, p ∈ WebScraper.scraped_pages s → WebScraper.depth p ≤ max_depth }.

(** The elements of [l] that are not in [seen], each at its first
    occurrence, in the order of the list. *)
Fixpoint first_occurrences_from (seen l : list str) : list str :=
  match l with
  | [] => []
  | x :: l =>
      if bool_decide (x ∈ seen) then first_occurrences_from seen l
      else x :: first_occurrences_from (x :: seen) l
  end.

Definition first_occurrences : list str → list str := first_occurrences_from [].

(** The link an [href] stands for: none when it has a skipped prefix or
    does not resolve to a valid URL. *)
Definition resolve (validators_url check_bracketed_netloc : str → bool)
    (base_url href : str) : option str :=
  if Extract.skipped href then None
  else URLValidator.make_absolute_url validators_url check_bracketed_netloc
         base_url href.

(** The title as the specification words it: the text of the title
    element when that text is not empty, otherwise the text of the first
    [h1], otherwise [Untitled]. *)
Definition title_as_claimed (soup : Bs4.node) : str :=
  let title_text :=
    match Bs4.find (py "title") soup with
    | Some title => strip (default [] (Bs4.string_of title))
    | None => []
    end in
  if bool_decide (title_text ≠ []) then title_text
  else
    match Bs4.find (py "h1") soup with
    | Some h1 => strip (Bs4.get_text h1)
    | None => py "Untitled"
    end.

(** The text of a title element, as [_extract_title] reads it. *)
Definition title_text (title : Bs4.node) : str :=
  strip (default [] (Bs4.string_of title)).



(** Two spaces in a row somewhere in [s]. *)
Fixpoint has_double_space (s : str) : bool :=
  match s with
  | a :: t =>
      match t with
      | b :: _ =>
          (bool_decide (a = " "%char) && bool_decide (b = " "%char))
          || has_double_space t
      | [] => false
      end
  | [] => false
  end.

Definition starts_with_space (s : str) : bool :=
  bool_decide (head s = Some " "%char).

Definition ends_with_space (s : str) : bool :=
  bool_decide (last s = Some " "%char).

(** The characters of [s] that are not white space. *)
Definition visible (s : str) : str := filter (λ c, isspace c = false) s.

(** A piece of cleaned text: not empty, no white space at either end, no
    line boundary and no two spaces in a row inside. *)
Definition chunk_ok (chunk : str) : Prop :=
  chunk ≠ []
  ∧ (∀ c, head chunk = Some c ∨ last chunk = Some c → isspace c = false)
  ∧ has_double_space chunk = false
  ∧ Forall (λ c, islinebreak c = false) chunk.

(** The parts of a well-formed HTTP(S) URL: a scheme [http] or [https],
    a network location that is not empty, holds none of [/?#] and passes
    the bracket tests, a path that is empty or starts with a slash and
    holds neither [?] nor [#], a query without [#]; no TAB, CR or LF. *)
Definition wellformed (check_bracketed_netloc : str → bool)
    (sch N P Q : str) : Prop :=
  sch ∈ URLValidator.http_schemes ∧ N ≠ []
  ∧ Forall (λ c, Urllib.netloc_delim c = false) N
  ∧ Urllib.invalid_ipv6 check_bracketed_netloc N = false
  ∧ (P = [] ∨ ∃ p, P = "/"%char :: p)
  ∧ Forall (λ c, c ≠ "?"%char ∧ c ≠ "#"%char) P
  ∧ Forall (λ c, c ≠ "#"%char) Q
  ∧ Forall safe (N ++ P ++ Q).

(** [#] and the fragment, when there is one. *)
Definition fragment_suffix (F : str) : str :=
  if bool_decide (F = []) then [] else "#"%char :: F.

(** A URL with [https://] in front when it starts with neither
    [http://] nor [https://]. *)
Definition with_scheme (url : str) : str :=
  if negb (startswith url (py "http://") || startswith url (py "https://"))
  then py "https://" ++ url else url.

(** What follows the first slash of a root-relative reference without
    query, fragment or parameters, whose segments are not [.] or [..]
    and whose first segment is not empty. *)
Definition plain_path (p : str) : Prop :=
  Forall safe p
  ∧ Forall (λ c, c ≠ "?"%char ∧ c ≠ "#"%char ∧ c ≠ ";"%char) p
  ∧ take 1 p ≠ py "/"
  ∧ Forall (λ seg, seg ≠ py "." ∧ seg ≠ py "..") (split "/"%char p).

(** What a [meta] element contributes to the metadata: the key, its
    [name] attribute or, when it has none, its [property] attribute, and
    the value, its [content] attribute; nothing when the key or the value
    is empty or missing. *)
Definition meta_entry (tag : Bs4.node) : option (str * str) :=
  match tag with
  | Bs4.Tag _ attrs _ =>
      let name :=
        match Bs4.get attrs (py "name") with
        | Some name => name
        | None => default [] (Bs4.get attrs (py "property"))
        end in
      let content := default [] (Bs4.get attrs (py "content")) in
      if bool_decide (name ≠ [] ∧ content ≠ []) then Some (name, content) else None
  | _ => None
  end.

(** The value that the last element with the key [key] gives. *)
Definition last_meta (key : str) (tags : list Bs4.node) : option str :=
  last (omap (λ tag, '(name, content) ← meta_entry tag;
                     if bool_decide (name = key) then Some content else None) tags).

(** The name and the attributes of a tag. *)
Definition label (n : Bs4.node) : option (str * list (str * str)) :=
  match n with
  | Bs4.Tag name attrs _ => Some (name, attrs)
  | _ => None
  end.

(** The state [s'] holds all that the state [s] holds: the visited URLs,
    and the pages and the requests in their order. *)
Definition grows (s s' : WebScraper.Session) : Prop :=
  WebScraper.visited_urls s ⊆ WebScraper.visited_urls s'
  ∧ WebScraper.scraped_pages s `prefix_of` WebScraper.scraped_pages s'
  ∧ WebScraper.requests s `prefix_of` WebScraper.requests s'.

(** The page [p] was reached from the page [q]: it is one level deeper,
    and its URL is a cleaned link of [q] in the domain of [q]. *)
Definition linked_from (check_bracketed_netloc : str → bool)
    (q p : WebScraper.ScrapedPage) : Prop :=
  WebScraper.depth p = WebScraper.depth q + 1
  ∧ ∃ link, link ∈ WebScraper.links q
      ∧ WebScraper.is_same_domain check_bracketed_netloc (WebScraper.url q) link = true
      ∧ WebScraper.url p = WebScraper.clean_url link.

(** Every page of [pages] was reached from the seed [root]: the first is
    the page of the cleaned seed, at depth 0, and every other one was
    reached from a page before it in the list. *)
Definition reached (check_bracketed_netloc : str → bool) (root : str)
    (pages : list WebScraper.ScrapedPage) : Prop :=
  ∀ (i : nat) p, pages !! i = Some p →
    0 ≤ WebScraper.depth p
    ∧ ((i = 0%nat ∧ WebScraper.depth p = 0
        ∧ WebScraper.url p = WebScraper.clean_url root)
       ∨ ∃ (j : nat) q, (j < i)%nat ∧ pages !! j = Some q
           ∧ linked_from check_bracketed_netloc q p).

End Spec.

Import Spec.

(** ** A small web, for the examples *)

Module Sample.

Import Bs4 WebScraper.

(** A validator that accepts the strings without white space. *)
Definition validator (s : str) : bool := forallb (λ c, negb (isspace c)) s.

Definition no_check (netloc : str) : bool := true.

Definition anchor (href : string) : node :=
  Tag (py "a") [(py "href", py href)] [].

Definition page_with (hrefs : list string) : response :=
  Document (Tag (py "[document]") [] (anchor <$> hrefs)).

(** Four pages on [a.com]; [/y] cannot be fetched. *)
Definition web (before : list str) (u : str) : response :=
  if bool_decide (u = py "https://a.com")
  then page_with ["/x"; "/y"; "https://b.com/q"; "/z"]
  else if bool_decide (u = py "https://a.com/x") then page_with ["/x1"; "/y"; "/"]
  else if bool_decide (u = py "https://a.com/y") then RequestException
  else page_with [].

Definition text (s : string) : node := NavigableString (py s).

Definition document (contents : list node) : node :=
  Tag (py "[document]") [] contents.

(** [<title></title><h1>Hello</h1>] *)
Definition empty_title_page : node :=
  document [Tag (py "title") [] []; Tag (py "h1") [] [text "Hello"]].




(** Two [meta] elements named [description], one with a [property], and
    an [h2] before an [h1]. *)
Definition meta (key name content : string) : node :=
  Tag (py "meta") [(py key, py name); (py "content", py content)] [].

Definition meta_page : node :=
  document [meta "name" "description" "first";
            meta "property" "og:title" "A page";
            meta "name" "description" "second";
            Tag (py "h2") [] [text "Details"];
            Tag (py "h1") [] [text " A page "]].

(** The session that the seed [a.com] gives on this web. *)
Definition run : Run :=
  default fresh
    (_crawl_recursive 3 50 validator no_check web 5 (py "https://a.com") 0 fresh).

(** The first page of that session. *)
Definition first_page : ScrapedPage :=
  default (mkPage [] [] [] ∅ [] 0) (head (scraped_pages (now run))).

End Sample.
(** * Properties *)

(** ** String lemmas *)

Section break_lemmas.

Context (p : ascii → bool).

Lemma break_app (s : str) : (break p s).1 ++ (break p s).2 = s.
Proof.
  induction s as [|c s IH]; simpl; [done|].
  destruct (p c); simpl; [done|].
  destruct (break p s) as [a b]; simpl in *. by rewrite IH.
Qed.

Lemma break_fst_Forall (s : str) : Forall (λ c, p c = false) (break p s).1.
Proof.
  induction s as [|c s IH]; simpl; [constructor|].
  destruct (p c) eqn:Hc; simpl; [constructor|].
  destruct (break p s) as [a b]; simpl in *. by constructor.
Qed.

Lemma break_snd_head (s : str) c b : (break p s).2 = c :: b → p c = true.
Proof.
  induction s as [|d s IH]; simpl; [done|].
  destruct (p d) eqn:Hd; simpl.
  - by intros [= <- _].
  - destruct (break p s) as [a b']; simpl in *. done.
Qed.

Lemma break_none (s : str) :
  Forall (λ c, p c = false) s → break p s = (s, []).
Proof.
  induction 1 as [|c s Hc _ IH]; simpl; [done|]. by rewrite Hc, IH.
Qed.

Lemma break_at (a : str) c (b : str) :
  Forall (λ c, p c = false) a → p c = true → break p (a ++ c :: b) = (a, c :: b).
Proof.
  intros Ha Hc. induction Ha as [|d a Hd _ IH]; simpl.
  - by rewrite Hc.
  - by rewrite Hd, IH.
Qed.

Lemma break_found_app (s t : str) :
  (break p s).2 ≠ [] → break p (s ++ t) = ((break p s).1, (break p s).2 ++ t).
Proof.
  induction s as [|c s IH]; simpl; [done|].
  destruct (p c); simpl; [done|].
  destruct (break p s) as [a b]; simpl in *.
  intros Hb. by rewrite (IH Hb).
Qed.

Lemma break_snd_nil (s : str) :
  (break p s).2 = [] → Forall (λ c, p c = false) s.
Proof.
  intros Hb. pose proof (break_app s) as Hs. rewrite Hb, app_nil_r in Hs.
  rewrite <- Hs. apply break_fst_Forall.
Qed.

End break_lemmas.

Lemma is_char_false c d : is_char c d = false ↔ d ≠ c.
Proof. unfold is_char. by rewrite bool_decide_eq_false. Qed.

Lemma is_char_true c d : is_char c d = true ↔ d = c.
Proof. unfold is_char. by rewrite bool_decide_eq_true. Qed.

Lemma contains_false c (s : str) : contains c s = false ↔ Forall (λ d, d ≠ c) s.
Proof.
  unfold contains. rewrite bool_decide_eq_false, Forall_forall.
  split; [intros H d Hd -> | intros H Hc]; [done | by apply (H c)].
Qed.

Lemma Forall_is_char c (s : str) :
  Forall (λ d, d ≠ c) s ↔ Forall (λ d, is_char c d = false) s.
Proof. apply Forall_proper; [|done]. intros d. by rewrite is_char_false. Qed.

Lemma split1_at c (a b : str) :
  Forall (λ d, d ≠ c) a → split1 c (a ++ c :: b) = (a, b).
Proof.
  intros Ha. unfold split1. rewrite break_at; [done| |by apply is_char_true].
  by apply Forall_is_char.
Qed.

Lemma split1_spec c (s a b : str) :
  contains c s = true → split1 c s = (a, b) →
  s = a ++ c :: b ∧ Forall (λ d, d ≠ c) a.
Proof.
  unfold split1, contains. rewrite bool_decide_eq_true. intros Hin.
  pose proof (break_app (is_char c) s) as Happ.
  pose proof (break_fst_Forall (is_char c) s) as Hfst.
  destruct (break (is_char c) s) as [a' b'] eqn:Hbr; simpl in *.
  intros [= <- <-]. apply Forall_is_char in Hfst.
  destruct b' as [|d b']; simpl.
  - rewrite app_nil_r in Happ. subst a'.
    rewrite Forall_forall in Hfst. by destruct (Hfst c Hin).
  - assert (is_char c d = true) as Hd.
    { apply (break_snd_head (is_char c) s d b'). by rewrite Hbr. }
    apply is_char_true in Hd. by subst d.
Qed.
(** ** URL parsing *)

Import Urllib.

Lemma remove_unsafe_safe s : Forall safe (remove_unsafe s).
Proof.
  apply Forall_forall. intros c Hc.
  unfold remove_unsafe in Hc. by apply list_elem_of_filter in Hc as [? _].
Qed.

Lemma remove_unsafe_id s : Forall safe s → remove_unsafe s = s.
Proof.
  induction 1 as [|c s Hc _ IH]; [done|].
  unfold remove_unsafe in *. by rewrite filter_cons_True, IH.
Qed.

Lemma remove_unsafe_app s t :
  remove_unsafe (s ++ t) = remove_unsafe s ++ remove_unsafe t.
Proof. apply filter_app. Qed.

Lemma take2_slashes (url : str) :
  take 2 url = py "//" → url = "/"%char :: "/"%char :: drop 2 url.
Proof.
  destruct url as [|a [|b url]]; simpl; try done. by intros [= -> ->].
Qed.

Lemma split_fragment_spec url a f :
  split_fragment url = (a, f) →
  Forall (λ c, c ≠ "#"%char) a ∧ (url = a ∧ f = [] ∨ url = a ++ "#"%char :: f).
Proof.
  unfold split_fragment. destruct (contains _ url) eqn:Hc.
  - intros Hs. destruct (split1_spec _ _ _ _ Hc Hs) as [-> Ha]. auto.
  - intros [= <- <-]. apply contains_false in Hc. auto.
Qed.

Lemma split_query_spec url a q :
  split_query url = (a, q) →
  Forall (λ c, c ≠ "?"%char) a ∧ (url = a ∧ q = [] ∨ url = a ++ "?"%char :: q).
Proof.
  unfold split_query. destruct (contains _ url) eqn:Hc.
  - intros Hs. destruct (split1_spec _ _ _ _ Hc Hs) as [-> Ha]. auto.
  - intros [= <- <-]. apply contains_false in Hc. auto.
Qed.

Lemma split_fragment_none url :
  Forall (λ c, c ≠ "#"%char) url → split_fragment url = (url, []).
Proof. intros H. apply contains_false in H. unfold split_fragment. by rewrite H. Qed.

Lemma split_query_none url :
  Forall (λ c, c ≠ "?"%char) url → split_query url = (url, []).
Proof. intros H. apply contains_false in H. unfold split_query. by rewrite H. Qed.

Lemma split_query_at a q :
  Forall (λ c, c ≠ "?"%char) a → split_query (a ++ "?"%char :: q) = (a, q).
Proof.
  intros Ha. unfold split_query.
  replace (contains "?"%char (a ++ "?"%char :: q)) with true.
  - by apply split1_at.
  - symmetry. unfold contains. apply bool_decide_eq_true. set_solver.
Qed.

Lemma split_scheme_rest dflt url sch rest :
  split_scheme dflt url = (sch, rest) → ∃ k, url = k ++ rest.
Proof.
  unfold split_scheme.
  pose proof (break_app (is_char ":"%char) url) as Happ.
  destruct (break _ url) as [pre r]; simpl in *.
  destruct pre as [|c0 pre]; [intros [= <- <-]; by exists []|].
  destruct r as [|c r]; [intros [= <- <-]; by exists []|].
  destruct (_ && _).
  - intros [= <- <-]. exists ((c0 :: pre) ++ [c]). by rewrite <- app_assoc.
  - intros [= <- <-]. by exists [].
Qed.


Lemma netloc_delim_true c :
  netloc_delim c = true ↔ c = "/"%char ∨ c = "?"%char ∨ c = "#"%char.
Proof.
  unfold netloc_delim. rewrite bool_decide_eq_true, !elem_of_cons, elem_of_nil.
  naive_solver.
Qed.

Lemma netloc_delim_false c :
  netloc_delim c = false ↔ c ≠ "/"%char ∧ c ≠ "?"%char ∧ c ≠ "#"%char.
Proof.
  unfold netloc_delim. rewrite bool_decide_eq_false, !elem_of_cons, elem_of_nil.
  naive_solver.
Qed.

Lemma split_tail_wf tl url1 f p q :
  split_fragment tl = (url1, f) → split_query url1 = (p, q) →
  Forall safe tl →
  Forall (λ c, c ≠ "?"%char ∧ c ≠ "#"%char) p ∧
  Forall (λ c, c ≠ "#"%char) q ∧
  Forall safe (p ++ q) ∧
  (match tl with
   | [] => p = []
   | c :: _ => netloc_delim c = true → p = [] ∨ ∃ p', p = "/"%char :: p'
   end).
Proof.
  intros Hf Hq Hsafe.
  apply split_fragment_spec in Hf as [Hu1 Hf].
  apply split_query_spec in Hq as [Hp Hq].
  assert (Forall safe url1) as Hsafe1.
  { destruct Hf as [[-> _]| ->]; [done|]. by apply Forall_app in Hsafe as [? _]. }
  assert (Forall (λ c, c ≠ "#"%char) p ∧ Forall (λ c, c ≠ "#"%char) q
          ∧ Forall safe (p ++ q)) as (Hp' & Hq' & Hpq).
  { destruct Hq as [[<- ->]| ->].
    - rewrite app_nil_r. by repeat split.
    - apply Forall_app in Hu1 as [? Hu1]. apply Forall_cons in Hu1 as [_ ?].
      apply Forall_app in Hsafe1 as [? Hs]. apply Forall_cons in Hs as [_ ?].
      repeat split; try done. by apply Forall_app. }
  repeat split; try done.
  - rewrite Forall_forall in *. naive_solver.
  - assert (∃ t, tl = p ++ t ∧ (p = [] → t = [] ∨ ∃ c t', t = c :: t' ∧ c ≠ "/"%char)) as (t & -> & Ht).
    { destruct Hf as [[-> ->]| ->]; destruct Hq as [[<- ->]| ->].
      - exists []. rewrite app_nil_r. auto.
      - eexists. split; [done|]. intros _. right. by eexists _, _.
      - eexists. split; [done|]. intros _. right. by eexists _, _.
      - eexists. rewrite <- app_assoc. split; [done|]. intros _. right.
        by eexists _, _. }
    destruct p as [|c p]; simpl.
    + destruct t; auto.
    + intros Hc. right. exists p. f_equal.
      apply netloc_delim_true in Hc. apply Forall_cons in Hp as [? _].
      apply Forall_cons in Hp' as [? _]. naive_solver.
Qed.

Lemma split_scheme_http dflt rest sch :
  sch ∈ URLValidator.http_schemes → split_scheme dflt (sch ++ ":"%char :: rest) = (sch, rest).
Proof.
  unfold URLValidator.http_schemes. rewrite !elem_of_cons, elem_of_nil.
  intros [->|[->|[]]]; unfold split_scheme;
    (rewrite break_at; [reflexivity| |reflexivity]);
    repeat constructor.
Qed.

Lemma http_schemes_shape sch :
  sch ∈ URLValidator.http_schemes →
  ∃ s, sch = "h"%char :: s ∧ Forall safe sch.
Proof.
  unfold URLValidator.http_schemes. rewrite !elem_of_cons, elem_of_nil.
  intros [->|[->|[]]]; eexists; (split; [reflexivity|]);
    apply (bool_decide_unpack _); by vm_compute.
Qed.

Lemma after_scheme_http dflt sch x :
  sch ∈ URLValidator.http_schemes →
  after_scheme dflt (sch ++ ":"%char :: x) = (sch, remove_unsafe x).
Proof.
  intros Hsch. unfold after_scheme.
  destruct (http_schemes_shape sch Hsch) as (s & Hs & Hssafe).
  replace (lstrip_by c0_control_or_space (sch ++ _)) with (sch ++ ":"%char :: x)
    by (by rewrite Hs).
  rewrite remove_unsafe_app, (remove_unsafe_id sch) by done.
  unfold remove_unsafe at 2. rewrite filter_cons_True.
  2:{ apply (bool_decide_unpack _); by vm_compute. }
  by rewrite split_scheme_http.
Qed.

Section wf.
Variable chk : str → bool.

Lemma invalid_ipv6_nil : invalid_ipv6 chk [] = false.
Proof. reflexivity. Qed.

Lemma urlsplit_wf url dflt r :
  urlsplit chk url dflt = Ok r →
  Forall (λ c, netloc_delim c = false) (s_netloc r) ∧
  invalid_ipv6 chk (s_netloc r) = false ∧
  Forall (λ c, c ≠ "?"%char ∧ c ≠ "#"%char) (s_path r) ∧
  Forall (λ c, c ≠ "#"%char) (s_query r) ∧
  Forall safe (s_netloc r ++ s_path r ++ s_query r) ∧
  (s_netloc r ≠ [] ∨ take 2 (after_scheme dflt url).2 = py "//" →
   s_path r = [] ∨ ∃ p, s_path r = "/"%char :: p).
Proof.
  unfold urlsplit, after_scheme.
  pose proof (remove_unsafe_safe (lstrip_by c0_control_or_space url)) as Hw.
  set (w := remove_unsafe (lstrip_by c0_control_or_space url)) in *.
  destruct (split_scheme _ w) as [sch rest] eqn:Hsch.
  apply split_scheme_rest in Hsch as [k ->]. simpl.
  apply Forall_app in Hw as [_ Hrest].
  case_bool_decide as Hsl.
  - apply take2_slashes in Hsl.
    rewrite Hsl in Hrest. do 2 apply Forall_cons in Hrest as [_ Hrest].
    unfold splitnetloc.
    pose proof (break_app netloc_delim (drop 2 rest)) as Happ.
    pose proof (break_fst_Forall netloc_delim (drop 2 rest)) as Hfst.
    pose proof (break_snd_head netloc_delim (drop 2 rest)) as Hhd.
    destruct (break netloc_delim (drop 2 rest)) as [nl tl]; simpl in *.
    destruct (invalid_ipv6 chk nl) eqn:Hinv; [done|]. simpl.
    rewrite <- Happ in Hrest. apply Forall_app in Hrest as [Hsnl Hstl].
    destruct (split_fragment tl) as [url1 f] eqn:Hf.
    destruct (split_query url1) as [p q] eqn:Hq.
    intros [= <-]; simpl.
    destruct (split_tail_wf _ _ _ _ _ Hf Hq Hstl) as (? & ? & ? & Hp).
    repeat split; try done.
    + by apply Forall_app.
    + intros _. destruct tl as [|c tl]; [by left|]. apply Hp. by eapply Hhd.
  - simpl.
    destruct (split_fragment rest) as [url1 f] eqn:Hf.
    destruct (split_query url1) as [p q] eqn:Hq.
    intros [= <-]; simpl.
    destruct (split_tail_wf _ _ _ _ _ Hf Hq Hrest) as (? & ? & ? & Hp).
    repeat split; try done. by intros [?|?].
Qed.

End wf.

Lemma rebuild_alt sch N P Q :
  rebuild sch N P Q =
  sch ++ ":"%char :: "/"%char :: "/"%char ::
    N ++ P ++ (if bool_decide (Q = []) then [] else "?"%char :: Q).
Proof.
  unfold rebuild. case_bool_decide; cbn [negb].
  - rewrite app_nil_r. reflexivity.
  - rewrite <- !app_assoc. reflexivity.
Qed.

Section compose.
Variable chk : str → bool.

Lemma urlsplit_compose sch N P Q dflt :
  sch ∈ URLValidator.http_schemes →
  Forall (λ c, netloc_delim c = false) N →
  invalid_ipv6 chk N = false →
  (P = [] ∨ ∃ p, P = "/"%char :: p) →
  Forall (λ c, c ≠ "?"%char ∧ c ≠ "#"%char) P →
  Forall (λ c, c ≠ "#"%char) Q →
  Forall safe (N ++ P ++ Q) →
  urlsplit chk (rebuild sch N P Q) dflt = Ok (mkSplit sch N P Q []).
Proof.
  intros Hsch HN Hinv HP HP' HQ Hsafe.
  rewrite rebuild_alt.
  destruct (http_schemes_shape sch Hsch) as (s & Hs & Hssafe).
  set (optq := if bool_decide (Q = []) then [] else "?"%char :: Q).
  apply Forall_app in Hsafe as [HsN Hsafe]. apply Forall_app in Hsafe as [HsP HsQ].
  assert (Forall safe optq) as Hsq.
  { unfold optq. case_bool_decide; [constructor|].
    constructor; [|done]. apply (bool_decide_unpack _); by vm_compute. }
  assert (Forall (λ c, c ≠ "#"%char) (P ++ optq)) as Hnofrag.
  { apply Forall_app. split.
    - eapply Forall_impl; [exact HP'|]. naive_solver.
    - unfold optq. case_bool_decide; [constructor|]. by constructor. }
  assert (break netloc_delim (N ++ P ++ optq) = (N, P ++ optq)) as Hbr.
  { destruct HP as [->|[p ->]]; simpl.
    - unfold optq. case_bool_decide.
      + rewrite app_nil_r. by apply break_none.
      + by apply break_at.
    - by apply break_at. }
  unfold urlsplit.
  replace (lstrip_by c0_control_or_space (sch ++ _)) with
    (sch ++ ":"%char :: "/"%char :: "/"%char :: N ++ P ++ optq)
    by (by rewrite Hs).
  rewrite (remove_unsafe_id (sch ++ _)).
  2:{ apply Forall_app. split; [done|].
      do 3 (constructor; [apply (bool_decide_unpack _); by vm_compute|]).
      by rewrite !Forall_app. }
  rewrite split_scheme_http by done.
  rewrite bool_decide_true by reflexivity.
  unfold splitnetloc.
  replace (drop 2 (_ :: _ :: N ++ P ++ optq)) with (N ++ P ++ optq) by reflexivity.
  rewrite Hbr, Hinv. simpl.
  rewrite split_fragment_none by done.
  assert (split_query (P ++ optq) = (P, Q)) as ->; [|done].
  unfold optq. case_bool_decide as HQe.
  - subst Q. rewrite app_nil_r. apply split_query_none.
    eapply Forall_impl; [exact HP'|]. naive_solver.
  - apply split_query_at. eapply Forall_impl; [exact HP'|]. naive_solver.
Qed.

End compose.

Lemma last_segment_spec url head seg :
  last_segment url = (head, seg) →
  url = head ++ seg ∧ Forall (λ c, c ≠ "/"%char) seg
  ∧ (head = [] ∨ ∃ h, head = h ++ ["/"%char]).
Proof.
  unfold last_segment.
  pose proof (break_app (is_char "/"%char) (reverse url)) as Happ.
  pose proof (break_fst_Forall (is_char "/"%char) (reverse url)) as Hfst.
  pose proof (break_snd_head (is_char "/"%char) (reverse url)) as Hhd.
  destruct (break _ (reverse url)) as [seg_rev head_rev]; simpl in *.
  intros [= <- <-]. repeat split.
  - rewrite <- reverse_app, Happ. by rewrite reverse_involutive.
  - apply Forall_reverse. by apply Forall_is_char.
  - destruct head_rev as [|c t]; [by left|right].
    exists (reverse t). rewrite reverse_cons.
    specialize (Hhd c t eq_refl). apply is_char_true in Hhd. by subst c.
Qed.

Lemma last_segment_app head seg :
  (head = [] ∨ ∃ h, head = h ++ ["/"%char]) →
  Forall (λ c, c ≠ "/"%char) seg →
  last_segment (head ++ seg) = (head, seg).
Proof.
  intros Hhead Hseg. unfold last_segment. rewrite reverse_app.
  apply Forall_is_char, Forall_reverse in Hseg.
  destruct Hhead as [->|[h ->]].
  - rewrite reverse_nil, app_nil_r, break_none by done.
    by rewrite reverse_involutive.
  - rewrite reverse_snoc, break_at; [|done|by apply is_char_true].
    by rewrite reverse_cons, !reverse_involutive.
Qed.

Lemma splitparams_spec url :
  ∃ t, url = (splitparams url).1 ++ t
    ∧ splitparams (splitparams url).1 = ((splitparams url).1, []).
Proof.
  destruct (splitparams url) as [P pp] eqn:Hsp; simpl.
  unfold splitparams in Hsp.
  destruct (last_segment url) as [head seg] eqn:Hls.
  pose proof (last_segment_spec _ _ _ Hls) as (Hurl & Hseg & Hhead).
  pose proof (break_app (is_char ";"%char) seg) as Happ.
  pose proof (break_fst_Forall (is_char ";"%char) seg) as Hfst.
  destruct (break _ seg) as [a b] eqn:Hbr; simpl in *.
  destruct b as [|c ps]; injection Hsp as <- <-.
  - exists []. split; [by rewrite app_nil_r|].
    unfold splitparams. by rewrite Hls, Hbr.
  - exists (c :: ps). split; [by rewrite <- app_assoc, Happ|].
    rewrite <- Happ in Hseg. apply Forall_app in Hseg as [Hseg _].
    unfold splitparams. rewrite last_segment_app by done.
    by rewrite break_none.
Qed.

Lemma path_of_spec sch url :
  ∃ t, url = (path_of sch url).1 ++ t
    ∧ path_of sch (path_of sch url).1 = ((path_of sch url).1, []).
Proof.
  destruct (path_of sch url) as [P pp] eqn:Hp; simpl.
  unfold path_of in *. destruct (bool_decide (sch ∈ uses_params)); simpl in *.
  - destruct (contains _ url) eqn:Hc.
    + destruct (splitparams_spec url) as (t & Ht & Hst). rewrite Hp in *.
      simpl in *. exists t. split; [done|]. by destruct (contains _ P).
    + simplify_eq. exists []. rewrite app_nil_r. by rewrite Hc.
  - simplify_eq. exists []. by rewrite app_nil_r.
Qed.

Section parse.
Variable chk : str → bool.

Lemma urlparse_unfold url dflt :
  urlparse chk url dflt =
  r ← urlsplit chk url dflt;
  Ok (mkParse (s_scheme r) (s_netloc r) (path_of (s_scheme r) (s_path r)).1
        (path_of (s_scheme r) (s_path r)).2 (s_query r) (s_fragment r)).
Proof.
  unfold urlparse. destruct (urlsplit chk url dflt) as [r|e]; simpl; [|done].
  unfold path_of. destruct (_ && _); [|done]. by destruct (splitparams (s_path r)).
Qed.

Lemma urlparse_wf url dflt pr :
  urlparse chk url dflt = Ok pr →
  Forall (λ c, netloc_delim c = false) (netloc pr) ∧
  invalid_ipv6 chk (netloc pr) = false ∧
  Forall (λ c, c ≠ "?"%char ∧ c ≠ "#"%char) (path pr) ∧
  Forall (λ c, c ≠ "#"%char) (query pr) ∧
  Forall safe (netloc pr ++ path pr ++ query pr) ∧
  (netloc pr ≠ [] ∨ take 2 (after_scheme dflt url).2 = py "//" →
   path pr = [] ∨ ∃ p, path pr = "/"%char :: p) ∧
  path_of (scheme pr) (path pr) = (path pr, []).
Proof.
  rewrite urlparse_unfold.
  destruct (urlsplit chk url dflt) as [r|e] eqn:Hr; simpl; [|done].
  intros [= <-]; simpl.
  destruct (urlsplit_wf _ _ _ _ Hr) as (HN & Hinv & HP & HQ & Hsafe & Hsl).
  destruct (path_of_spec (s_scheme r) (s_path r)) as (t & Ht & Hst).
  set (P := (path_of (s_scheme r) (s_path r)).1) in *.
  rewrite Ht in HP, Hsafe, Hsl.
  apply Forall_app in HP as [HP _].
  rewrite !Forall_app in Hsafe. destruct Hsafe as (? & [? ?] & ?).
  repeat split; try done.
  - by rewrite !Forall_app.
  - intros Hne. destruct P as [|c P']; [by left|right].
    destruct (Hsl Hne) as [?|[p [= -> _]]]; [done|]. by exists P'.
Qed.

Lemma urlparse_compose sch N P Q dflt :
  sch ∈ URLValidator.http_schemes →
  Forall (λ c, netloc_delim c = false) N →
  invalid_ipv6 chk N = false →
  (P = [] ∨ ∃ p, P = "/"%char :: p) →
  Forall (λ c, c ≠ "?"%char ∧ c ≠ "#"%char) P →
  Forall (λ c, c ≠ "#"%char) Q →
  Forall safe (N ++ P ++ Q) →
  path_of sch P = (P, []) →
  urlparse chk (rebuild sch N P Q) dflt = Ok (mkParse sch N P [] Q []).
Proof.
  intros. rewrite urlparse_unfold, urlsplit_compose by done. simpl.
  by replace (path_of sch P) with (P, @nil ascii).
Qed.

Lemma urlsplit_scheme url dflt r :
  urlsplit chk url dflt = Ok r → s_scheme r = (after_scheme dflt url).1.
Proof.
  unfold urlsplit, after_scheme. destruct (split_scheme _ _) as [sch rest]; simpl.
  case_bool_decide.
  - destruct (splitnetloc _) as [nl tl]. destruct (invalid_ipv6 _ _); [done|].
    simpl. destruct (split_fragment _), (split_query _). by intros [= <-].
  - simpl. destruct (split_fragment _), (split_query _). by intros [= <-].
Qed.

Lemma urlparse_http_prefix sch x dflt pr :
  sch ∈ URLValidator.http_schemes →
  urlparse chk (sch ++ ":"%char :: x) dflt = Ok pr → scheme pr = sch.
Proof.
  intros Hsch. rewrite urlparse_unfold.
  destruct (urlsplit _ _ _) as [r|] eqn:Hr; simpl; [|done].
  intros [= <-]; simpl. apply urlsplit_scheme in Hr.
  by rewrite Hr, after_scheme_http.
Qed.

End parse.

Section validator_props.

Variable validators_url : str → bool.
Variable chk : str → bool.

(** [validators.url] rejects a string with leading or trailing white space. *)
Hypothesis validators_url_stripped :
  ∀ s, validators_url s = true → strip s = s.

Local Abbreviation is_valid_url := (URLValidator.is_valid_url validators_url chk).
Local Abbreviation normalize_url := (URLValidator.normalize_url validators_url chk).

Lemma is_valid_url_true url :
  is_valid_url url = Ok true →
  validators_url url = true ∧
  ∃ pr, Urllib.urlparse chk url [] = Ok pr
        ∧ scheme pr ∈ URLValidator.http_schemes ∧ netloc pr ≠ [].
Proof.
  unfold URLValidator.is_valid_url, URLValidator.urlparse.
  case_bool_decide; [done|].
  destruct (validators_url url); simpl; [|done].
  destruct (Urllib.urlparse chk url []) as [pr|e]; simpl; [|done].
  repeat case_bool_decide; simpl; try done.
  intros _. split; [done|]. by exists pr.
Qed.

Lemma http_prefixed (url : str) :
  let url' :=
    if negb (startswith url (py "http://") || startswith url (py "https://"))
    then py "https://" ++ url else url in
  ∃ sch x, sch ∈ URLValidator.http_schemes ∧ url' = sch ++ ":"%char :: py "//" ++ x.
Proof.
  cbv zeta. unfold startswith.
  destruct (bool_decide (py "http://" `prefix_of` url)) eqn:H1; cbn [orb negb].
  { apply bool_decide_eq_true in H1 as [k ->].
    exists (py "http"), k. split; [set_solver|reflexivity]. }
  destruct (bool_decide (py "https://" `prefix_of` url)) eqn:H2; cbn [orb negb].
  { apply bool_decide_eq_true in H2 as [k ->].
    exists (py "https"), k. split; [set_solver|reflexivity]. }
  exists (py "https"), url. split; [set_solver|reflexivity].
Qed.

Lemma rebuild_prefixed sch N P Q :
  sch ∈ URLValidator.http_schemes →
  rebuild sch N P Q ≠ [] ∧
  negb (startswith (rebuild sch N P Q) (py "http://")
        || startswith (rebuild sch N P Q) (py "https://")) = false.
Proof.
  rewrite rebuild_alt. unfold URLValidator.http_schemes, startswith.
  rewrite !elem_of_cons, elem_of_nil. intros [->|[->|[]]]; (split; [done|]).
  - rewrite (bool_decide_true (py "http://" `prefix_of` _)); [done|].
    by eexists.
  - rewrite (bool_decide_true (py "https://" `prefix_of` _)), orb_true_r; [done|].
    by eexists.
Qed.

(** C9. When [normalize_url] returns a URL, normalizing that URL returns
    it again.  [validators.url] is taken to reject strings with leading
    or trailing white space. *)
Theorem normalize_url_fixed_point u r :
  normalize_url u = Ok (Some r) → normalize_url r = Ok (Some r).
Proof.
  unfold URLValidator.normalize_url at 1. case_bool_decide; [done|].
  destruct (http_prefixed (strip u)) as (sch & x & Hsch & ->).
  unfold URLValidator.urlparse.
  destruct (Urllib.urlparse chk _ []) as [pr|e] eqn:Hpr; simpl; [|done].
  pose proof (urlparse_http_prefix _ _ _ _ _ Hsch Hpr) as Hs.
  destruct (urlparse_wf _ _ _ _ Hpr) as (HN & Hinv & HP & HQ & Hsafe & Hsl & Hst).
  change (is_valid_url (rebuild (scheme pr) (netloc pr) (path pr) (query pr))
            ≫= (λ valid : bool,
                  if valid
                  then Ok (Some (rebuild (scheme pr) (netloc pr) (path pr) (query pr)))
                  else Ok None) = Ok (Some r) → normalize_url r = Ok (Some r)).
  set (n := rebuild _ _ _ _).
  destruct (is_valid_url n) as [[]|] eqn:Hvalid; simpl; [|done|done].
  intros [= <-].
  destruct (is_valid_url_true _ Hvalid) as (Hv & _).
  assert (Urllib.urlparse chk n [] =
          Ok (mkParse (scheme pr) (netloc pr) (path pr) [] (query pr) [])) as Hn.
  { unfold n. rewrite Hs in *. apply urlparse_compose; try done.
    apply Hsl. right. rewrite after_scheme_http by done. cbn [snd].
    rewrite remove_unsafe_app. reflexivity. }
  destruct (rebuild_prefixed (scheme pr) (netloc pr) (path pr) (query pr))
    as [Hne Hpre]; [by rewrite Hs|]. fold n in Hne, Hpre.
  unfold URLValidator.normalize_url. rewrite bool_decide_false by done.
  rewrite (validators_url_stripped n Hv), Hpre.
  unfold URLValidator.urlparse. rewrite Hn. simpl.
  change (is_valid_url n ≫= (λ valid : bool,
            if valid then Ok (Some n) else Ok None) = Ok (Some n)).
  by rewrite Hvalid.
Qed.


End validator_props.

(** ** Counting and trimming *)

Lemma count_app c (s t : str) : count c (s ++ t) = count c s + count c t.
Proof. unfold count. rewrite filter_app, length_app. lia. Qed.

Lemma count_nonneg c (s : str) : 0 ≤ count c s.
Proof. unfold count. lia. Qed.

Lemma count_cons_eq c (s : str) : count c (c :: s) = 1 + count c s.
Proof. unfold count. rewrite filter_cons_True by done. simpl length. lia. Qed.

Lemma count_cons_ne c d (s : str) : d ≠ c → count c (d :: s) = count c s.
Proof. intros. unfold count. by rewrite filter_cons_False. Qed.

Lemma count_zero c (s : str) : Forall (λ d, d ≠ c) s → count c s = 0.
Proof.
  induction 1 as [|d s Hd _ IH]; [done|]. by rewrite count_cons_ne.
Qed.

Lemma count_pos_elem c (s : str) : 0 < count c s → c ∈ s.
Proof.
  induction s as [|d s IH]; [done|].
  destruct (decide (d = c)) as [->|Hne]; [set_solver|].
  rewrite count_cons_ne by done. set_solver.
Qed.

Lemma count_remove_unsafe (s : str) :
  count "/"%char (remove_unsafe s) = count "/"%char s.
Proof.
  induction s as [|d s IH]; [done|]. unfold remove_unsafe in *.
  destruct (decide (d ∉ unsafe_url_bytes)) as [Hd|Hd].
  - rewrite filter_cons_True by done.
    destruct (decide (d = "/"%char)) as [->|Hne].
    + by rewrite !count_cons_eq, IH.
    + by rewrite !count_cons_ne, IH.
  - rewrite filter_cons_False by done. rewrite count_cons_ne; [done|].
    intros ->. apply Hd. apply (bool_decide_unpack _). by vm_compute.
Qed.

Lemma count_lstrip_by p c (s : str) :
  p c = false → count c (lstrip_by p s) = count c s.
Proof.
  intros Hc. induction s as [|d s IH]; [done|]. simpl.
  destruct (p d) eqn:Hd; [|done]. rewrite IH, count_cons_ne; [done|].
  intros ->. congruence.
Qed.

Lemma lstrip_by_snoc p (s : str) c :
  p c = false → lstrip_by p (s ++ [c]) = lstrip_by p s ++ [c].
Proof.
  intros Hc. induction s as [|d s IH]; simpl; [by rewrite Hc|].
  by destruct (p d).
Qed.

Lemma scheme_char_not_slash (s : str) :
  forallb scheme_char s = true → Forall (λ d, d ≠ "/"%char) s.
Proof.
  intros H. apply Forall_forall. intros d Hd ->.
  rewrite forallb_forall in H. apply list_elem_of_In, H in Hd.
  by vm_compute in Hd.
Qed.

Lemma split_scheme_snoc dflt (w : str) c sch rest :
  c ≠ ":"%char →
  split_scheme dflt (w ++ [c]) = (sch, rest) → sch ≠ dflt →
  ∃ y, rest = y ++ [c] ∧ split_scheme dflt w = (sch, y)
       ∧ count "/"%char y = count "/"%char w.
Proof.
  intros Hc. unfold split_scheme.
  pose proof (break_app (is_char ":"%char) w) as Happ.
  destruct (break (is_char ":"%char) w) as [pre r] eqn:Hbr; simpl in Happ.
  destruct r as [|c' after].
  - rewrite app_nil_r in Happ. subst pre.
    rewrite (break_none _ (w ++ [c])).
    + destruct w; simpl; by intros [= <- <-].
    + apply Forall_app. split.
      * pose proof (break_fst_Forall (is_char ":"%char) w) as Hf.
        by rewrite Hbr in Hf.
      * constructor; [|constructor]. by apply is_char_false.
  - rewrite break_found_app by (by rewrite Hbr). rewrite Hbr. simpl.
    destruct pre as [|c0 pre]; [by intros [= <- <-]|].
    destruct (_ && _) eqn:Hcond; [|by intros [= <- <-]].
    intros [= <- <-] _. exists after. repeat split.
    apply andb_true_iff in Hcond as [_ Hcond].
    apply scheme_char_not_slash in Hcond.
    assert (is_char ":"%char c' = true) as Hc'.
    { apply (break_snd_head _ w c' after). by rewrite Hbr. }
    apply is_char_true in Hc'. subst c'.
    rewrite <- Happ, count_app, (count_zero _ (c0 :: pre)) by done.
    rewrite count_cons_ne by (by intros [=]). lia.
Qed.

Lemma count_cons_le c d (s : str) : count c (d :: s) ≤ 1 + count c s.
Proof.
  destruct (decide (d = c)) as [->|?].
  - by rewrite count_cons_eq.
  - rewrite count_cons_ne by done. lia.
Qed.

Section drop_slash.
Variable chk : str → bool.

Lemma urlsplit_drop_slash url r :
  urlsplit chk (url ++ ["/"%char]) [] = Ok r →
  s_scheme r ≠ [] → s_netloc r ≠ [] → 3 ≤ count "/"%char url →
  ∃ r', urlsplit chk url [] = Ok r'
        ∧ s_scheme r' = s_scheme r ∧ s_netloc r' = s_netloc r.
Proof.
  intros Hr Hsch Hnl Hcount.
  pose proof (urlsplit_scheme _ _ _ _ Hr) as Hs.
  unfold urlsplit, after_scheme in *.
  assert (c0_control_or_space "/"%char = false) as Hc0 by reflexivity.
  rewrite (lstrip_by_snoc _ url _ Hc0) in Hr, Hs.
  rewrite remove_unsafe_app in Hr, Hs.
  change (remove_unsafe ["/"%char]) with ["/"%char] in *.
  change (remove_unsafe (strip_by c0_control_or_space [])) with (@nil ascii) in *.
  set (w := remove_unsafe (lstrip_by c0_control_or_space url)) in *.
  assert (count "/"%char w = count "/"%char url) as Hw.
  { unfold w. by rewrite count_remove_unsafe, count_lstrip_by by reflexivity. }
  destruct (split_scheme [] (w ++ ["/"%char])) as [sch rest] eqn:Hss.
  simpl in Hs.
  destruct (split_scheme_snoc _ _ "/"%char _ _ ltac:(by intros [=]) Hss)
    as (y & -> & Hy & Hcy); [congruence|].
  rewrite Hy. rewrite Hw in Hcy.
  destruct (bool_decide (take 2 (y ++ ["/"%char]) = py "//")) eqn:Hsl;
    simpl in Hr.
  2:{ destruct (split_fragment (y ++ _)) as [u f]. destruct (split_query u).
      injection Hr as <-. by simpl in Hnl. }
  destruct y as [|a [|b z]].
  { rewrite count_zero in Hcy by constructor. lia. }
  { pose proof (count_cons_le "/"%char a []) as Hle.
    rewrite (count_zero _ []) in Hle by constructor. lia. }
  assert (1 ≤ count "/"%char z) as Hz.
  { pose proof (count_cons_le "/"%char a (b :: z)).
    pose proof (count_cons_le "/"%char b z). lia. }
  change (take 2 ((a :: b :: z) ++ ["/"%char])) with (take 2 (a :: b :: z)) in Hsl.
  rewrite Hsl.
  change (drop 2 ((a :: b :: z) ++ ["/"%char])) with (z ++ ["/"%char]) in Hr.
  change (drop 2 (a :: b :: z)) with z.
  unfold splitnetloc in *.
  assert ((break netloc_delim z).2 ≠ []) as Hfound.
  { intros Hnil. apply break_snd_nil in Hnil.
    assert ("/"%char ∈ z) as Hin by (apply count_pos_elem; lia).
    rewrite Forall_forall in Hnil. by specialize (Hnil _ Hin). }
  rewrite break_found_app in Hr by done.
  destruct (break netloc_delim z) as [nl tl]; simpl in *.
  destruct (invalid_ipv6 chk nl); [done|]. simpl in *.
  destruct (split_fragment (tl ++ _)) as [u f]. destruct (split_query u).
  injection Hr as <-. simpl.
  destruct (split_fragment tl) as [u' f']. destruct (split_query u').
  by eexists.
Qed.

Lemma urlparse_drop_slash url pr :
  urlparse chk (url ++ ["/"%char]) [] = Ok pr →
  scheme pr ≠ [] → netloc pr ≠ [] → 3 ≤ count "/"%char url →
  ∃ pr', urlparse chk url [] = Ok pr'
         ∧ scheme pr' = scheme pr ∧ netloc pr' = netloc pr.
Proof.
  rewrite !urlparse_unfold.
  destruct (urlsplit chk (url ++ _) []) as [r|] eqn:Hr; simpl; [|done].
  intros [= <-]; simpl. intros Hs Hn Hc.
  destruct (urlsplit_drop_slash _ _ Hr Hs Hn Hc) as (r' & -> & <- & <-).
  simpl. by eexists.
Qed.

End drop_slash.

(** ** [clean_url] keeps scheme and host *)

Section clean_url_props.

Variable validators_url : str → bool.
Variable chk : str → bool.

Hypothesis validators_url_stripped :
  ∀ s, validators_url s = true → strip s = s.

Lemma endswith_slash (url : str) :
  endswith url (py "/") = true → ∃ k, url = k ++ ["/"%char].
Proof. unfold endswith. rewrite bool_decide_eq_true. by intros [k ->]; exists k. Qed.

Lemma clean_url_parse url pr :
  validators_url url = true →
  urlparse chk url [] = Ok pr → scheme pr ≠ [] → netloc pr ≠ [] →
  ∃ pr', urlparse chk (URLValidator.clean_url url) [] = Ok pr'
         ∧ scheme pr' = scheme pr ∧ netloc pr' = netloc pr.
Proof.
  intros Hv Hpr Hs Hn. unfold URLValidator.clean_url.
  rewrite (validators_url_stripped _ Hv).
  destruct (endswith url (py "/")) eqn:Hend; simpl; [|by exists pr].
  case_bool_decide as Hc; [|by exists pr].
  apply endswith_slash in Hend as [k ->].
  rewrite length_app. simpl length.
  replace (length k + 1 - 1)%nat with (length k) by lia.
  rewrite take_app_length.
  rewrite count_app, count_cons_eq, (count_zero _ []) in Hc by constructor.
  apply (urlparse_drop_slash chk k pr); [done..|lia].
Qed.

Lemma is_valid_url_absolute url :
  URLValidator.is_valid_url validators_url chk url = Ok true →
  absolute_http chk url.
Proof. intros H. by apply is_valid_url_true in H as [_ ?]. Qed.

Lemma http_scheme_nonempty (s : str) : s ∈ URLValidator.http_schemes → s ≠ [].
Proof.
  unfold URLValidator.http_schemes. rewrite !elem_of_cons, elem_of_nil.
  by intros [->|[->|[]]].
Qed.

Lemma clean_url_absolute url :
  URLValidator.is_valid_url validators_url chk url = Ok true →
  absolute_http chk (URLValidator.clean_url url).
Proof.
  intros H. apply is_valid_url_true in H as (Hv & pr & Hpr & Hs & Hn).
  destruct (clean_url_parse url pr Hv Hpr) as (pr' & Hpr' & Hs' & Hn');
    [by apply http_scheme_nonempty|done|].
  exists pr'. by rewrite Hs', Hn'.
Qed.

Lemma clean_url_domain url :
  URLValidator.is_valid_url validators_url chk url = Ok true →
  URLValidator.get_domain chk (URLValidator.clean_url url)
  = URLValidator.get_domain chk url.
Proof.
  intros H. apply is_valid_url_true in H as (Hv & pr & Hpr & Hs & Hn).
  destruct (clean_url_parse url pr Hv Hpr) as (pr' & Hpr' & Hs' & Hn');
    [by apply http_scheme_nonempty|done|].
  unfold URLValidator.get_domain, URLValidator.urlparse.
  by rewrite Hpr, Hpr', Hn'.
Qed.

Lemma normalize_url_valid u r :
  URLValidator.normalize_url validators_url chk u = Ok (Some r) →
  URLValidator.is_valid_url validators_url chk r = Ok true.
Proof.
  unfold URLValidator.normalize_url. case_bool_decide; [done|].
  destruct (URLValidator.urlparse _ _) as [pr|]; simpl; [|done].
  match goal with |- context [URLValidator.is_valid_url _ _ ?n] =>
    destruct (URLValidator.is_valid_url validators_url chk n) as [[]|] eqn:Hv
  end; simpl; [|done..].
  by intros [= <-].
Qed.

Lemma make_absolute_url_valid base rel u :
  URLValidator.make_absolute_url validators_url chk base rel = Some u →
  URLValidator.is_valid_url validators_url chk u = Ok true.
Proof.
  unfold URLValidator.make_absolute_url.
  destruct (URLValidator.urljoin chk base rel) as [a|]; simpl; [|done].
  destruct (URLValidator.is_valid_url validators_url chk a) as [[]|] eqn:Hv;
    simpl; [|done..].
  by intros [= <-].
Qed.

End clean_url_props.

(** ** The links of a page *)

Lemma first_occurrences_from_spec (l seen : list str) :
  NoDup (first_occurrences_from seen l)
  ∧ (∀ x, x ∈ first_occurrences_from seen l ↔ x ∈ l ∧ x ∉ seen)
  ∧ first_occurrences_from seen l `sublist_of` l.
Proof.
  revert seen. induction l as [|y l IH]; intros seen; simpl.
  { split; [constructor|]. split; [set_solver|constructor]. }
  case_bool_decide as Hy.
  - destruct (IH seen) as (Hnd & Hin & Hsub).
    split; [done|]. split; [|by constructor].
    intros x. rewrite Hin, elem_of_cons. naive_solver.
  - destruct (IH (y :: seen)) as (Hnd & Hin & Hsub).
    split; [|split; [|by constructor]].
    + constructor; [|done]. rewrite Hin. set_solver.
    + intros x. rewrite !elem_of_cons, Hin, not_elem_of_cons.
      destruct (decide (x = y)); naive_solver.
Qed.

Lemma first_occurrences_from_proper (l s1 s2 : list str) :
  (∀ x, x ∈ s1 ↔ x ∈ s2) →
  first_occurrences_from s1 l = first_occurrences_from s2 l.
Proof.
  revert s1 s2. induction l as [|y l IH]; intros s1 s2 Hs; simpl; [done|].
  rewrite (bool_decide_ext _ _ (Hs y)). case_bool_decide.
  - by apply IH.
  - f_equal. apply IH. intros x. rewrite !elem_of_cons. naive_solver.
Qed.

Section links_props.

Variable validators_url : str → bool.
Variable chk : str → bool.

Local Abbreviation make_absolute_url :=
  (URLValidator.make_absolute_url validators_url chk).
Local Abbreviation add_link := (Extract.add_link validators_url chk).
Local Abbreviation _extract_links := (Extract._extract_links validators_url chk).
Local Abbreviation resolve := (Spec.resolve validators_url chk).

Lemma make_absolute_url_nonempty base href u :
  make_absolute_url base href = Some u → u ≠ [].
Proof.
  intros H ->. apply make_absolute_url_valid in H.
  unfold URLValidator.is_valid_url in H. by rewrite bool_decide_true in H.
Qed.

Lemma add_link_resolve base acc href :
  add_link base acc href =
  match resolve base href with
  | Some u => if bool_decide (u ∈ acc) then acc else acc ++ [u]
  | None => acc
  end.
Proof.
  unfold Extract.add_link, Spec.resolve. destruct (Extract.skipped href); [done|].
  destruct (make_absolute_url base href) as [u|] eqn:Hu; [|done].
  apply make_absolute_url_nonempty in Hu.
  rewrite (bool_decide_false _ Hu). simpl. by case_bool_decide.
Qed.

Lemma foldl_add_link base hrefs acc :
  foldl (add_link base) acc hrefs =
  acc ++ first_occurrences_from acc (omap (resolve base) hrefs).
Proof.
  revert acc. induction hrefs as [|href hrefs IH]; intros acc; simpl.
  { by rewrite app_nil_r. }
  rewrite add_link_resolve. destruct (resolve base href) as [u|]; [|by apply IH].
  simpl. case_bool_decide as Hu; [by apply IH|].
  rewrite IH, <- app_assoc. simpl. do 2 f_equal.
  apply first_occurrences_from_proper. set_solver.
Qed.

Lemma extract_links_first_occurrences soup base :
  _extract_links soup base
  = first_occurrences (omap (resolve base) (Extract.anchor_hrefs soup)).
Proof. unfold Extract._extract_links. by rewrite foldl_add_link. Qed.

Lemma extract_links_valid soup base u :
  u ∈ _extract_links soup base →
  URLValidator.is_valid_url validators_url chk u = Ok true.
Proof.
  rewrite extract_links_first_occurrences.
  destruct (first_occurrences_from_spec
              (omap (resolve base) (Extract.anchor_hrefs soup)) [])
    as (_ & Hin & _).
  unfold first_occurrences. rewrite Hin, list_elem_of_omap.
  intros [(href & _ & Hr) _].
  unfold Spec.resolve in Hr. destruct (Extract.skipped href); [done|].
  by apply make_absolute_url_valid in Hr.
Qed.

End links_props.

(** ** White space *)

Lemma has_double_space_cons a (t : str) :
  has_double_space (a :: t)
  = (bool_decide (a = " "%char) && starts_with_space t) || has_double_space t.
Proof.
  destruct t as [|b t]; simpl.
  - by rewrite andb_false_r.
  - unfold starts_with_space. simpl. do 2 f_equal.
    apply bool_decide_ext. naive_solver.
Qed.

Lemma starts_with_space_app (a b : str) :
  starts_with_space (a ++ b)
  = match a with [] => starts_with_space b | _ => starts_with_space a end.
Proof. by destruct a. Qed.

Lemma ends_with_space_cons x (a : str) :
  ends_with_space (x :: a)
  = match a with [] => bool_decide (x = " "%char) | _ => ends_with_space a end.
Proof.
  unfold ends_with_space. destruct a as [|y a]; simpl; [|done].
  apply bool_decide_ext. naive_solver.
Qed.

Lemma has_double_space_app (a b : str) :
  has_double_space (a ++ b)
  = has_double_space a || has_double_space b
    || (ends_with_space a && starts_with_space b).
Proof.
  induction a as [|x a IH]; [by rewrite orb_false_r|].
  change ((x :: a) ++ b) with (x :: (a ++ b)).
  rewrite !has_double_space_cons, IH, starts_with_space_app, ends_with_space_cons.
  destruct a as [|y a]; simpl.
  - by destruct (bool_decide (x = " "%char)), (starts_with_space b),
         (has_double_space b).
  - by destruct (bool_decide (x = " "%char)), (starts_with_space (y :: a)),
         (has_double_space (y :: a)), (has_double_space b),
         (ends_with_space (y :: a)), (starts_with_space b).
Qed.

Lemma has_double_space_infix (l s r : str) :
  has_double_space (l ++ s ++ r) = false → has_double_space s = false.
Proof.
  rewrite !has_double_space_app.
  by destruct (has_double_space s), (has_double_space l).
Qed.

Section strip_lemmas.

Context (p : ascii → bool).

Lemma lstrip_by_suffix (s : str) :
  ∃ l, s = l ++ lstrip_by p s ∧ Forall (λ c, p c = true) l.
Proof.
  induction s as [|c s (l & Hl & Hp)]; simpl; [by exists []|].
  destruct (p c) eqn:Hc; [|by exists []].
  exists (c :: l). split; [by rewrite Hl at 1|by constructor].
Qed.

Lemma rstrip_by_prefix (s : str) :
  ∃ r, s = rstrip_by p s ++ r ∧ Forall (λ c, p c = true) r.
Proof.
  unfold rstrip_by. destruct (lstrip_by_suffix (reverse s)) as (l & Hl & Hp).
  exists (reverse l). split; [|by apply Forall_reverse].
  by rewrite <- reverse_app, <- Hl, reverse_involutive.
Qed.

Lemma strip_by_infix (s : str) :
  ∃ l r, s = l ++ strip_by p s ++ r
         ∧ Forall (λ c, p c = true) l ∧ Forall (λ c, p c = true) r.
Proof.
  unfold strip_by. destruct (lstrip_by_suffix s) as (l & Hl & Hpl).
  destruct (rstrip_by_prefix (lstrip_by p s)) as (r & Hr & Hpr).
  exists l, r. by rewrite <- Hr.
Qed.

Lemma lstrip_by_head (s : str) c :
  head (lstrip_by p s) = Some c → p c = false.
Proof.
  induction s as [|d s IH]; simpl; [done|].
  destruct (p d) eqn:Hd; [done|]. simpl. by intros [= <-].
Qed.

Lemma rstrip_by_last (s : str) c :
  last (rstrip_by p s) = Some c → p c = false.
Proof. unfold rstrip_by. rewrite last_reverse. apply lstrip_by_head. Qed.

Lemma strip_by_edges (s : str) c :
  head (strip_by p s) = Some c ∨ last (strip_by p s) = Some c → p c = false.
Proof.
  unfold strip_by. intros [Hh|Hl]; [|by eapply rstrip_by_last].
  destruct (rstrip_by_prefix (lstrip_by p s)) as (r & Hr & _).
  apply (lstrip_by_head s). rewrite Hr.
  by destruct (rstrip_by p (lstrip_by p s)).
Qed.

Lemma strip_by_Forall (P : ascii → Prop) (s : str) :
  Forall P s → Forall P (strip_by p s).
Proof.
  destruct (strip_by_infix s) as (l & r & Hs & _). rewrite Hs at 1.
  rewrite !Forall_app. naive_solver.
Qed.

Lemma strip_by_edges_id (s : str) :
  (∀ c, head s = Some c ∨ last s = Some c → p c = false) → strip_by p s = s.
Proof.
  intros H. unfold strip_by, rstrip_by.
  assert (∀ t : str, (∀ c, head t = Some c → p c = false) → lstrip_by p t = t)
    as Hl.
  { intros [|c t] Ht; simpl; [done|]. by rewrite (Ht c). }
  rewrite (Hl s) by (intros; apply H; by left).
  rewrite Hl, reverse_involutive; [done|].
  intros c. rewrite head_reverse. intros. apply H. by right.
Qed.

End strip_lemmas.

Lemma visible_app (a b : str) : visible (a ++ b) = visible a ++ visible b.
Proof. apply filter_app. Qed.

Lemma visible_spaces (l : str) : Forall (λ c, isspace c = true) l → visible l = [].
Proof.
  induction 1 as [|c l Hc _ IH]; [done|]. unfold visible in *.
  rewrite filter_cons_False by (rewrite Hc; discriminate). done.
Qed.

Lemma visible_strip (s : str) : visible (strip s) = visible s.
Proof.
  destruct (strip_by_infix isspace s) as (l & r & Hs & Hl & Hr).
  rewrite Hs at 2.
  rewrite !visible_app, (visible_spaces l), (visible_spaces r) by done.
  by rewrite app_nil_r.
Qed.

Lemma has_double_space_strip p (s : str) :
  has_double_space s = false → has_double_space (strip_by p s) = false.
Proof.
  destruct (strip_by_infix p s) as (l & r & Hs & _). rewrite Hs at 1.
  apply has_double_space_infix.
Qed.

Lemma islinebreak_isspace c : islinebreak c = true → isspace c = true.
Proof.
  unfold islinebreak, isspace. rewrite !bool_decide_eq_true, !elem_of_cons.
  naive_solver.
Qed.

Lemma visible_cons_space c (s : str) : isspace c = true → visible (c :: s) = visible s.
Proof.
  intros Hc. unfold visible. rewrite filter_cons_False; [done|].
  rewrite Hc. discriminate.
Qed.

Lemma has_double_space_snoc (s : str) c :
  has_double_space (s ++ [c])
  = has_double_space s || (ends_with_space s && bool_decide (c = " "%char)).
Proof.
  rewrite has_double_space_app. simpl. rewrite orb_false_r. do 2 f_equal.
  unfold starts_with_space. simpl. apply bool_decide_ext. naive_solver.
Qed.

Lemma ends_with_space_reverse (s : str) :
  ends_with_space (reverse s) = starts_with_space s.
Proof. unfold ends_with_space, starts_with_space. by rewrite last_reverse. Qed.

Lemma split_double_space_from_cons2 cur c d (s : str) :
  split_double_space_from cur (c :: d :: s) =
  if bool_decide (c = " "%char) && bool_decide (d = " "%char)
  then reverse cur :: split_double_space_from [] s
  else split_double_space_from (c :: cur) (d :: s).
Proof. reflexivity. Qed.

Lemma splitlines_from_cons cur c (s : str) :
  splitlines_from cur (c :: s) =
  if bool_decide (c = chr 13) then
    match s with
    | d :: s'' =>
        if bool_decide (d = chr 10) then reverse cur :: splitlines_from [] s''
        else reverse cur :: splitlines_from [] s
    | [] => [reverse cur]
    end
  else if islinebreak c then reverse cur :: splitlines_from [] s
  else splitlines_from (c :: cur) s.
Proof. reflexivity. Qed.

(** The pieces of [s.split("  ")]: none has two spaces in a row, each is
    made of characters of [s], and together they have the characters of
    [s] that are not white space. *)
Lemma split_double_space_from_spec n : ∀ (s cur : str),
  (length s ≤ n)%nat →
  has_double_space (reverse cur) = false →
  (starts_with_space cur = true → starts_with_space s = false) →
  Forall (λ piece, has_double_space piece = false) (split_double_space_from cur s)
  ∧ (∀ P : ascii → Prop, Forall P cur → Forall P s →
       Forall (Forall P) (split_double_space_from cur s))
  ∧ visible (mjoin (split_double_space_from cur s)) = visible (reverse cur ++ s).
Proof.
  induction n as [|n IH]; intros s cur Hlen Hcur Hedge.
  { destruct s; simpl in *; [|lia]. rewrite app_nil_r.
    split; [by constructor|]. split; [|done].
    intros P HP _. constructor; [by apply Forall_reverse|constructor]. }
  assert (∀ c, (starts_with_space cur = true → c ≠ " "%char) →
               has_double_space (reverse (c :: cur)) = false) as Hpush.
  { intros c Hc. rewrite reverse_cons, has_double_space_snoc, Hcur.
    rewrite ends_with_space_reverse. simpl.
    destruct (starts_with_space cur); [|done].
    by rewrite bool_decide_false by by apply Hc. }
  destruct s as [|c [|d s]]; simpl in Hlen.
  - simpl. rewrite app_nil_r.
    split; [by constructor|]. split; [|done].
    intros P HP _. constructor; [by apply Forall_reverse|constructor].
  - simpl. rewrite app_nil_r.
    assert (starts_with_space cur = true → c ≠ " "%char) as Hc.
    { intros H1 ->. by specialize (Hedge H1). }
    split; [|split].
    + constructor; [by apply Hpush|constructor].
    + intros P HP HPc. constructor; [|constructor].
      apply Forall_reverse. apply Forall_cons in HPc as [? _]. by constructor.
    + by rewrite reverse_cons.
  - rewrite split_double_space_from_cons2.
    destruct (bool_decide (c = " "%char) && bool_decide (d = " "%char)) eqn:Hcd.
    + apply andb_true_iff in Hcd as [Hc%bool_decide_eq_true Hd%bool_decide_eq_true].
      subst c d.
      destruct (IH s [] ltac:(lia) eq_refl ltac:(done)) as (H1 & H2 & H3).
      split; [|split].
      * by constructor.
      * intros P HP HPs. constructor; [by apply Forall_reverse|].
        apply H2; [constructor|]. by do 2 apply Forall_cons in HPs as [_ HPs].
      * simpl. rewrite !visible_app, H3. simpl.
        by rewrite !(visible_cons_space " "%char) by reflexivity.
    + assert (starts_with_space cur = true → c ≠ " "%char) as Hc.
      { intros H1 ->. by specialize (Hedge H1). }
      destruct (IH (d :: s) (c :: cur) ltac:(simpl; lia) (Hpush c Hc))
        as (H1 & H2 & H3).
      { unfold starts_with_space. simpl. rewrite !bool_decide_eq_true.
        intros [= ->]. rewrite bool_decide_eq_false. intros [= ->].
        by rewrite !bool_decide_true in Hcd. }
      split; [done|split].
      * intros P HP HPs. apply Forall_cons in HPs as [? ?].
        apply H2; [by constructor|done].
      * by rewrite H3, reverse_cons, <- app_assoc.
Qed.

Lemma split_double_space_spec (s : str) :
  Forall (λ piece, has_double_space piece = false) (split_double_space s)
  ∧ (∀ P : ascii → Prop, Forall P s → Forall (Forall P) (split_double_space s))
  ∧ visible (mjoin (split_double_space s)) = visible s.
Proof.
  destruct (split_double_space_from_spec (length s) s [] ltac:(done) eq_refl
              ltac:(done)) as (H1 & H2 & H3).
  split; [done|]. split; [|done]. intros P HP. by apply H2.
Qed.

(** The lines of [s.splitlines()]: none holds a line boundary, and
    together they have the characters of [s] that are not white space. *)
Lemma splitlines_from_spec n : ∀ (s cur : str),
  (length s ≤ n)%nat →
  Forall (λ c, islinebreak c = false) cur →
  Forall (Forall (λ c, islinebreak c = false)) (splitlines_from cur s)
  ∧ visible (mjoin (splitlines_from cur s)) = visible (reverse cur ++ s).
Proof.
  induction n as [|n IH]; intros s cur Hlen Hcur.
  { destruct s; simpl in *; [|lia].
    destruct cur; simpl; [done|]. rewrite !app_nil_r.
    split; [|done]. constructor; [|constructor].
    by apply Forall_reverse in Hcur. }
  destruct s as [|c s]; simpl in Hlen.
  { simpl. destruct cur; simpl; [done|]. rewrite !app_nil_r.
    split; [|done]. constructor; [|constructor].
    by apply Forall_reverse in Hcur. }
  assert (Forall (λ c, islinebreak c = false) (reverse cur)) as Hrev
    by (by apply Forall_reverse).
  rewrite splitlines_from_cons.
  case_bool_decide as Hcr.
  - subst c. destruct s as [|d s].
    + simpl. rewrite app_nil_r, visible_app.
      rewrite (visible_cons_space (chr 13)) by reflexivity.
      split; [by constructor|]. simpl. by rewrite !app_nil_r.
    + simpl in Hlen. case_bool_decide as Hlf.
      * subst d. destruct (IH s [] ltac:(lia) ltac:(constructor)) as [H1 H2].
        split; [by constructor|]. simpl in H2. simpl.
        rewrite !visible_app, H2.
        rewrite (visible_cons_space (chr 13)) by reflexivity.
        by rewrite (visible_cons_space (chr 10)) by reflexivity.
      * destruct (IH (d :: s) [] ltac:(simpl; lia) ltac:(constructor))
          as [H1 H2].
        split; [by constructor|]. simpl in H2. simpl mjoin.
        rewrite !visible_app, H2.
        by rewrite (visible_cons_space (chr 13)) by reflexivity.
  - destruct (islinebreak c) eqn:Hlb.
    + destruct (IH s [] ltac:(lia) ltac:(constructor)) as [H1 H2].
      split; [by constructor|]. simpl in H2. simpl.
      rewrite !visible_app, H2.
      by rewrite (visible_cons_space c) by by apply islinebreak_isspace.
    + destruct (IH s (c :: cur) ltac:(lia) ltac:(by constructor)) as [H1 H2].
      split; [done|]. by rewrite H2, reverse_cons, <- app_assoc.
Qed.

Lemma splitlines_spec (s : str) :
  Forall (Forall (λ c, islinebreak c = false)) (splitlines s)
  ∧ visible (mjoin (splitlines s)) = visible s.
Proof. by apply (splitlines_from_spec (length s) s []). Qed.

Lemma join_cons_cons sep (p q : str) (l : list str) :
  join sep (p :: q :: l) = p ++ sep ++ join sep (q :: l).
Proof. reflexivity. Qed.

Lemma visible_join sep (l : list str) :
  Forall (λ c, isspace c = true) sep → visible (join sep l) = visible (mjoin l).
Proof.
  intros Hsep. induction l as [|p [|q l] IH]; [done|simpl; by rewrite app_nil_r|].
  rewrite join_cons_cons, !visible_app, IH, (visible_spaces sep) by done.
  simpl. by rewrite !visible_app.
Qed.

Lemma not_starts_with_space (s : str) :
  (∀ c, head s = Some c → isspace c = false) → starts_with_space s = false.
Proof.
  intros H. unfold starts_with_space. apply bool_decide_eq_false.
  intros Hs. by specialize (H _ Hs).
Qed.

Lemma not_ends_with_space (s : str) :
  (∀ c, last s = Some c → isspace c = false) → ends_with_space s = false.
Proof.
  intros H. unfold ends_with_space. apply bool_decide_eq_false.
  intros Hs. by specialize (H _ Hs).
Qed.

Lemma join_chunks (chunks : list str) :
  Forall chunk_ok chunks →
  (chunks ≠ [] → join (py " ") chunks ≠ [])
  ∧ (∀ c, head (join (py " ") chunks) = Some c
          ∨ last (join (py " ") chunks) = Some c → isspace c = false)
  ∧ has_double_space (join (py " ") chunks) = false
  ∧ Forall (λ c, islinebreak c = false) (join (py " ") chunks).
Proof.
  induction chunks as [|p [|q l] IH]; intros Hok.
  { split; [done|]. split; [by intros c [?|?]|]. split; [done|constructor]. }
  { apply Forall_cons in Hok as [(? & ? & ? & ?) _]. by simpl. }
  apply Forall_cons in Hok as [(Hne & Hedge & Hdsp & Hlb) Hok].
  destruct (IH Hok) as (Hne' & Hedge' & Hdsp' & Hlb').
  specialize (Hne' ltac:(done)).
  rewrite join_cons_cons. set (J := join (py " ") (q :: l)) in *.
  split; [by destruct p|]. split; [|split].
  - intros c [Hh|Hl].
    + apply Hedge. left. by destruct p.
    + apply Hedge'. right. change (py " " ++ J) with (" "%char :: J) in Hl.
      rewrite last_app, last_cons in Hl.
      destruct (last J) eqn:HJ; [done|]. apply last_None in HJ. done.
  - change (py " " ++ J) with (" "%char :: J).
    rewrite has_double_space_app, has_double_space_cons, Hdsp, Hdsp'.
    rewrite (not_starts_with_space J) by (intros; apply Hedge'; by left).
    rewrite (not_ends_with_space p) by (intros; apply Hedge; by right).
    by rewrite andb_false_r.
  - rewrite !Forall_app. split; [done|]. split; [|done].
    by repeat constructor.
Qed.

Lemma mjoin_cons (p : str) (l : list str) : mjoin (p :: l) = p ++ mjoin l.
Proof. reflexivity. Qed.

Lemma mjoin_filter_nonempty (l : list str) :
  mjoin (filter (λ chunk, chunk ≠ []) l) = mjoin l.
Proof.
  induction l as [|p l IH]; [done|].
  destruct (decide (p = [])) as [->|Hp].
  - by rewrite filter_cons_False by naive_solver.
  - rewrite filter_cons_True by done. by rewrite !mjoin_cons, IH.
Qed.

Lemma visible_mjoin_strip (l : list str) :
  visible (mjoin (strip <$> l)) = visible (mjoin l).
Proof.
  induction l as [|p l IH]; [done|].
  by rewrite fmap_cons, !mjoin_cons, !visible_app, visible_strip, IH.
Qed.

Lemma visible_mjoin_split (l : list str) :
  visible (mjoin (l ≫= split_double_space)) = visible (mjoin l).
Proof.
  induction l as [|p l IH]; [done|].
  rewrite bind_cons, join_app, mjoin_cons, !visible_app, IH.
  by destruct (split_double_space_spec p) as (_ & _ & ->).
Qed.

(** The clean-up of [_extract_content]: what it gives has no line
    boundary, no two spaces in a row and no white space at its ends, and
    it has the characters of the text that are not white space, in their
    order. *)
Lemma clean_text_spec (text : str) :
  has_double_space (Extract.clean_text text) = false
  ∧ Forall (λ c, islinebreak c = false) (Extract.clean_text text)
  ∧ strip (Extract.clean_text text) = Extract.clean_text text
  ∧ visible (Extract.clean_text text) = visible text.
Proof.
  unfold Extract.clean_text.
  set (lines := strip <$> splitlines text).
  set (chunks := filter (λ chunk, chunk ≠ []) (strip <$> (lines ≫= split_double_space))).
  assert (Forall chunk_ok chunks) as Hok.
  { apply Forall_forall. intros chunk.
    unfold chunks. rewrite list_elem_of_filter, list_elem_of_fmap.
    intros [Hne (piece & -> & Hpiece)].
    apply list_elem_of_bind in Hpiece as (line & Hpiece & Hline).
    unfold lines in Hline. apply list_elem_of_fmap in Hline as (l0 & -> & Hl0).
    destruct (splitlines_spec text) as [Hlb _].
    rewrite Forall_forall in Hlb. specialize (Hlb _ Hl0).
    destruct (split_double_space_spec (strip l0)) as (Hd & HP & _).
    rewrite Forall_forall in Hd. specialize (Hd _ Hpiece).
    specialize (HP _ (strip_by_Forall isspace _ _ Hlb)).
    rewrite Forall_forall in HP. specialize (HP _ Hpiece).
    split; [done|]. split; [apply strip_by_edges|]. split.
    - by apply has_double_space_strip.
    - by apply strip_by_Forall. }
  destruct (join_chunks chunks Hok) as (_ & Hedge & Hdsp & Hlb).
  split; [done|]. split; [done|]. split; [by apply strip_by_edges_id|].
  rewrite visible_join by (by repeat constructor).
  unfold chunks. rewrite mjoin_filter_nonempty, visible_mjoin_strip.
  rewrite visible_mjoin_split. unfold lines. rewrite visible_mjoin_strip.
  by destruct (splitlines_spec text) as [_ ->].
Qed.

(** ** The crawl: unfolding, termination, invariants *)

Import WebScraper.

Section crawl_props.

Variables max_depth max_pages : Z.
Variable validators_url : str → bool.
Variable chk : str → bool.
Variable session_get : list str → str → response.

Local Abbreviation _crawl_recursive :=
  (WebScraper._crawl_recursive max_depth max_pages validators_url chk session_get).
Local Abbreviation crawl_links :=
  (WebScraper.crawl_links max_depth max_pages validators_url chk session_get).
Local Abbreviation _scrape_page :=
  (WebScraper._scrape_page validators_url chk session_get).
Local Abbreviation scrape_website :=
  (WebScraper.scrape_website max_depth max_pages validators_url chk session_get).
Local Abbreviation is_same_domain := (WebScraper.is_same_domain chk).
Local Abbreviation _extract_links := (WebScraper._extract_links validators_url chk).
Local Abbreviation enough_fuel := (WebScraper.enough_fuel max_depth).

Lemma crawl_recursive_unfold fuel u d r :
  _crawl_recursive (S fuel) u d r =
  if bool_decide (d > max_depth) then Some r
  else if bool_decide (len (now r) >= max_pages) then Some r
  else
    if bool_decide (clean_url u ∈ visited_urls (now r)) then Some r
    else
      match _scrape_page (clean_url u) d (update (add_visited (clean_url u)) r) with
      | (Some p, r1) =>
          crawl_links fuel (clean_url u) d (links p) (update (append_page p) r1)
      | (None, r1) => Some r1
      end.
Proof.
  simpl. repeat case_bool_decide; try done.
  destruct (_scrape_page _ _ _) as [[p|] r1]; [|done].
  generalize (update (append_page p) r1). generalize (links p).
  induction l as [|link l IH]; intros r2; simpl; [done|].
  case_bool_decide; [done|].
  destruct (is_same_domain _ link); [|apply IH].
  destruct (WebScraper._crawl_recursive _ _ _ _ _ fuel link (d + 1) r2); simpl;
    [apply IH|done].
Qed.

Lemma crawl_links_cons fuel parent d link rest r :
  crawl_links fuel parent d (link :: rest) r =
  if bool_decide (len (now r) >= max_pages) then Some r
  else if is_same_domain parent link then
    r ← _crawl_recursive fuel link (d + 1) r; crawl_links fuel parent d rest r
  else crawl_links fuel parent d rest r.
Proof. reflexivity. Qed.

(** What [_scrape_page] returns and the state it leaves. *)
Lemma scrape_page_spec u d r :
  ∃ res, _scrape_page u d r = (res, update (log_request u) r)
  ∧ ∀ p, res = Some p →
      WebScraper.url p = u ∧ depth p = d
      ∧ ∃ soup, session_get (requests (now r)) u = Document soup
                ∧ title p = Extract._extract_title soup
                ∧ content p = (Extract._extract_content soup).1
                ∧ links p = _extract_links (Extract._extract_content soup).2 u.
Proof.
  unfold WebScraper._scrape_page.
  destruct (session_get _ u) as [| |soup] eqn:Hg; [by eexists..|].
  destruct (Extract._extract_content soup) as [c soup'] eqn:Hc.
  eexists. split; [done|]. intros p [= <-].
  split; [done|]. split; [done|]. exists soup. by rewrite Hc.
Qed.

(** *** Termination: [enough_fuel] is enough *)

Lemma crawl_terminates fuel u d r :
  (enough_fuel d ≤ fuel)%nat → is_Some (_crawl_recursive fuel u d r).
Proof.
  revert u d r. induction fuel as [|fuel IH]; intros u d r Hfuel.
  { unfold WebScraper.enough_fuel in Hfuel. lia. }
  rewrite crawl_recursive_unfold.
  case_bool_decide as Hd; [done|]. case_bool_decide; [done|].
  case_bool_decide; [done|].
  destruct (_scrape_page _ _ _) as [[p|] r1]; [|done].
  assert (enough_fuel (d + 1) ≤ fuel)%nat as Hfuel'.
  { unfold WebScraper.enough_fuel in *. lia. }
  generalize (update (append_page p) r1).
  induction (links p) as [|link l IHl]; intros r2; simpl; [done|].
  case_bool_decide; [done|].
  destruct (is_same_domain _ link); [|apply IHl].
  destruct (IH link (d + 1) r2 Hfuel') as [r3 ->]. simpl. apply IHl.
Qed.

(** *** A rule for session invariants

    [I] holds of every state of a run when the three assignments of
    [_crawl_recursive] keep it; [Q] is what is known of the URLs that
    [_crawl_recursive] is called with. *)

Section invariant.

Variable I : Session → Prop.
Variable Q : str → Prop.

Hypothesis I_visit : ∀ s u d,
  I s → Q u → d ≤ max_depth → len s < max_pages →
  clean_url u ∉ visited_urls s →
  I (add_visited (clean_url u) s).

Hypothesis I_request : ∀ s u d,
  I s → Q u → d ≤ max_depth → len s < max_pages →
  clean_url u ∉ visited_urls s →
  I (log_request (clean_url u) (add_visited (clean_url u) s)).

Hypothesis I_append : ∀ s u d p soup,
  I s → Q u → d ≤ max_depth → len s < max_pages →
  clean_url u ∉ visited_urls s →
  WebScraper.url p = clean_url u → depth p = d →
  session_get (requests s) (clean_url u) = Document soup →
  links p = _extract_links (Extract._extract_content soup).2 (clean_url u) →
  I (append_page p (log_request (clean_url u) (add_visited (clean_url u) s))).

Hypothesis Q_link : ∀ u soup link,
  Q u → link ∈ _extract_links soup (clean_url u) →
  is_same_domain (clean_url u) link = true → Q link.

Lemma crawl_invariant fuel u d r r' :
  Q u → Forall I (states r) →
  _crawl_recursive fuel u d r = Some r' → Forall I (states r').
Proof.
  revert u d r r'. induction fuel as [|fuel IH]; intros u d r r' Hq Hr; [done|].
  rewrite crawl_recursive_unfold.
  case_bool_decide as Hd; [by intros [= <-]|].
  case_bool_decide as Hn; [by intros [= <-]|].
  case_bool_decide as Hv; [by intros [= <-]|].
  assert (I (now r)) as Hnow by (by apply Forall_cons in Hr as [? _]).
  destruct (scrape_page_spec (clean_url u) d (update (add_visited (clean_url u)) r))
    as (res & -> & Hres).
  set (r1 := update (log_request (clean_url u)) _).
  assert (Forall I (states r1)) as Hr1.
  { unfold r1, states, update. simpl. constructor; [|constructor; [|done]].
    - apply (I_request _ _ d); [done|done|lia|lia|done].
    - apply (I_visit _ _ d); [done|done|lia|lia|done]. }
  destruct res as [p|]; [|by intros [= <-]].
  destruct (Hres p eq_refl) as (Hu & Hdp & soup & Hget & _ & _ & Hl).
  assert (Forall I (states (update (append_page p) r1))) as Hr2.
  { unfold states, update. simpl. constructor; [|done].
    eapply (I_append _ _ d _ _ Hnow); [done|lia|lia|done|done|done|exact Hget|exact Hl]. }
  assert (∀ link, link ∈ links p → is_same_domain (clean_url u) link = true → Q link)
    as Hlinks.
  { intros link Hin. rewrite Hl in Hin. by eapply Q_link. }
  clear Hres Hl Hget. revert Hr2 Hlinks. generalize (update (append_page p) r1).
  generalize (links p) as l.
  induction l as [|link l IHl]; intros r2 Hr2 Hlinks; simpl.
  { by intros [= <-]. }
  case_bool_decide; [by intros [= <-]|].
  destruct (is_same_domain _ link) eqn:Hsame.
  - destruct (_crawl_recursive fuel link (d + 1) r2) as [r3|] eqn:Hrec; [|done].
    simpl. apply IHl; [|set_solver].
    apply (IH link (d + 1) r2 r3); [|done|done]. apply Hlinks; [set_solver|done].
  - apply IHl; [done|set_solver].
Qed.

End invariant.

End crawl_props.

(** ** Every state of a session *)

Section session_props.

Variables max_depth max_pages : Z.
Variable validators_url : str → bool.
Variable chk : str → bool.
Variable session_get : list str → str → response.

Local Abbreviation _crawl_recursive :=
  (WebScraper._crawl_recursive max_depth max_pages validators_url chk session_get).
Local Abbreviation crawl_links :=
  (WebScraper.crawl_links max_depth max_pages validators_url chk session_get).
Local Abbreviation scrape_website :=
  (WebScraper.scrape_website max_depth max_pages validators_url chk session_get).
Local Abbreviation normalize_url := (WebScraper.normalize_url validators_url chk).
Local Abbreviation inv := (session_inv max_depth max_pages session_get).

Lemma session_inv_fresh : inv (now fresh).
Proof.
  split; simpl; try set_solver. constructor.
Qed.

Lemma session_inv_visit s u : inv s → inv (add_visited u s).
Proof.
  intros [H1 H2 H3 H4 H5 H6]. split; simpl; try done; set_solver.
Qed.

Lemma session_inv_request s u :
  inv s → u ∉ visited_urls s → inv (log_request u (add_visited u s)).
Proof.
  intros [H1 H2 H3 H4 H5 H6] Hu. split; simpl; try done.
  - apply NoDup_app. split; [done|]. split; [|apply NoDup_singleton].
    intros v Hv ->%list_elem_of_singleton. by apply Hu, H2.
  - intros v. rewrite elem_of_app, list_elem_of_singleton. set_solver.
  - set_solver.
  - intros p Hp. destruct (H4 p Hp) as (b & a & soup & -> & Hs).
    exists b, (a ++ [u]), soup. by rewrite <- app_assoc.
Qed.

Lemma session_inv_append s u p soup :
  inv s → u ∉ visited_urls s → len s < max_pages →
  WebScraper.url p = u → depth p ≤ max_depth →
  session_get (requests s) u = Document soup →
  inv (append_page p (log_request u (add_visited u s))).
Proof.
  intros Hs Hu Hlen Hp Hd Hget.
  destruct (session_inv_request s u Hs Hu) as [H1 H2 H3 H4 H5 H6].
  simpl in *. split; simpl; try done.
  - intros q. rewrite elem_of_app, list_elem_of_singleton.
    intros [?| ->]; [by apply H3|]. rewrite Hp. set_solver.
  - intros q. rewrite elem_of_app, list_elem_of_singleton.
    intros [?| ->]; [by apply H4|]. rewrite Hp.
    exists (requests s), [], soup. done.
  - intros _. unfold len in *. simpl. rewrite length_app. simpl. lia.
  - intros q. rewrite elem_of_app, list_elem_of_singleton.
    intros [?| ->]; [by apply H6|done].
Qed.

Lemma crawl_session_inv fuel u d r r' :
  Forall inv (states r) →
  _crawl_recursive fuel u d r = Some r' → Forall inv (states r').
Proof.
  intros Hr. apply (crawl_invariant _ _ _ _ _ inv (λ _, True)); try done.
  - intros. by apply session_inv_visit.
  - intros. by apply session_inv_request.
  - intros s v d' p soup ? _ ? ? ? ? ? ? _.
    apply (session_inv_append _ _ _ soup); try done. lia.
Qed.

(** A valid seed makes [scrape_website] return its pages. *)
Lemma scrape_website_returns r seed u :
  normalize_url seed = Ok (Some u) →
  ∃ r', scrape_website r seed = Some (Ok (scraped_pages (now r')), r')
        ∧ _crawl_recursive (WebScraper.enough_fuel max_depth 0) u 0 fresh = Some r'.
Proof.
  intros Hn. unfold WebScraper.scrape_website. rewrite Hn.
  destruct (crawl_terminates max_depth max_pages validators_url chk session_get
              (WebScraper.enough_fuel max_depth 0) u 0 fresh) as [r' Hr']; [done|].
  exists r'. by rewrite Hr'.
Qed.

Lemma scrape_website_inv r seed res r' :
  scrape_website r seed = Some (res, r') →
  (∃ e, res = Raise e ∧ r' = r ∧ ∀ u, normalize_url seed ≠ Ok (Some u))
  ∨ (∃ u, normalize_url seed = Ok (Some u)
          ∧ res = Ok (scraped_pages (now r'))
          ∧ _crawl_recursive (WebScraper.enough_fuel max_depth 0) u 0 fresh = Some r').
Proof.
  unfold WebScraper.scrape_website.
  destruct (normalize_url seed) as [[u|]|e] eqn:Hn.
  - destruct (_crawl_recursive _ u 0 fresh) as [r1|] eqn:Hc; simpl; [|done].
    intros [= <- <-]. right. by exists u.
  - intros [= <- <-]. left. by eexists.
  - intros [= <- <-]. left. by eexists.
Qed.

Lemma scrape_website_total r seed : is_Some (scrape_website r seed).
Proof.
  destruct (normalize_url seed) as [[u|]|e] eqn:Hn.
  - destruct (scrape_website_returns r seed u Hn) as (r' & -> & _). done.
  - unfold WebScraper.scrape_website. by rewrite Hn.
  - unfold WebScraper.scrape_website. by rewrite Hn.
Qed.

Lemma session_states_inv r seed pages r' :
  scrape_website r seed = Some (Ok pages, r') → Forall inv (states r').
Proof.
  intros Hs. apply scrape_website_inv in Hs as [(e & [=] & _)|(u & _ & _ & Hc)].
  apply (crawl_session_inv _ _ _ _ _ ltac:(constructor; [by apply session_inv_fresh|constructor]) Hc).
Qed.

End session_props.

(** ** The crawl session: invariants and failures *)

Lemma strip_by_id p (s : str) : Forall (λ c, p c = false) s → strip_by p s = s.
Proof.
  intros Hs. unfold strip_by, rstrip_by.
  assert (∀ t : str, Forall (λ c, p c = false) t → lstrip_by p t = t) as Hl.
  { intros t [|c t' Hc _]; simpl; [done|by rewrite Hc]. }
  rewrite (Hl s Hs), Hl by (by apply Forall_reverse).
  apply reverse_involutive.
Qed.

Lemma sample_validator_stripped s : Sample.validator s = true → strip s = s.
Proof.
  unfold Sample.validator. rewrite forallb_forall. intros H.
  apply strip_by_id, Forall_forall. intros c Hc.
  apply list_elem_of_In, H in Hc. by apply negb_true_iff.
Qed.

Lemma sample_session :
  WebScraper.scrape_website 3 50 Sample.validator Sample.no_check Sample.web
    fresh (py "a.com")
  = Some (Ok (scraped_pages (now Sample.run)), Sample.run).
Proof. vm_compute. reflexivity. Qed.

Lemma sample_seed :
  WebScraper.normalize_url Sample.validator Sample.no_check (py "a.com")
  = Ok (Some (py "https://a.com")).
Proof. vm_compute. reflexivity. Qed.

Section session_claims.

Variables max_depth max_pages : Z.
Variable validators_url : str → bool.
Variable chk : str → bool.
Variable session_get : list str → str → response.

Local Abbreviation crawl_links :=
  (WebScraper.crawl_links max_depth max_pages validators_url chk session_get).
Local Abbreviation scrape_website :=
  (WebScraper.scrape_website max_depth max_pages validators_url chk session_get).
Local Abbreviation normalize_url := (WebScraper.normalize_url validators_url chk).
Local Abbreviation is_same_domain := (WebScraper.is_same_domain chk).

(** C1. Every call of [scrape_website] returns, and when it returns pages
    (a crawl session), every state the session went through satisfies:
    the visited set holds no URL twice, the URL of every page in the
    results is in the visited set, the results are at most [max_pages]
    long, and every page's depth is at most [max_depth].  [max_pages] is
    not negative (the configuration has [max_pages >= 1]). *)
Theorem session_invariants r seed :
  0 ≤ max_pages →
  ∃ res r', scrape_website r seed = Some (res, r')
    ∧ ∀ pages s, res = Ok pages → s ∈ states r' →
        NoDup (elements (visited_urls s))
        ∧ (∀ p, p ∈ scraped_pages s → WebScraper.url p ∈ visited_urls s)
        ∧ Z.of_nat (length (scraped_pages s)) ≤ max_pages
        ∧ (∀ p, p ∈ scraped_pages s → depth p ≤ max_depth).
Proof.
  intros Hmax.
  destruct (scrape_website_total max_depth max_pages validators_url chk
              session_get r seed) as [[res r'] Hs].
  exists res, r'. split; [done|]. intros pages s -> Hin.
  apply session_states_inv in Hs. rewrite Forall_forall in Hs.
  destruct (Hs s Hin) as [_ _ H3 _ H5 H6].
  split; [apply NoDup_elements|]. split; [done|]. split; [by apply H5|done].
Qed.

(** C2. When the normalization of the seed fails, [scrape_website] raises
    a [ValueError] (with the message [Invalid URL: seed] when
    [normalize_url] returned [None]) and leaves the whole state as it
    was: nothing is cleared and no request is made.  This is never the
    outcome [Ok pages] of a crawl, whatever the number of pages. *)
Theorem invalid_seed_raises r seed :
  (∀ u, normalize_url seed ≠ Ok (Some u)) →
  ∃ msg, scrape_website r seed = Some (Raise (ValueError msg), r)
    ∧ (normalize_url seed = Ok None → msg = py "Invalid URL: " ++ seed)
    ∧ ∀ pages r', scrape_website r seed ≠ Some (Ok pages, r').
Proof.
  intros Hn. unfold WebScraper.scrape_website.
  destruct (normalize_url seed) as [[u|]|[msg]] eqn:Hnorm.
  - by destruct (Hn u).
  - eexists. by repeat split.
  - exists msg. by repeat split.
Qed.

(** A crawl that scrapes no page is a normal return: the seed is valid
    and its fetch fails. *)
Lemma zero_pages_is_success r seed u :
  normalize_url seed = Ok (Some u) → 0 ≤ max_depth → 0 < max_pages →
  failed session_get [] (clean_url u) →
  ∃ r', scrape_website r seed = Some (Ok [], r')
        ∧ visited_urls (now r') = {[clean_url u]}.
Proof.
  intros Hn Hd Hp Hfail. unfold WebScraper.scrape_website. rewrite Hn.
  unfold WebScraper.enough_fuel.
  rewrite crawl_recursive_unfold.
  rewrite bool_decide_false by lia.
  rewrite bool_decide_false by (unfold len; simpl; lia).
  rewrite bool_decide_false by set_solver.
  unfold WebScraper._scrape_page. simpl.
  specialize (Hfail). unfold failed in Hfail.
  destruct (session_get [] (clean_url u)) as [| |soup] eqn:Hg; simpl.
  - eexists. split; [done|]. simpl. set_solver.
  - eexists. split; [done|]. simpl. set_solver.
  - by destruct (Hfail soup).
Qed.



End session_claims.

Lemma session_invariants_witness :
  0 ≤ 50 ∧
  ∃ res r', WebScraper.scrape_website 3 50 Sample.validator Sample.no_check
              Sample.web fresh (py "a.com") = Some (res, r')
    ∧ ∀ pages s, res = Ok pages → s ∈ states r' →
        NoDup (elements (visited_urls s))
        ∧ (∀ p, p ∈ scraped_pages s → WebScraper.url p ∈ visited_urls s)
        ∧ Z.of_nat (length (scraped_pages s)) ≤ 50
        ∧ (∀ p, p ∈ scraped_pages s → depth p ≤ 3).
Proof.
  split; [lia|].
  apply (session_invariants 3 50 Sample.validator Sample.no_check Sample.web
           fresh (py "a.com")). lia.
Defined.

Lemma invalid_seed_raises_witness :
  (∀ u, WebScraper.normalize_url Sample.validator Sample.no_check (py "not a url")
        ≠ Ok (Some u)) ∧
  ∃ msg, WebScraper.scrape_website 3 50 Sample.validator Sample.no_check
           Sample.web fresh (py "not a url")
         = Some (Raise (ValueError msg), fresh)
    ∧ (WebScraper.normalize_url Sample.validator Sample.no_check (py "not a url")
       = Ok None → msg = py "Invalid URL: " ++ py "not a url")
    ∧ ∀ pages r', WebScraper.scrape_website 3 50 Sample.validator Sample.no_check
                    Sample.web fresh (py "not a url") ≠ Some (Ok pages, r').
Proof.
  assert (∀ u, WebScraper.normalize_url Sample.validator Sample.no_check
                 (py "not a url") ≠ Ok (Some u)) as H.
  { intros u. vm_compute. discriminate. }
  split; [exact H|].
  exact (invalid_seed_raises 3 50 Sample.validator Sample.no_check Sample.web
           fresh (py "not a url") H).
Defined.


(** ** The recursion is the stack traversal *)

Section dfs_props.

Variables max_depth max_pages : Z.
Variable validators_url : str → bool.
Variable chk : str → bool.
Variable session_get : list str → str → response.

Local Abbreviation _crawl_recursive :=
  (WebScraper._crawl_recursive max_depth max_pages validators_url chk session_get).
Local Abbreviation crawl_links :=
  (WebScraper.crawl_links max_depth max_pages validators_url chk session_get).
Local Abbreviation _scrape_page :=
  (WebScraper._scrape_page validators_url chk session_get).
Local Abbreviation scrape_website :=
  (WebScraper.scrape_website max_depth max_pages validators_url chk session_get).
Local Abbreviation normalize_url := (WebScraper.normalize_url validators_url chk).
Local Abbreviation is_same_domain := (WebScraper.is_same_domain chk).
Local Abbreviation dfs_step :=
  (WebScraper.dfs_step max_depth max_pages validators_url chk session_get).
Local Abbreviation dfs_run :=
  (WebScraper.dfs_run max_depth max_pages validators_url chk session_get).

(** The frames that a page's links push. *)
Local Abbreviation frames parent d links :=
  ((λ link : str, (link, d + 1)) <$>
     filter (λ link, is_same_domain parent link = true) links).

Lemma dfs_run_nil n r : dfs_run n [] r = Some r.
Proof. by destruct n. Qed.

Lemma dfs_run_cons n f stack r :
  dfs_run (S n) (f :: stack) r =
  dfs_run n (dfs_step (f :: stack) r).1 (dfs_step (f :: stack) r).2.
Proof.
  change (dfs_run (S n) (f :: stack) r)
    with (let '(s, r') := dfs_step (f :: stack) r in dfs_run n s r').
  by destruct (dfs_step (f :: stack) r).
Qed.

(** More steps do not change where the traversal ends. *)
Lemma dfs_run_mono n m stack r res :
  dfs_run n stack r = Some res → (n ≤ m)%nat → dfs_run m stack r = Some res.
Proof.
  revert m stack r. induction n as [|n IH]; intros m stack r Hn Hm.
  { destruct stack; [|done]. by rewrite dfs_run_nil in *. }
  destruct stack as [|f stack]; [by rewrite dfs_run_nil in *|].
  destruct m as [|m]; [lia|]. rewrite dfs_run_cons in *.
  apply IH; [done|lia].
Qed.

Lemma dfs_run_det n m stack r a b :
  dfs_run n stack r = Some a → dfs_run m stack r = Some b → a = b.
Proof.
  intros Ha Hb.
  apply (dfs_run_mono _ (n `max` m)) in Ha; [|lia].
  apply (dfs_run_mono _ (n `max` m)) in Hb; [|lia]. congruence.
Qed.

(** Once the page budget is used up, the traversal ends in the state it
    is in, whatever is left on the stack. *)
Lemma dfs_run_exhausted stack r :
  len (now r) >= max_pages →
  dfs_run (length stack) stack r = Some r
  ∧ ∀ n res, dfs_run n stack r = Some res → res = r.
Proof.
  intros Hlen. induction stack as [|[u d] stack [IH1 IH2]].
  { split; [done|]. intros n res. rewrite dfs_run_nil. congruence. }
  assert (dfs_step ((u, d) :: stack) r = (stack, r)
          ∨ dfs_step ((u, d) :: stack) r = ([], r)) as Hstep.
  { simpl. case_bool_decide; [by left|]. rewrite bool_decide_true by done.
    by right. }
  split.
  - simpl length. rewrite dfs_run_cons.
    destruct Hstep as [-> | ->]; simpl; [done|apply dfs_run_nil].
  - intros [|n] res; [done|]. rewrite dfs_run_cons.
    destruct Hstep as [-> | ->]; simpl; [apply IH2|].
    rewrite dfs_run_nil. congruence.
Qed.

Lemma links_dfs fuel parent d :
  (∀ u r r', _crawl_recursive fuel u (d + 1) r = Some r' →
     ∀ stack n res, dfs_run n stack r' = Some res →
     ∃ m, dfs_run m ((u, d + 1) :: stack) r = Some res) →
  ∀ ls r r', crawl_links fuel parent d ls r = Some r' →
  ∀ stack n res, dfs_run n stack r' = Some res →
  ∃ m, dfs_run m (frames parent d ls ++ stack) r = Some res.
Proof.
  intros Hrec ls. induction ls as [|link ls IH]; intros r r' Hc stack n res Hres.
  { injection Hc as <-. by exists n. }
  rewrite crawl_links_cons in Hc. case_bool_decide as Hlen.
  { injection Hc as <-.
    destruct (dfs_run_exhausted stack r Hlen) as [_ Hst].
    rewrite (Hst _ _ Hres).
    destruct (dfs_run_exhausted (frames parent d (link :: ls) ++ stack) r Hlen)
      as [Hex _].
    by eexists. }
  destruct (is_same_domain parent link) eqn:Hsame.
  - destruct (_crawl_recursive fuel link (d + 1) r) as [r1|] eqn:Hr1; [|done].
    simpl in Hc. destruct (IH _ _ Hc stack n res Hres) as [m1 Hm1].
    destruct (Hrec _ _ _ Hr1 _ _ _ Hm1) as [m Hm]. exists m.
    by rewrite filter_cons_True.
  - rewrite filter_cons_False by congruence. by apply (IH _ _ Hc stack n).
Qed.

Lemma crawl_dfs fuel u d r r' :
  _crawl_recursive fuel u d r = Some r' →
  ∀ stack n res, dfs_run n stack r' = Some res →
  ∃ m, dfs_run m ((u, d) :: stack) r = Some res.
Proof.
  revert u d r r'. induction fuel as [|fuel IH]; intros u d r r'; [done|].
  rewrite crawl_recursive_unfold. intros Hc stack n res Hres.
  assert (∀ stack' r1,
    dfs_step ((u, d) :: stack) r = (stack', r1) →
    (∃ m, dfs_run m stack' r1 = Some res) →
    ∃ m, dfs_run m ((u, d) :: stack) r = Some res) as Hstep.
  { intros stack' r1 Hs [m Hm]. exists (S m). by rewrite dfs_run_cons, Hs. }
  case_bool_decide as Hd.
  { injection Hc as <-. eapply Hstep; [|by exists n].
    simpl. by rewrite bool_decide_true. }
  case_bool_decide as Hlen.
  { injection Hc as <-. eapply Hstep; [|exists O; apply dfs_run_nil].
    destruct (dfs_run_exhausted stack r Hlen) as [_ Hst].
    rewrite (Hst _ _ Hres). simpl.
    rewrite bool_decide_false by done. by rewrite bool_decide_true. }
  case_bool_decide as Hv.
  { injection Hc as <-. eapply Hstep; [|by exists n].
    simpl. rewrite !bool_decide_false by done. by rewrite bool_decide_true. }
  destruct (_scrape_page _ _ _) as [[p|] r1] eqn:Hp.
  - eapply Hstep.
    { simpl. rewrite !bool_decide_false by done.
      fold (clean_url u). rewrite Hp. reflexivity. }
    eapply links_dfs; [|exact Hc|exact Hres]. intros. by eapply IH.
  - injection Hc as <-. eapply Hstep; [|by exists n].
    simpl. rewrite !bool_decide_false by done.
    fold (clean_url u). by rewrite Hp.
Qed.

(** The result of [_crawl_recursive] does not depend on the fuel. *)
Lemma crawl_fuel_irrelevant fuel fuel' u d r a b :
  _crawl_recursive fuel u d r = Some a →
  _crawl_recursive fuel' u d r = Some b → a = b.
Proof.
  intros Ha Hb.
  destruct (crawl_dfs _ _ _ _ _ Ha [] O a eq_refl) as [n Hn].
  destruct (crawl_dfs _ _ _ _ _ Hb [] O b eq_refl) as [m Hm].
  by eapply dfs_run_det.
Qed.

(** C4. The traversal is depth first, in link order.  The loop over a
    page's links crawls a same-domain link to the end, at [depth + 1],
    before it turns to the next link; and the state in which a session
    ends (its results, in order) is the one in which the stack traversal
    ends that starts from the normalized seed at depth 0, in however
    many steps: that traversal takes the top of the stack, checks depth, budget and the visited set
    in this order, and pushes the same-domain links of a fetched page
    in document order. *)
Theorem traversal_is_depth_first r seed pages r' :
  scrape_website r seed = Some (Ok pages, r') →
  (∃ u steps, normalize_url seed = Ok (Some u)
     ∧ dfs_run steps [(u, 0)] fresh = Some r'
     ∧ (∀ n res, dfs_run n [(u, 0)] fresh = Some res → res = r')
     ∧ pages = scraped_pages (now r'))
  ∧ ∀ fuel parent d link rest r0,
      ¬ len (now r0) >= max_pages →
      is_same_domain parent link = true →
      crawl_links fuel parent d (link :: rest) r0 =
      r1 ← _crawl_recursive fuel link (d + 1) r0;
      crawl_links fuel parent d rest r1.
Proof.
  intros Hs. split.
  - apply scrape_website_inv in Hs as [(e & [=] & _)|(u & Hn & [= ->] & Hc)].
    destruct (crawl_dfs _ _ _ _ _ Hc [] O r' eq_refl) as [m Hm].
    exists u, m. split; [done|]. split; [done|]. split; [|done].
    intros n res Hres. by eapply dfs_run_det.
  - intros fuel parent d link rest r0 Hlen Hsame.
    by rewrite crawl_links_cons, bool_decide_false, Hsame.
Qed.

End dfs_props.

Lemma traversal_is_depth_first_witness :
  WebScraper.scrape_website 3 50 Sample.validator Sample.no_check Sample.web
    fresh (py "a.com") = Some (Ok (scraped_pages (now Sample.run)), Sample.run) ∧
  ((∃ u steps,
      WebScraper.normalize_url Sample.validator Sample.no_check (py "a.com")
      = Ok (Some u)
      ∧ WebScraper.dfs_run 3 50 Sample.validator Sample.no_check Sample.web
          steps [(u, 0)] fresh = Some Sample.run
      ∧ (∀ n res,
           WebScraper.dfs_run 3 50 Sample.validator Sample.no_check Sample.web
             n [(u, 0)] fresh = Some res → res = Sample.run)
      ∧ scraped_pages (now Sample.run) = scraped_pages (now Sample.run))
   ∧ ∀ fuel parent d link rest r0,
       ¬ len (now r0) >= 50 →
       WebScraper.is_same_domain Sample.no_check parent link = true →
       WebScraper.crawl_links 3 50 Sample.validator Sample.no_check Sample.web
         fuel parent d (link :: rest) r0 =
       r1 ← WebScraper._crawl_recursive 3 50 Sample.validator Sample.no_check
              Sample.web fuel link (d + 1) r0;
       WebScraper.crawl_links 3 50 Sample.validator Sample.no_check Sample.web
         fuel parent d rest r1).
Proof.
  split; [exact sample_session|].
  exact (traversal_is_depth_first 3 50 Sample.validator Sample.no_check
           Sample.web fresh (py "a.com") _ Sample.run sample_session).
Defined.

(** ** The URLs of a session *)

Section url_claims.

Variables max_depth max_pages : Z.
Variable validators_url : str → bool.
Variable chk : str → bool.
Variable session_get : list str → str → response.

(** [validators.url] rejects a string with leading or trailing white space. *)
Hypothesis validators_url_stripped :
  ∀ s, validators_url s = true → strip s = s.

Local Abbreviation _crawl_recursive :=
  (WebScraper._crawl_recursive max_depth max_pages validators_url chk session_get).
Local Abbreviation crawl_links :=
  (WebScraper.crawl_links max_depth max_pages validators_url chk session_get).
Local Abbreviation scrape_website :=
  (WebScraper.scrape_website max_depth max_pages validators_url chk session_get).
Local Abbreviation normalize_url := (WebScraper.normalize_url validators_url chk).
Local Abbreviation is_same_domain := (WebScraper.is_same_domain chk).
Local Abbreviation is_valid_url := (URLValidator.is_valid_url validators_url chk).
Local Abbreviation get_domain := (URLValidator.get_domain chk).

Lemma is_same_domain_true a b :
  is_same_domain a b = true →
  ∃ host, get_domain a = Some host ∧ get_domain b = Some host.
Proof.
  unfold WebScraper.is_same_domain, URLValidator.is_same_domain.
  destruct (get_domain a) as [da|]; [|done].
  destruct (get_domain b) as [db|]; [|done].
  rewrite bool_decide_eq_true. intros ->. by exists db.
Qed.

Lemma absolute_http_domain u :
  absolute_http chk u → is_Some (get_domain u).
Proof.
  intros (pr & Hpr & _ & Hn).
  unfold URLValidator.get_domain, URLValidator.urlparse.
  by rewrite Hpr, bool_decide_false.
Qed.

Lemma crawl_url_invariant host fuel u d r r' :
  is_valid_url u = Ok true → get_domain u = Some host →
  Forall (λ s, ∀ v, v ∈ visited_urls s →
                    absolute_http chk v ∧ get_domain v = Some host) (states r) →
  _crawl_recursive fuel u d r = Some r' →
  Forall (λ s, ∀ v, v ∈ visited_urls s →
                    absolute_http chk v ∧ get_domain v = Some host) (states r').
Proof.
  intros Hv Hd Hr.
  apply (crawl_invariant _ _ _ _ _ _
           (λ w, is_valid_url w = Ok true ∧ get_domain w = Some host));
    [| | | |done|done].
  - intros s w _ Hs [Hw1 Hw2] _ _ _ v. simpl.
    rewrite elem_of_union, elem_of_singleton. intros [->|?]; [|by apply Hs].
    split; [by eapply clean_url_absolute|].
    by erewrite clean_url_domain.
  - intros s w _ Hs [Hw1 Hw2] _ _ _ v. simpl.
    rewrite elem_of_union, elem_of_singleton. intros [->|?]; [|by apply Hs].
    split; [by eapply clean_url_absolute|].
    by erewrite clean_url_domain.
  - intros s w _ p soup Hs [Hw1 Hw2] _ _ _ _ _ _ _ v. simpl.
    rewrite elem_of_union, elem_of_singleton. intros [->|?]; [|by apply Hs].
    split; [by eapply clean_url_absolute|].
    by erewrite clean_url_domain.
  - intros w soup link [Hw1 Hw2] Hin Hsame. split.
    + by eapply extract_links_valid.
    + apply is_same_domain_true in Hsame as (h & Ha & Hb).
      unfold clean_url in Ha.
      erewrite clean_url_domain in Ha by done. congruence.
Qed.

Lemma session_url_invariant r seed pages r' :
  scrape_website r seed = Some (Ok pages, r') →
  ∃ u host, normalize_url seed = Ok (Some u) ∧ get_domain u = Some host
    ∧ ∀ s v, s ∈ states r' →
        v ∈ visited_urls s ∨ (∃ p, p ∈ scraped_pages s ∧ v = WebScraper.url p) →
        absolute_http chk v ∧ get_domain v = Some host.
Proof.
  intros Hs.
  pose proof (session_states_inv _ _ _ _ _ _ _ _ _ Hs) as Hinv.
  apply scrape_website_inv in Hs as [(e & [=] & _)|(u & Hn & _ & Hc)].
  pose proof (normalize_url_valid _ _ _ _ Hn) as Hv.
  destruct (absolute_http_domain u) as [host Hh];
    [by eapply is_valid_url_absolute|].
  exists u, host. split; [done|]. split; [done|].
  intros s v Hin Hv'.
  eapply crawl_url_invariant in Hc; [|done|done|].
  2:{ constructor; [|constructor]. intros w. simpl. set_solver. }
  rewrite Forall_forall in Hc, Hinv. apply (Hc s Hin).
  destruct Hv' as [?|(p & Hp & ->)]; [done|].
  by apply (inv_pages_visited _ _ _ _ (Hinv s Hin)).
Qed.

(** C5. In every state of a session with a valid seed, every URL in the
    visited set and every URL of a page in the results has the host of
    the normalized seed, compared as [is_same_domain] compares hosts; and
    the loop over a page's links passes over a link that is not on the
    page's host.  [validators.url] is taken to reject strings with
    leading or trailing white space. *)
Theorem crawl_stays_on_seed_host r seed pages r' :
  scrape_website r seed = Some (Ok pages, r') →
  (∃ u host, normalize_url seed = Ok (Some u) ∧ get_domain u = Some host
     ∧ ∀ s, s ∈ states r' →
         (∀ v, v ∈ visited_urls s → get_domain v = Some host)
         ∧ (∀ p, p ∈ scraped_pages s → get_domain (WebScraper.url p) = Some host))
  ∧ ∀ fuel parent d link rest r0,
      is_same_domain parent link = false →
      crawl_links fuel parent d (link :: rest) r0
      = crawl_links fuel parent d rest r0.
Proof.
  intros Hs. split.
  - destruct (session_url_invariant _ _ _ _ Hs) as (u & host & Hn & Hh & H).
    exists u, host. split; [done|]. split; [done|]. intros s Hin. split.
    + intros v Hv. by apply (H s v Hin); left.
    + intros p Hp. apply (H s _ Hin). right. by exists p.
  - intros fuel parent d link rest r0 Hsame.
    rewrite crawl_links_cons, Hsame. case_bool_decide as Hlen; [|done].
    destruct rest; simpl; [done|]. by rewrite bool_decide_true.
Qed.

(** C10. In every state of a session, every URL in the visited set, and so
    every URL of a page in the results, is an absolute HTTP(S) URL: it
    parses with scheme [http] or [https] and a non-empty host.
    [validators.url] is taken to reject strings with leading or trailing
    white space. *)
Theorem visited_urls_are_absolute r seed pages r' s :
  scrape_website r seed = Some (Ok pages, r') →
  s ∈ states r' →
  (∀ v, v ∈ visited_urls s → absolute_http chk v)
  ∧ (∀ p, p ∈ scraped_pages s → absolute_http chk (WebScraper.url p)).
Proof.
  intros Hs Hin.
  destruct (session_url_invariant _ _ _ _ Hs) as (u & host & _ & _ & H).
  split.
  - intros v Hv. by apply (H s v Hin); left.
  - intros p Hp. apply (H s _ Hin). right. by exists p.
Qed.

End url_claims.

Lemma crawl_stays_on_seed_host_witness :
  (∀ s, Sample.validator s = true → strip s = s) ∧
  WebScraper.scrape_website 3 50 Sample.validator Sample.no_check Sample.web
    fresh (py "a.com") = Some (Ok (scraped_pages (now Sample.run)), Sample.run) ∧
  ((∃ u host,
      WebScraper.normalize_url Sample.validator Sample.no_check (py "a.com")
      = Ok (Some u)
      ∧ URLValidator.get_domain Sample.no_check u = Some host
      ∧ ∀ s, s ∈ states Sample.run →
          (∀ v, v ∈ visited_urls s →
                URLValidator.get_domain Sample.no_check v = Some host)
          ∧ (∀ p, p ∈ scraped_pages s →
                  URLValidator.get_domain Sample.no_check (WebScraper.url p)
                  = Some host))
   ∧ ∀ fuel parent d link rest r0,
       WebScraper.is_same_domain Sample.no_check parent link = false →
       WebScraper.crawl_links 3 50 Sample.validator Sample.no_check Sample.web
         fuel parent d (link :: rest) r0
       = WebScraper.crawl_links 3 50 Sample.validator Sample.no_check Sample.web
           fuel parent d rest r0).
Proof.
  split; [exact sample_validator_stripped|]. split; [exact sample_session|].
  exact (crawl_stays_on_seed_host 3 50 Sample.validator Sample.no_check
           Sample.web sample_validator_stripped fresh (py "a.com") _ Sample.run
           sample_session).
Defined.

Lemma visited_urls_are_absolute_witness :
  (∀ s, Sample.validator s = true → strip s = s) ∧
  WebScraper.scrape_website 3 50 Sample.validator Sample.no_check Sample.web
    fresh (py "a.com") = Some (Ok (scraped_pages (now Sample.run)), Sample.run) ∧
  now Sample.run ∈ states Sample.run ∧
  (∀ v, v ∈ visited_urls (now Sample.run) → absolute_http Sample.no_check v)
  ∧ (∀ p, p ∈ scraped_pages (now Sample.run) →
          absolute_http Sample.no_check (WebScraper.url p)).
Proof.
  split; [exact sample_validator_stripped|]. split; [exact sample_session|].
  split; [apply list_elem_of_here|].
  exact (visited_urls_are_absolute 3 50 Sample.validator Sample.no_check
           Sample.web sample_validator_stripped fresh (py "a.com") _ Sample.run
           (now Sample.run) sample_session (list_elem_of_here _ _)).
Defined.

(** ** Extraction: title and links *)

Import Bs4 Extract.

(** C6, as stated, fails: a page whose title element is empty and that
    has an [h1] gets the empty title, not the text of the [h1]. *)
Lemma title_claim_counterexample :
  _extract_title Sample.empty_title_page = py ""
  ∧ title_as_claimed Sample.empty_title_page = py "Hello"
  ∧ _extract_title Sample.empty_title_page
    ≠ title_as_claimed Sample.empty_title_page.
Proof. by vm_compute. Qed.

(** C6, amended. When the document has a title element, the title is the
    stripped string of that element, and the empty string when the
    element has no string; the [h1] is not looked at.  When it has no
    title element, the title is the stripped text of the first [h1], and
    [Untitled] when there is no [h1] either.  So the title is as the
    claim has it whenever the title element is absent or its text is not
    empty. *)
Theorem extract_title_cases soup :
  match find (py "title") soup with
  | Some title => _extract_title soup = title_text title
  | None =>
      match find (py "h1") soup with
      | Some h1 => _extract_title soup = strip (get_text h1)
      | None => _extract_title soup = py "Untitled"
      end
  end
  ∧ ((∀ title, find (py "title") soup = Some title → title_text title ≠ []) →
     _extract_title soup = title_as_claimed soup).
Proof.
  unfold _extract_title, title_as_claimed, title_text.
  destruct (find (py "title") soup) as [title|]; simpl.
  - assert (match string_of title with
            | Some s => if bool_decide (s = []) then [] else strip s
            | None => []
            end = strip (default [] (string_of title))) as ->.
    { destruct (string_of title) as [s|]; simpl; [|done].
      by case_bool_decide; subst. }
    split; [done|]. intros H. by rewrite (bool_decide_true _ (H title eq_refl)).
  - split; [by destruct (find _ soup)|done].
Qed.

Section link_claims.

Variable validators_url : str → bool.
Variable chk : str → bool.

Local Abbreviation make_absolute_url :=
  (URLValidator.make_absolute_url validators_url chk).
Local Abbreviation is_valid_url := (URLValidator.is_valid_url validators_url chk).
Local Abbreviation _extract_links := (Extract._extract_links validators_url chk).
Local Abbreviation resolve := (Spec.resolve validators_url chk).


End link_claims.


(** ** Extraction: content *)

Lemma node_rect_nested (P : node → Prop) :
  (∀ s, P (NavigableString s)) → (∀ s, P (Comment s)) →
  (∀ name attrs cs, Forall P cs → P (Tag name attrs cs)) →
  ∀ n, P n.
Proof.
  intros Hs Hc Ht. fix IH 1. intros [s|s|name attrs cs]; [apply Hs|apply Hc|].
  apply Ht. induction cs as [|c cs IHcs]; constructor; [apply IH|apply IHcs].
Qed.

Lemma descendants_Tag name attrs cs :
  descendants (Tag name attrs cs) = cs ≫= λ c, c :: descendants c.
Proof.
  simpl. induction cs as [|c cs IH]; [done|].
  rewrite bind_cons, <- IH. done.
Qed.

Lemma decompose_all_Tag names name attrs cs :
  decompose_all names (Tag name attrs cs)
  = Tag name attrs
      (decompose_all names <$> filter (λ c, is_tag_named names c = false) cs).
Proof.
  simpl. f_equal. induction cs as [|c cs IH]; [done|].
  destruct (is_tag_named names c) eqn:Hc.
  - by rewrite filter_cons_False by (rewrite Hc; discriminate).
  - by rewrite filter_cons_True, fmap_cons, IH.
Qed.

Lemma is_tag_named_decompose_all names n :
  is_tag_named names (decompose_all names n) = is_tag_named names n.
Proof. by destruct n. Qed.

(** After the removal no tag with one of the names is left. *)
Lemma decompose_all_descendants names n d :
  d ∈ descendants (decompose_all names n) → is_tag_named names d = false.
Proof.
  revert d. induction n as [s|s|name attrs cs IH] using node_rect_nested;
    intros d; [by intros ?%elem_of_nil..|].
  rewrite decompose_all_Tag, descendants_Tag, list_elem_of_bind.
  intros (c' & Hd & Hc'). apply list_elem_of_fmap in Hc' as (c & -> & Hc).
  apply list_elem_of_filter in Hc as [Hname Hc].
  rewrite Forall_forall in IH. apply elem_of_cons in Hd as [->|Hd].
  - by rewrite is_tag_named_decompose_all.
  - by apply (IH c).
Qed.



(** ** The normalizer on examples *)

Lemma normalize_url_fixed_point_witness :
  (∀ s, Sample.validator s = true → strip s = s) ∧
  URLValidator.normalize_url Sample.validator Sample.no_check
    (py " example.com/a;p?q=1#top ") = Ok (Some (py "https://example.com/a?q=1")) ∧
  URLValidator.normalize_url Sample.validator Sample.no_check
    (py "https://example.com/a?q=1") = Ok (Some (py "https://example.com/a?q=1")).
Proof.
  assert (URLValidator.normalize_url Sample.validator Sample.no_check
            (py " example.com/a;p?q=1#top ")
          = Ok (Some (py "https://example.com/a?q=1"))) as H
    by (vm_compute; reflexivity).
  split; [exact sample_validator_stripped|]. split; [exact H|].
  exact (normalize_url_fixed_point Sample.validator Sample.no_check
           sample_validator_stripped _ _ H).
Defined.

(** The seed [example.com] is normalized to [https://example.com]. *)
Example normalize_example :
  URLValidator.normalize_url Sample.validator Sample.no_check (py "example.com")
  = Ok (Some (py "https://example.com")).
Proof. by vm_compute. Qed.

(** Hosts are compared as they are written. *)
Example same_domain_examples :
  URLValidator.is_same_domain Sample.no_check
    (py "https://a.com/x") (py "https://a.com/y") = true
  ∧ URLValidator.is_same_domain Sample.no_check
      (py "https://a.com") (py "https://b.com") = false
  ∧ URLValidator.is_same_domain Sample.no_check
      (py "https://a.com") (py "https://sub.a.com") = false.
Proof. by vm_compute. Qed.

(** A root URL keeps its slash, any other URL loses one trailing slash. *)
Example clean_url_examples :
  URLValidator.clean_url (py "https://a.com/") = py "https://a.com/"
  ∧ URLValidator.clean_url (py "https://a.com/x/") = py "https://a.com/x".
Proof. by vm_compute. Qed.

(** ** More on [URLValidator] *)

Lemma lstrip_by_all p (s : str) : Forall (λ c, p c = true) s → lstrip_by p s = [].
Proof. induction 1 as [|c s Hc _ IH]; simpl; [done|by rewrite Hc]. Qed.

Lemma strip_by_all p (s : str) : Forall (λ c, p c = true) s → strip_by p s = [].
Proof.
  intros Hs. unfold strip_by, rstrip_by. by rewrite (lstrip_by_all _ _ Hs).
Qed.

Lemma strip_by_strip_by p (s : str) : strip_by p (strip_by p s) = strip_by p s.
Proof. apply strip_by_edges_id. intros c. apply strip_by_edges. Qed.

Section validator_more.

Variable validators_url : str → bool.
Variable chk : str → bool.

Local Abbreviation is_valid_url := (URLValidator.is_valid_url validators_url chk).
Local Abbreviation normalize_url := (URLValidator.normalize_url validators_url chk).
Local Abbreviation get_domain := (URLValidator.get_domain chk).
Local Abbreviation is_same_domain := (URLValidator.is_same_domain chk).
Local Abbreviation is_absolute_url := (URLValidator.is_absolute_url chk).
Local Abbreviation make_absolute_url :=
  (URLValidator.make_absolute_url validators_url chk).

(** The scheme that [normalize_url] goes on with. *)
Lemma http_prefixed_scheme (url : str) :
  let url' :=
    if negb (startswith url (py "http://") || startswith url (py "https://"))
    then py "https://" ++ url else url in
  ∃ sch x, url' = sch ++ ":"%char :: py "//" ++ x
    ∧ (startswith url (py "http://") = true ∧ sch = py "http"
       ∨ startswith url (py "http://") = false ∧ sch = py "https").
Proof.
  cbv zeta. unfold startswith.
  destruct (bool_decide (py "http://" `prefix_of` url)) eqn:H1; cbn [orb negb].
  { apply bool_decide_eq_true in H1 as [k ->].
    exists (py "http"), k. split; [reflexivity|by left]. }
  destruct (bool_decide (py "https://" `prefix_of` url)) eqn:H2; cbn [orb negb].
  { apply bool_decide_eq_true in H2 as [k ->].
    exists (py "https"), k. split; [reflexivity|by right]. }
  exists (py "https"), url. split; [reflexivity|by right].
Qed.

(** What [normalize_url] returns, by the parts it is built from. *)
Lemma normalize_url_parts u r :
  normalize_url u = Ok (Some r) →
  ∃ sch N P Q,
    r = rebuild sch N P Q
    ∧ sch ∈ URLValidator.http_schemes ∧ N ≠ []
    ∧ Urllib.urlparse chk r [] = Ok (mkParse sch N P [] Q [])
    ∧ Forall (λ c, c ≠ "#"%char) (N ++ P ++ Q)
    ∧ is_valid_url r = Ok true
    ∧ (startswith (strip u) (py "http://") = false → sch = py "https").
Proof.
  unfold URLValidator.normalize_url. case_bool_decide; [done|].
  destruct (http_prefixed_scheme (strip u)) as (sch & x & -> & Hcase).
  assert (sch ∈ URLValidator.http_schemes) as Hsch.
  { destruct Hcase as [[_ ->]|[_ ->]]; set_solver. }
  unfold URLValidator.urlparse.
  destruct (Urllib.urlparse chk _ []) as [pr|e] eqn:Hpr; simpl; [|done].
  pose proof (urlparse_http_prefix _ _ _ _ _ Hsch Hpr) as Hs.
  destruct (urlparse_wf _ _ _ _ Hpr) as (HN & Hinv & HP & HQ & Hsafe & Hsl & Hst).
  intros Hr.
  change (is_valid_url (rebuild (scheme pr) (netloc pr) (path pr) (query pr))
            ≫= (λ valid : bool,
                  if valid
                  then Ok (Some (rebuild (scheme pr) (netloc pr) (path pr) (query pr)))
                  else Ok None) = Ok (Some r)) in Hr.
  revert Hr. set (n := rebuild _ _ _ _).
  destruct (is_valid_url n) as [[]|] eqn:Hvalid; simpl; [|done|done].
  intros [= <-].
  assert (Urllib.urlparse chk n [] =
          Ok (mkParse (scheme pr) (netloc pr) (path pr) [] (query pr) [])) as Hn.
  { unfold n. rewrite Hs in *. apply urlparse_compose; try done.
    apply Hsl. right. rewrite after_scheme_http by done. cbn [snd].
    rewrite remove_unsafe_app. reflexivity. }
  destruct (is_valid_url_true _ _ _ Hvalid) as (_ & pr' & Hpr' & _ & Hne).
  rewrite Hn in Hpr'. injection Hpr' as <-. simpl in Hne.
  exists (scheme pr), (netloc pr), (path pr), (query pr).
  split; [done|]. split; [by rewrite Hs|]. split; [done|]. split; [done|].
  split.
  { rewrite !Forall_app. split; [|split; [|done]].
    - eapply Forall_impl; [exact HN|]. intros c Hc.
      by apply netloc_delim_false in Hc as (_ & _ & ?).
    - eapply Forall_impl; [exact HP|]. by intros c [_ ?]. }
  split; [done|].
  intros Hno. destruct Hcase as [[Hyes _]|[_ E]]; [|by rewrite Hs, E].
  by pose proof (eq_trans (eq_sym Hno) Hyes).
Qed.

(** X1. [normalize_url] returns a URL that starts with [http://] or
    [https://] (with [https://] unless the trimmed input starts with
    [http://]), that holds no [#], and that parses into a scheme, a
    network location that is not empty, a path and a query, without
    parameters and without a fragment; it is exactly those four parts put
    together again. *)
Theorem normalize_url_shape u r :
  normalize_url u = Ok (Some r) →
  (startswith r (py "http://") || startswith r (py "https://")) = true
  ∧ (startswith (strip u) (py "http://") = false →
     startswith r (py "https://") = true)
  ∧ ("#"%char ∉ r)
  ∧ ∃ parsed, URLValidator.urlparse chk r = Ok parsed
      ∧ scheme parsed ∈ URLValidator.http_schemes
      ∧ netloc parsed ≠ []
      ∧ params parsed = [] ∧ fragment parsed = []
      ∧ r = rebuild (scheme parsed) (netloc parsed) (path parsed) (query parsed).
Proof.
  intros Hn.
  destruct (normalize_url_parts u r Hn)
    as (sch & N & P & Q & -> & Hsch & HN & Hparse & Hhash & _ & Hhttps).
  split.
  { destruct (rebuild_prefixed sch N P Q Hsch) as [_ Hp].
    by apply negb_false_iff in Hp. }
  split.
  { intros Hno. rewrite (Hhttps Hno), rebuild_alt. unfold startswith.
    apply bool_decide_eq_true. by eexists. }
  split.
  { rewrite rebuild_alt. apply Forall_app in Hhash as [H1 H2].
    apply Forall_app in H2 as [H2 H3].
    assert (Forall (λ c, c ≠ "#"%char) sch) as H0.
    { unfold URLValidator.http_schemes in Hsch.
      rewrite !elem_of_cons, elem_of_nil in Hsch.
      destruct Hsch as [->|[->|[]]]; repeat constructor; by intros [=]. }
    intros Hin. apply elem_of_app in Hin as [Hin|Hin].
    { by eapply Forall_forall in H0. }
    do 3 (apply elem_of_cons in Hin as [[=]|Hin]).
    apply elem_of_app in Hin as [Hin|Hin].
    { by eapply Forall_forall in H1. }
    apply elem_of_app in Hin as [Hin|Hin].
    { by eapply Forall_forall in H2. }
    case_bool_decide; [by apply elem_of_nil in Hin|].
    apply elem_of_cons in Hin as [[=]|Hin].
    by eapply Forall_forall in H3. }
  exists (mkParse sch N P [] Q []). unfold URLValidator.urlparse. by rewrite Hparse.
Qed.

Lemma urlparse_https_bare :
  Urllib.urlparse chk (py "https://") []
  = Ok (mkParse (py "https") [] [] [] [] []).
Proof. vm_compute. reflexivity. Qed.

(** X2. [normalize_url] returns [None] for the empty string and for a string
    of white space only, whatever [validators.url] says. *)
Theorem normalize_url_blank u :
  Forall (λ c, isspace c = true) u → normalize_url u = Ok None.
Proof.
  intros Hu. unfold URLValidator.normalize_url. case_bool_decide; [done|].
  unfold strip. rewrite (strip_by_all _ _ Hu).
  change (startswith [] (py "http://") || startswith [] (py "https://")) with false.
  cbn [negb]. unfold URLValidator.urlparse.
  change (py "https://" ++ []) with (py "https://").
  rewrite urlparse_https_bare. simpl.
  change (is_valid_url (py "https://") ≫= (λ valid : bool,
            if valid then Ok (Some (py "https://")) else Ok None) = Ok None).
  unfold URLValidator.is_valid_url. rewrite bool_decide_false by done.
  destruct (validators_url _); [|done]. cbn [negb].
  unfold URLValidator.urlparse. by rewrite urlparse_https_bare.
Qed.

(** X3. A URL that [is_valid_url] accepts is absolute for [is_absolute_url],
    has a domain, and is in the same domain as itself. *)
Theorem is_valid_url_is_absolute u :
  is_valid_url u = Ok true →
  is_absolute_url u = Ok true
  ∧ is_Some (get_domain u)
  ∧ is_same_domain u u = true.
Proof.
  intros Hv. destruct (is_valid_url_true _ _ _ Hv) as (_ & pr & Hpr & Hs & Hn).
  assert (scheme pr ≠ []) as Hs'.
  { intros E. rewrite E in Hs. unfold URLValidator.http_schemes in Hs.
    rewrite !elem_of_cons, elem_of_nil in Hs. by destruct Hs as [|[|[]]]. }
  assert (get_domain u = Some (netloc pr)) as Hd.
  { unfold URLValidator.get_domain, URLValidator.urlparse. rewrite Hpr.
    by rewrite bool_decide_false. }
  split.
  { unfold URLValidator.is_absolute_url, URLValidator.urlparse. rewrite Hpr.
    simpl. by rewrite !bool_decide_false. }
  split; [by rewrite Hd|].
  unfold URLValidator.is_same_domain. rewrite Hd. by apply bool_decide_eq_true.
Qed.

(** X4. [is_same_domain] is symmetric and transitive, it holds of a URL and
    itself exactly when the URL has a domain, and two URLs in the same
    domain have the same domain. *)
Theorem is_same_domain_equivalence a b c :
  is_same_domain a b = is_same_domain b a
  ∧ (is_same_domain a b = true → is_same_domain b c = true →
     is_same_domain a c = true)
  ∧ (is_same_domain a a = true ↔ is_Some (get_domain a))
  ∧ (is_same_domain a b = true →
     get_domain a = get_domain b ∧ is_Some (get_domain a)).
Proof.
  unfold URLValidator.is_same_domain.
  destruct (get_domain a) as [da|], (get_domain b) as [db|],
    (get_domain c) as [dc|]; simpl;
    (split; [try done; apply bool_decide_ext; naive_solver|]);
    (split; [try done; rewrite ?bool_decide_eq_true; congruence|]);
    (split; [rewrite ?bool_decide_eq_true; split; try done;
             by intros []%is_Some_None|]);
    try done; rewrite ?bool_decide_eq_true; by intros ->.
Qed.

(** X5. [make_absolute_url] on an empty [href] gives the base when the base is
    valid, and on an empty base gives the [href] when that is valid;
    [None] otherwise. *)
Theorem make_absolute_url_empty url :
  make_absolute_url url []
  = match is_valid_url url with Ok true => Some url | _ => None end
  ∧ make_absolute_url [] url
    = match is_valid_url url with Ok true => Some url | _ => None end.
Proof.
  unfold URLValidator.make_absolute_url, URLValidator.urljoin, Urllib.urljoin.
  destruct (decide (url = [])) as [->|Hne].
  { rewrite !bool_decide_true by done. simpl.
    change (is_valid_url []) with (Ok (A := bool) false). done. }
  rewrite (bool_decide_false (url = [])) by done.
  rewrite !bool_decide_true by done. simpl.
  change (URLValidator.is_valid_url validators_url chk url) with (is_valid_url url).
  by destruct (is_valid_url url) as [[]|].
Qed.

End validator_more.

(** [clean_url] returns its argument trimmed, or trimmed and without its
    last character, a slash; the latter exactly when the trimmed
    argument ends with a slash and holds more than three of them, and
    then at least three are left. *)
Lemma clean_url_shape u :
  (URLValidator.clean_url u = strip u
   ∧ (endswith (strip u) (py "/") = false ∨ count "/"%char (strip u) ≤ 3))
  ∨ (strip u = URLValidator.clean_url u ++ py "/"
     ∧ 3 ≤ count "/"%char (URLValidator.clean_url u)).
Proof.
  unfold URLValidator.clean_url.
  destruct (endswith (strip u) (py "/")) eqn:He; cbn [andb]; [|left; by split; [|left]].
  case_bool_decide as Hc; [|left; split; [done|right; lia]].
  right. destruct (endswith_slash _ He) as [k Hk]. rewrite Hk in *.
  rewrite length_app. simpl length.
  replace (length k + 1 - 1)%nat with (length k) by lia.
  rewrite take_app_length. split; [done|].
  rewrite count_app in Hc. change (count "/"%char ["/"%char]) with 1 in Hc. lia.
Qed.

Section clean_more.

Variable validators_url : str → bool.
Variable chk : str → bool.

(** [validators.url] rejects a string with leading or trailing white space. *)
Hypothesis validators_url_stripped :
  ∀ s, validators_url s = true → strip s = s.

(** X7. [clean_url] keeps a valid URL in its domain: the cleaned URL still
    parses as an absolute HTTP(S) URL, with the same domain. *)
Theorem clean_url_keeps_domain u :
  URLValidator.is_valid_url validators_url chk u = Ok true →
  absolute_http chk (URLValidator.clean_url u)
  ∧ URLValidator.get_domain chk (URLValidator.clean_url u)
    = URLValidator.get_domain chk u
  ∧ URLValidator.is_same_domain chk u (URLValidator.clean_url u) = true.
Proof.
  intros Hv.
  pose proof (clean_url_domain _ _ validators_url_stripped _ Hv) as Hd.
  split; [by eapply clean_url_absolute|]. split; [done|].
  destruct (absolute_http_domain chk u) as [d Hu].
  { by eapply is_valid_url_absolute. }
  unfold URLValidator.is_same_domain. rewrite Hd, Hu.
  by apply bool_decide_eq_true.
Qed.

End clean_more.

(** ** More on the extraction *)

Import Bs4 Extract.

(** X8. [_extract_title] returns a string without white space at its ends. *)
Theorem extract_title_stripped soup :
  strip (_extract_title soup) = _extract_title soup
  ∧ ∀ c, head (_extract_title soup) = Some c ∨ last (_extract_title soup) = Some c →
         isspace c = false.
Proof.
  assert (strip (_extract_title soup) = _extract_title soup) as Hs.
  { unfold _extract_title.
    destruct (find (py "title") soup) as [title|].
    - destruct (string_of title) as [s|]; [|done].
      case_bool_decide; [done|]. apply strip_by_strip_by.
    - destruct (find (py "h1") soup) as [h1|]; [apply strip_by_strip_by|].
      by vm_compute. }
  split; [done|]. rewrite <- Hs. apply strip_by_edges.
Qed.

(** *** The clean-up of the text, applied twice *)

Lemma reverse_nil_iff (s : str) : reverse s = [] ↔ s = [].
Proof.
  split; [|by intros ->]. intros H. apply (f_equal reverse) in H.
  by rewrite reverse_involutive in H.
Qed.

Lemma splitlines_from_none (s cur : str) :
  Forall (λ c, islinebreak c = false) s →
  splitlines_from cur s
  = match reverse cur ++ s with [] => [] | line => [line] end.
Proof.
  intros Hs. revert cur. induction Hs as [|c s Hc _ IH]; intros cur.
  { simpl. rewrite app_nil_r. destruct cur as [|a cur]; [done|].
    destruct (reverse (a :: cur)) eqn:E; [|done].
    apply (proj1 (reverse_nil_iff _)) in E. discriminate E. }
  rewrite splitlines_from_cons.
  rewrite bool_decide_false by (intros ->; by vm_compute in Hc).
  rewrite Hc, IH, reverse_cons, <- app_assoc. done.
Qed.

Lemma split_double_space_from_none (s cur : str) :
  has_double_space s = false →
  split_double_space_from cur s = [reverse cur ++ s].
Proof.
  revert cur. induction s as [|c s IH]; intros cur Hs.
  { simpl. by rewrite app_nil_r. }
  destruct s as [|d s].
  { simpl. by rewrite reverse_cons. }
  rewrite split_double_space_from_cons2.
  rewrite has_double_space_cons in Hs. apply orb_false_iff in Hs as [H1 H2].
  assert (bool_decide (c = " "%char) && bool_decide (d = " "%char) = false) as ->.
  { destruct (bool_decide (c = " "%char)); [|done]. simpl in *.
    unfold starts_with_space in H1. simpl in H1.
    apply bool_decide_eq_false in H1. apply bool_decide_eq_false.
    intros ->. by apply H1. }
  rewrite IH by done. by rewrite reverse_cons, <- app_assoc.
Qed.

Lemma clean_text_fixed (text : str) :
  has_double_space text = false →
  Forall (λ c, islinebreak c = false) text →
  strip text = text →
  clean_text text = text.
Proof.
  intros Hd Hl Hs. unfold clean_text, splitlines.
  rewrite (splitlines_from_none _ _ Hl). simpl.
  destruct text as [|c text]; [done|].
  rewrite fmap_cons, Hs. simpl. rewrite app_nil_r.
  unfold split_double_space. rewrite (split_double_space_from_none _ _ Hd).
  simpl. rewrite Hs. by rewrite filter_cons_True.
Qed.

(** X9. Cleaning a cleaned text changes nothing. *)
Theorem clean_text_idempotent text :
  clean_text (clean_text text) = clean_text text.
Proof.
  destruct (clean_text_spec text) as (Hd & Hl & Hs & _).
  by apply clean_text_fixed.
Qed.

(** *** The document that [_extract_content] leaves *)

Lemma decompose_all_idempotent names n :
  decompose_all names (decompose_all names n) = decompose_all names n.
Proof.
  induction n as [s|s|name attrs cs IH] using node_rect_nested; [done..|].
  rewrite !decompose_all_Tag. f_equal.
  induction IH as [|c cs Hc _ IHcs]; [done|].
  destruct (is_tag_named names c) eqn:Hn.
  - by rewrite filter_cons_False by (rewrite Hn; discriminate).
  - rewrite filter_cons_True by done. rewrite fmap_cons.
    rewrite filter_cons_True by (by rewrite is_tag_named_decompose_all).
    rewrite fmap_cons, Hc. f_equal. apply IHcs.
Qed.

Lemma omap_sublist {A B} (f : A → option B) (l k : list A) :
  l `sublist_of` k → omap f l `sublist_of` omap f k.
Proof.
  induction 1 as [|x l k _ IH|x l k _ IH]; simpl.
  - constructor.
  - destruct (f x); [by constructor|done].
  - destruct (f x); [by constructor|done].
Qed.

Lemma sublist_bind {A B} (f g : A → list B) (l : list A) :
  Forall (λ x, f x `sublist_of` g x) l → (l ≫= f) `sublist_of` (l ≫= g).
Proof.
  induction 1 as [|x l Hx _ IH]; [constructor|].
  rewrite !bind_cons. by apply sublist_app.
Qed.

(** The tags of the document that is left are tags of the document, with
    their names and attributes, in their order. *)
Lemma decompose_all_labels names n :
  omap label (descendants (decompose_all names n))
  `sublist_of` omap label (descendants n).
Proof.
  induction n as [s|s|name attrs cs IH] using node_rect_nested; [done..|].
  rewrite decompose_all_Tag, !descendants_Tag.
  induction IH as [|c cs Hc _ IHcs]; [done|].
  rewrite bind_cons, omap_app.
  destruct (is_tag_named names c) eqn:Hn.
  - rewrite filter_cons_False by (rewrite Hn; discriminate).
    by apply sublist_inserts_l.
  - rewrite filter_cons_True by done. rewrite fmap_cons, bind_cons, omap_app.
    apply sublist_app; [|done]. simpl.
    assert (label (decompose_all names c) = label c) as -> by (by destruct c).
    destruct (label c); [by constructor|done].
Qed.

Lemma omap_cons_match {A B} (f : A → option B) (x : A) (l : list A) :
  omap f (x :: l) = match f x with Some y => y :: omap f l | None => omap f l end.
Proof. done. Qed.

Lemma omap_filter_omap {A B C} (P : A → Prop) `{!∀ x, Decision (P x)}
    (F : A → option C) (lab : A → option B) (G : B → option C) (l : list A) :
  (∀ d, (if decide (P d) then F d else None) = lab d ≫= G) →
  omap F (filter P l) = omap G (omap lab l).
Proof.
  intros Heq. induction l as [|d l IH]; [done|].
  specialize (Heq d). rewrite (omap_cons_match lab).
  destruct (decide (P d)) as [Hd|Hd].
  - rewrite filter_cons_True, omap_cons_match, IH by done.
    destruct (lab d) as [b|]; simpl in Heq.
    + by rewrite omap_cons_match, <- Heq.
    + by rewrite Heq.
  - rewrite filter_cons_False, IH by done.
    destruct (lab d) as [b|]; simpl in Heq; [|done].
    by rewrite omap_cons_match, <- Heq.
Qed.

Lemma anchor_hrefs_labels soup :
  anchor_hrefs soup
  = omap (λ '(name, attrs),
            if bool_decide (name ∈ [py "a"]) then get attrs (py "href") else None)
         (omap label (descendants soup)).
Proof.
  unfold anchor_hrefs, find_all. apply omap_filter_omap.
  intros [s|s|name attrs cs]; simpl; [done..|].
  destruct (decide _) as [H|H]; by case_bool_decide.
Qed.

(** X10. Extracting the content a second time, from the document that the
    first extraction left, gives the same text and leaves the document
    as it is. *)
Theorem extract_content_twice soup :
  _extract_content (_extract_content soup).2 = _extract_content soup.
Proof.
  unfold _extract_content. cbn [snd]. by rewrite decompose_all_idempotent.
Qed.

(** *** The metadata *)

Lemma extract_metadata_step (metadata : gmap str meta_value) (tag : node) :
  match tag with
  | Tag _ attrs _ =>
      let name := default (default [] (get attrs (py "property")))
                    (get attrs (py "name")) in
      let content := default [] (get attrs (py "content")) in
      if negb (bool_decide (name = [])) && negb (bool_decide (content = []))
      then <[name := MetaContent content]> metadata
      else metadata
  | _ => metadata
  end
  = match meta_entry tag with
    | Some (name, content) => <[name := MetaContent content]> metadata
    | None => metadata
    end.
Proof.
  destruct tag as [s|s|tname attrs cs]; [done..|].
  unfold meta_entry. cbv zeta.
  destruct (get attrs (py "name")) as [name|]; cbn [default];
    repeat case_bool_decide; cbn [negb andb]; try done; naive_solver.
Qed.

Lemma last_cons_app {A} (x : A) (l : list A) :
  last (x :: l) = match last l with Some y => Some y | None => Some x end.
Proof. destruct l as [|y l]; [done|]. rewrite last_cons. by destruct (last (y :: l)). Qed.

Lemma foldl_meta (tags : list node) (m0 : gmap str meta_value) (key : str) :
  foldl (λ (metadata : gmap str meta_value) tag,
           match meta_entry tag with
           | Some (name, content) => <[name := MetaContent content]> metadata
           | None => metadata
           end) m0 tags !! key
  = match last_meta key tags with
    | Some content => Some (MetaContent content)
    | None => m0 !! key
    end.
Proof.
  revert m0. induction tags as [|tag tags IH]; intros m0; [done|].
  cbn [foldl]. rewrite IH. unfold last_meta. rewrite omap_cons_match.
  destruct (meta_entry tag) as [[name content]|]; cbn [mbind option_bind]; [|done].
  case_bool_decide as Hk.
  - subst name. rewrite last_cons_app.
    destruct (last _); [done|]. by rewrite lookup_insert_eq.
  - destruct (last _); [done|]. by rewrite lookup_insert_ne.
Qed.

Lemma extract_metadata_unfold soup :
  _extract_metadata soup
  = let metadata :=
      foldl (λ (metadata : gmap str meta_value) tag,
               match meta_entry tag with
               | Some (name, content) => <[name := MetaContent content]> metadata
               | None => metadata
               end) ∅ (find_all [py "meta"] soup) in
    let headings :=
      heading_names ≫= λ '(i, h),
        (λ heading, (i, strip (get_text heading))) <$> find_all [h] soup in
    match headings with
    | [] => metadata
    | _ => <[py "headings" := MetaHeadings headings]> metadata
    end.
Proof.
  unfold _extract_metadata. cbv zeta.
  assert (∀ (l : list node) (m : gmap str meta_value),
    foldl (λ (metadata : gmap str meta_value) tag,
             match tag with
             | Tag _ attrs _ =>
                 let name := default (default [] (get attrs (py "property")))
                               (get attrs (py "name")) in
                 let content := default [] (get attrs (py "content")) in
                 if negb (bool_decide (name = [])) && negb (bool_decide (content = []))
                 then <[name := MetaContent content]> metadata
                 else metadata
             | _ => metadata
             end) m l
    = foldl (λ (metadata : gmap str meta_value) tag,
               match meta_entry tag with
               | Some (name, content) => <[name := MetaContent content]> metadata
               | None => metadata
               end) m l) as ->; [|done].
  induction l as [|tag l IH]; intros m; [done|].
  cbn [foldl]. by rewrite IH, extract_metadata_step.
Qed.

(** X11. Under a key other than [headings] the metadata hold the content of
    the last [meta] element of the document with that key (its [name]
    attribute or, without one, its [property] attribute) and with a
    content that is not empty: a later element replaces an earlier one,
    and a key that no such element has is missing. *)
Theorem extract_metadata_meta soup key :
  key ≠ py "headings" →
  _extract_metadata soup !! key
  = MetaContent <$> last_meta key (find_all [py "meta"] soup).
Proof.
  intros Hk. rewrite extract_metadata_unfold. cbv zeta.
  destruct (heading_names ≫= _) as [|h hs].
  - rewrite foldl_meta, lookup_empty. by destruct (last_meta _ _).
  - rewrite lookup_insert_ne by done.
    rewrite foldl_meta, lookup_empty. by destruct (last_meta _ _).
Qed.

Lemma length_filter_cons {A} (P : A → Prop) `{!∀ x, Decision (P x)} (x : A) (l : list A) :
  length (filter P (x :: l))
  = ((if decide (P x) then 1 else 0) + length (filter P l))%nat.
Proof.
  destruct (decide (P x)); [by rewrite filter_cons_True|by rewrite filter_cons_False].
Qed.

Lemma heading_count (l : list node) :
  (length (filter (λ d, is_tag_named [py "h1"] d = true) l)
   + (length (filter (λ d, is_tag_named [py "h2"] d = true) l)
   + (length (filter (λ d, is_tag_named [py "h3"] d = true) l)
   + (length (filter (λ d, is_tag_named [py "h4"] d = true) l)
   + (length (filter (λ d, is_tag_named [py "h5"] d = true) l)
   + (length (filter (λ d, is_tag_named [py "h6"] d = true) l)))))))%nat
  = length (filter (λ d, is_tag_named (heading_names.*2) d = true) l).
Proof.
  induction l as [|d l IH]; [done|].
  rewrite !length_filter_cons, <- IH.
  assert ((if decide (is_tag_named [py "h1"] d = true) then 1 else 0)
          + ((if decide (is_tag_named [py "h2"] d = true) then 1 else 0)
          + ((if decide (is_tag_named [py "h3"] d = true) then 1 else 0)
          + ((if decide (is_tag_named [py "h4"] d = true) then 1 else 0)
          + ((if decide (is_tag_named [py "h5"] d = true) then 1 else 0)
          + (if decide (is_tag_named [py "h6"] d = true) then 1 else 0)))))
          = if decide (is_tag_named (heading_names.*2) d = true) then 1 else 0)%nat
    as Hd; [|lia].
  destruct d as [s|s|name attrs cs]; [done..|].
  destruct (decide (name = py "h1")) as [->|N1]; [by vm_compute|].
  destruct (decide (name = py "h2")) as [->|N2]; [by vm_compute|].
  destruct (decide (name = py "h3")) as [->|N3]; [by vm_compute|].
  destruct (decide (name = py "h4")) as [->|N4]; [by vm_compute|].
  destruct (decide (name = py "h5")) as [->|N5]; [by vm_compute|].
  destruct (decide (name = py "h6")) as [->|N6]; [by vm_compute|].
  unfold is_tag_named.
  rewrite !decide_False; [done|..];
    rewrite bool_decide_eq_true; change (heading_names.*2)
      with [py "h1"; py "h2"; py "h3"; py "h4"; py "h5"; py "h6"];
    rewrite ?elem_of_cons, elem_of_nil; naive_solver.
Qed.

Lemma headings_sorted (soup : node) (names : list (Z * str)) :
  StronglySorted Z.le (names.*1) →
  StronglySorted Z.le
    ((names ≫= λ '(i, h),
        (λ heading, (i, strip (get_text heading))) <$> find_all [h] soup).*1).
Proof.
  induction names as [|[i h] names IH]; intros Hs; [constructor|].
  rewrite fmap_cons in Hs. apply StronglySorted_inv in Hs as [Hs Hi].
  rewrite bind_cons, fmap_app. apply StronglySorted_app_2; [| |by apply IH].
  - intros x1 x2 H1 H2.
    rewrite <- list_fmap_compose in H1.
    apply list_elem_of_fmap in H1 as (y & -> & _). simpl.
    apply list_elem_of_fmap in H2 as ([j t] & -> & Hjt).
    apply list_elem_of_bind in Hjt as ([j' h'] & Hjt & Hin).
    apply list_elem_of_fmap in Hjt as (z & [= -> ->] & _).
    rewrite Forall_forall in Hi. apply Hi.
    apply list_elem_of_fmap. by exists (j', h').
  - rewrite <- list_fmap_compose.
    induction (find_all [h] soup) as [|x l IHl]; [constructor|].
    rewrite fmap_cons. constructor; [done|].
    apply Forall_forall. intros j Hj.
    apply list_elem_of_fmap in Hj as (y & -> & _). simpl. lia.
Qed.

(** X12. The key [headings] of the metadata.  When the document has an [h1]
    to [h6] element the key holds one entry for each of them (whatever a
    [meta] element with that key says): the level and the trimmed text,
    the entries in the order of their levels.  When the document has
    none, the key is that of a [meta] element, or missing. *)
Theorem extract_metadata_headings soup :
  match _extract_metadata soup !! py "headings" with
  | Some (MetaHeadings hs) =>
      hs ≠ []
      ∧ length hs = length (find_all (heading_names.*2) soup)
      ∧ StronglySorted Z.le (hs.*1)
      ∧ ∀ i text, (i, text) ∈ hs ↔
          ∃ h heading, (i, h) ∈ heading_names ∧ heading ∈ find_all [h] soup
                       ∧ text = strip (get_text heading)
  | other =>
      find_all (heading_names.*2) soup = []
      ∧ other = MetaContent <$> last_meta (py "headings") (find_all [py "meta"] soup)
  end.
Proof.
  rewrite extract_metadata_unfold. cbv zeta.
  set (hs := heading_names ≫= _).
  assert (length hs = length (find_all (heading_names.*2) soup)) as Hlen.
  { unfold find_all. rewrite <- heading_count. unfold hs, heading_names.
    rewrite !bind_cons, !length_app, !length_fmap.
    change (length ([] ≫= λ '(i, h),
              (λ heading, (i, strip (get_text heading))) <$> find_all [h] soup))
      with 0%nat.
    unfold find_all. lia. }
  destruct hs as [|h0 hs'] eqn:Hhs.
  - rewrite foldl_meta, lookup_empty.
    assert (find_all (heading_names.*2) soup = []) as Hnone.
    { apply nil_length_inv. by rewrite <- Hlen. }
    destruct (last_meta _ _); by split.
  - rewrite lookup_insert_eq. rewrite <- Hhs in *. split; [by rewrite Hhs|].
    split; [done|]. split.
    { subst hs. apply headings_sorted. unfold heading_names. simpl.
      repeat (constructor; [|repeat constructor; lia]). constructor. }
    intros i text. subst hs. rewrite list_elem_of_bind. split.
    + intros ([j h] & Hin & Hj).
      apply list_elem_of_fmap in Hin as (heading & [= -> ->] & Hh).
      by exists h, heading.
    + intros (h & heading & Hj & Hh & ->). exists (i, h). split; [|done].
      apply list_elem_of_fmap. by exists heading.
Qed.

(** ** More on the crawl *)

Global Instance grows_preorder : PreOrder grows.
Proof.
  split.
  - intros s. by split; [|split].
  - intros s1 s2 s3 (H1 & H2 & H3) (K1 & K2 & K3).
    split; [set_solver|]. split; by etrans.
Qed.

Lemma grows_visit u s : grows s (add_visited u s).
Proof. split; [simpl; set_solver|]. by split. Qed.

Lemma grows_request u s : grows s (log_request u s).
Proof. split; [done|]. split; [done|]. by apply prefix_app_r. Qed.

Lemma grows_append p s : grows s (append_page p s).
Proof. split; [done|]. split; [|done]. by apply prefix_app_r. Qed.

Section crawl_more.

Variables max_depth max_pages : Z.
Variable validators_url : str → bool.
Variable chk : str → bool.
Variable session_get : list str → str → response.

Local Abbreviation _crawl_recursive :=
  (WebScraper._crawl_recursive max_depth max_pages validators_url chk session_get).
Local Abbreviation crawl_links :=
  (WebScraper.crawl_links max_depth max_pages validators_url chk session_get).
Local Abbreviation _scrape_page :=
  (WebScraper._scrape_page validators_url chk session_get).
Local Abbreviation scrape_website :=
  (WebScraper.scrape_website max_depth max_pages validators_url chk session_get).
Local Abbreviation normalize_url := (WebScraper.normalize_url validators_url chk).
Local Abbreviation is_same_domain := (WebScraper.is_same_domain chk).
Local Abbreviation _extract_links := (WebScraper._extract_links validators_url chk).
Local Abbreviation inv := (session_inv max_depth max_pages session_get).
Local Abbreviation fetching u r :=
  (update (log_request (clean_url u)) (update (add_visited (clean_url u)) r)).

(** [_scrape_page], by the answer to its request. *)
Lemma scrape_page_eq u d r :
  _scrape_page u d r
  = (match session_get (requests (now r)) u with
     | Document soup =>
         let cleaned := Bs4.decompose_all Extract.non_content_tags soup in
         Some (mkPage u (Extract._extract_title soup)
                 (Extract.clean_text (Bs4.get_text cleaned))
                 (Extract._extract_metadata cleaned)
                 (_extract_links cleaned u) d)
     | _ => None
     end, update (log_request u) r).
Proof.
  unfold WebScraper._scrape_page. by destruct (session_get _ u).
Qed.

(** *** A rule for what holds between the calls

    [P] holds of the run after a call of [_crawl_recursive] when it held
    before it and the visit of a URL, with its request, and the append of
    a page keep it. *)

Section run_rule.

Variable P : Run → Prop.

Hypothesis P_fetch : ∀ r u d,
  P r → d ≤ max_depth → len (now r) < max_pages →
  clean_url u ∉ visited_urls (now r) →
  P (fetching u r).

Hypothesis P_append : ∀ r u d p,
  P r → d ≤ max_depth → len (now r) < max_pages →
  clean_url u ∉ visited_urls (now r) →
  _scrape_page (clean_url u) d (update (add_visited (clean_url u)) r)
  = (Some p, fetching u r) →
  P (update (append_page p) (fetching u r)).

Lemma crawl_links_rule fuel :
  (∀ u d r r', P r → _crawl_recursive fuel u d r = Some r' → P r') →
  ∀ parent d ls r r', P r → crawl_links fuel parent d ls r = Some r' → P r'.
Proof.
  intros IH parent d ls. induction ls as [|link ls IHl]; intros r r' Hr.
  { simpl. by intros [= <-]. }
  rewrite crawl_links_cons. case_bool_decide; [by intros [= <-]|].
  destruct (is_same_domain parent link); [|by apply IHl].
  destruct (_crawl_recursive fuel link (d + 1) r) as [r1|] eqn:Hrec; [|done].
  simpl. apply IHl. by eapply IH.
Qed.

Lemma crawl_rule fuel u d r r' :
  P r → _crawl_recursive fuel u d r = Some r' → P r'.
Proof.
  revert u d r r'. induction fuel as [|fuel IH]; intros u d r r' Hr; [done|].
  rewrite crawl_recursive_unfold.
  case_bool_decide as Hd; [by intros [= <-]|].
  case_bool_decide as Hn; [by intros [= <-]|].
  case_bool_decide as Hv; [by intros [= <-]|].
  destruct (_scrape_page _ _ _) as [res r1] eqn:Hpage.
  assert (r1 = fetching u r) as ->.
  { rewrite scrape_page_eq in Hpage. by injection Hpage as _ <-. }
  destruct res as [p|].
  - apply (crawl_links_rule fuel IH).
    apply (P_append _ _ d); [done|lia|lia|done|done].
  - intros [= <-]. apply (P_fetch _ _ d); [done|lia|lia|done].
Qed.

End run_rule.

(** A call of [_crawl_recursive] only adds to the state. *)
Lemma crawl_grows fuel u d r r' :
  _crawl_recursive fuel u d r = Some r' → grows (now r) (now r').
Proof.
  apply (crawl_rule (λ r1, grows (now r) (now r1))); [| |done].
  - intros r1 v _ H _ _ _. simpl. etrans; [exact H|].
    etrans; [apply (grows_visit (clean_url v))|apply grows_request].
  - intros r1 v _ p H _ _ _ _. simpl. etrans; [exact H|].
    etrans; [apply (grows_visit (clean_url v))|].
    etrans; [apply (grows_request (clean_url v))|apply grows_append].
Qed.

Lemma crawl_links_grows fuel parent d ls r r' :
  crawl_links fuel parent d ls r = Some r' → grows (now r) (now r').
Proof.
  apply (crawl_links_rule (λ r1, grows (now r) (now r1))); [|done].
  intros v d' r1 r2 H Hc. etrans; [exact H|]. by eapply crawl_grows.
Qed.

(** X13. What [_scrape_page] gives on a document: the title of the document as
    it came, and the content, the metadata and the links of the document
    that [_extract_content] left, in which no [script], [style], [nav],
    [footer], [header] or [aside] element remains; the anchors looked at
    are anchors of the document that came, in their order.  On a failed
    request it gives [None]; the request is logged in both cases. *)
Theorem scrape_page_document u d r :
  match session_get (requests (now r)) u with
  | Document soup =>
      let cleaned := Bs4.decompose_all Extract.non_content_tags soup in
      ∃ p, _scrape_page u d r = (Some p, update (log_request u) r)
        ∧ WebScraper.url p = u ∧ depth p = d
        ∧ title p = Extract._extract_title soup
        ∧ content p = Extract.clean_text (Bs4.get_text cleaned)
        ∧ metadata p = Extract._extract_metadata cleaned
        ∧ links p = _extract_links cleaned u
        ∧ (∀ n, n ∈ Bs4.descendants cleaned →
                Bs4.is_tag_named Extract.non_content_tags n = false)
        ∧ Extract.anchor_hrefs cleaned `sublist_of` Extract.anchor_hrefs soup
  | _ => _scrape_page u d r = (None, update (log_request u) r)
  end.
Proof.
  rewrite scrape_page_eq.
  destruct (session_get _ u) as [| |soup]; [done..|].
  cbv zeta. eexists. split; [done|]. simpl.
  do 6 (split; [done|]). split; [apply decompose_all_descendants|].
  rewrite !anchor_hrefs_labels. apply omap_sublist, decompose_all_labels.
Qed.

(** *** The budget *)

(** X15. With a budget of no page, or a negative depth limit, a session on a
    valid seed returns no page and leaves the scraper as it is after the
    reset: nothing visited, nothing requested. *)
Theorem empty_budget_session r seed u :
  max_pages ≤ 0 ∨ max_depth < 0 →
  normalize_url seed = Ok (Some u) →
  scrape_website r seed = Some (Ok [], fresh).
Proof.
  intros Hb Hn. unfold WebScraper.scrape_website. rewrite Hn.
  unfold WebScraper.enough_fuel. rewrite crawl_recursive_unfold.
  case_bool_decide; [done|]. rewrite bool_decide_true; [done|].
  unfold len. simpl. lia.
Qed.

(** X16. Every state of a session but the last holds fewer than [max_pages]
    pages: once the budget is used up the scraper visits nothing,
    requests nothing and appends nothing. *)
Theorem budget_ends_session r seed pages r' :
  scrape_website r seed = Some (Ok pages, r') →
  Forall (λ s, len s < max_pages) (past r').
Proof.
  intros Hs. apply scrape_website_inv in Hs as [(e & [=] & _)|(u & _ & _ & Hc)].
  revert Hc. apply (crawl_rule (λ r1, Forall (λ s, len s < max_pages) (past r1))).
  - intros r1 v d H _ Hlen _. simpl. by repeat constructor.
  - intros r1 v d p H _ Hlen _ _. simpl. by repeat constructor.
  - constructor.
Qed.

(** *** The history of a session *)

(** X17. The states of a session, newest first: each holds all that the older
    ones hold.  Nothing is taken out of the visited set, the results or
    the requests, and what is added to the lists is added at the end. *)
Theorem session_only_grows r seed pages r' :
  scrape_website r seed = Some (Ok pages, r') →
  StronglySorted (λ newer older, grows older newer) (states r').
Proof.
  intros Hs. apply scrape_website_inv in Hs as [(e & [=] & _)|(u & _ & _ & Hc)].
  revert Hc.
  apply (crawl_rule (λ r1, StronglySorted (λ newer older, grows older newer) (states r1))).
  - intros r1 v d H _ _ _. unfold states in *. simpl.
    pose proof H as H0. apply StronglySorted_inv in H0 as [_ H2].
    assert (Forall (λ older, grows older (add_visited (clean_url v) (now r1)))
              (now r1 :: past r1)) as Hv.
    { constructor; [apply grows_visit|].
      eapply Forall_impl; [exact H2|]. intros s Hg. simpl in Hg.
      etrans; [exact Hg|apply grows_visit]. }
    constructor; [by constructor|].
    constructor; [apply grows_request|].
    eapply Forall_impl; [exact Hv|]. intros s Hg. simpl in Hg.
    etrans; [exact Hg|apply grows_request].
  - intros r1 v d p H _ _ _ _. unfold states in *. simpl.
    pose proof H as H0. apply StronglySorted_inv in H0 as [_ H2].
    assert (Forall (λ older, grows older (add_visited (clean_url v) (now r1)))
              (now r1 :: past r1)) as Hv.
    { constructor; [apply grows_visit|].
      eapply Forall_impl; [exact H2|]. intros s Hg. simpl in Hg.
      etrans; [exact Hg|apply grows_visit]. }
    assert (Forall (λ older, grows older
                      (log_request (clean_url v) (add_visited (clean_url v) (now r1))))
              (add_visited (clean_url v) (now r1) :: now r1 :: past r1)) as Hq.
    { constructor; [apply grows_request|].
      eapply Forall_impl; [exact Hv|]. intros s Hg. simpl in Hg.
      etrans; [exact Hg|apply grows_request]. }
    constructor; [constructor; [by constructor|done]|].
    constructor; [apply grows_append|].
    eapply Forall_impl; [exact Hq|]. intros s Hg. simpl in Hg.
    etrans; [exact Hg|apply grows_append].
  - unfold states. simpl. repeat constructor.
Qed.

Lemma crawl_requests fuel u d r r' :
  visited_urls (now r) = list_to_set (requests (now r)) →
  _crawl_recursive fuel u d r = Some r' →
  visited_urls (now r') = list_to_set (requests (now r')).
Proof.
  apply (crawl_rule (λ r1, visited_urls (now r1) = list_to_set (requests (now r1)))).
  - intros r1 v d' H _ _ _. simpl. rewrite H, list_to_set_app_L. set_solver.
  - intros r1 v d' p H _ _ _ _. simpl. rewrite H, list_to_set_app_L. set_solver.
Qed.

(** X18. When a session ends, the visited URLs are the requested URLs, each
    requested once: the scraper made as many requests as it has visited
    URLs. *)
Theorem visited_are_requested r seed pages r' :
  scrape_website r seed = Some (Ok pages, r') →
  visited_urls (now r') = list_to_set (requests (now r'))
  ∧ NoDup (requests (now r'))
  ∧ size (visited_urls (now r')) = length (requests (now r')).
Proof.
  intros Hs.
  pose proof (session_states_inv _ _ _ _ _ _ _ _ _ Hs) as Hinv.
  apply Forall_cons in Hinv as [[Hnd _ _ _ _ _] _].
  apply scrape_website_inv in Hs as [(e & [=] & _)|(u & _ & _ & Hc)].
  apply crawl_requests in Hc; [|done].
  split; [done|]. split; [done|].
  rewrite Hc. by apply size_list_to_set.
Qed.

End crawl_more.

(** ** The pages of a session *)

Lemma length_le_size (l : list str) (X : gset str) :
  NoDup l → (∀ x, x ∈ l → x ∈ X) → (length l ≤ size X)%nat.
Proof.
  intros Hnd Hin. rewrite <- (size_list_to_set (C := gset str) l Hnd).
  apply subseteq_size. intros x. rewrite elem_of_list_to_set. apply Hin.
Qed.

Lemma foldl_max_spec (l : list Z) (x : Z) :
  x ≤ foldl Z.max x l
  ∧ Forall (λ y, y ≤ foldl Z.max x l) l
  ∧ (foldl Z.max x l = x ∨ foldl Z.max x l ∈ l).
Proof.
  revert x. induction l as [|y l IH]; intros x; simpl.
  { split; [lia|]. split; [constructor|by left]. }
  destruct (IH (x `max` y)) as (H1 & H2 & H3).
  split; [lia|]. split; [constructor; [lia|done]|].
  destruct H3 as [H3|H3]; [|right; by right].
  destruct (Z.max_spec x y) as [[_ E]|[_ E]]; rewrite E in *.
  - right. rewrite H3. by left.
  - by left.
Qed.

Lemma max_default_spec (l : list Z) (d : Z) :
  match l with
  | [] => max_default l d = d
  | _ => max_default l d ∈ l ∧ Forall (λ y, y ≤ max_default l d) l
  end.
Proof.
  destruct l as [|x l]; [done|]. unfold max_default.
  destruct (foldl_max_spec l x) as (H1 & H2 & H3).
  split; [|by constructor].
  destruct H3 as [->|H3]; [by left|by right].
Qed.

Lemma sum_nonneg (l : list Z) : Forall (λ x, 0 ≤ x) l → 0 ≤ sum l.
Proof.
  unfold sum. assert (∀ a, 0 ≤ a → Forall (λ x, 0 ≤ x) l → 0 ≤ foldl Z.add a l) as H.
  { induction l as [|x l IH]; intros a Ha Hl; simpl; [done|].
    apply Forall_cons in Hl as [Hx Hl]. apply IH; [lia|done]. }
  by apply H.
Qed.

Lemma list_to_set_constant {A} `{Countable A} (l : list A) (x : A) :
  l ≠ [] → Forall (λ y, y = x) l → list_to_set (C := gset A) l = {[x]}.
Proof.
  intros Hne Hl. apply set_eq. intros y.
  rewrite elem_of_list_to_set, elem_of_singleton. split.
  - intros Hy. by eapply Forall_forall in Hl.
  - intros ->. destruct l as [|z l]; [done|].
    apply Forall_cons in Hl as [-> _]. by left.
Qed.

Section pages_more.

Variables max_depth max_pages : Z.
Variable validators_url : str → bool.
Variable chk : str → bool.
Variable session_get : list str → str → response.

Local Abbreviation _crawl_recursive :=
  (WebScraper._crawl_recursive max_depth max_pages validators_url chk session_get).
Local Abbreviation crawl_links :=
  (WebScraper.crawl_links max_depth max_pages validators_url chk session_get).
Local Abbreviation _scrape_page :=
  (WebScraper._scrape_page validators_url chk session_get).
Local Abbreviation scrape_website :=
  (WebScraper.scrape_website max_depth max_pages validators_url chk session_get).
Local Abbreviation normalize_url := (WebScraper.normalize_url validators_url chk).
Local Abbreviation is_same_domain := (WebScraper.is_same_domain chk).
Local Abbreviation _extract_links := (WebScraper._extract_links validators_url chk).
Local Abbreviation inv := (session_inv max_depth max_pages session_get).
Local Abbreviation fetching u r :=
  (update (log_request (clean_url u)) (update (add_visited (clean_url u)) r)).
Local Abbreviation distinct s :=
  (NoDup (WebScraper.url <$> scraped_pages s)
   ∧ ∀ p, p ∈ scraped_pages s → WebScraper.url p ∈ visited_urls s).

Lemma scrape_page_some u d r p r1 :
  _scrape_page u d r = (Some p, r1) → WebScraper.url p = u ∧ depth p = d.
Proof.
  rewrite scrape_page_eq. destruct (session_get _ u); try done.
  by intros [= <- _].
Qed.

Lemma crawl_distinct fuel u d r r' :
  Forall (λ s, distinct s) (states r) →
  _crawl_recursive fuel u d r = Some r' →
  Forall (λ s, distinct s) (states r').
Proof.
  apply (crawl_rule _ _ _ _ _ (λ r1, Forall (λ s, distinct s) (states r1))).
  - intros r1 v d' H _ _ _. unfold states in *. simpl.
    pose proof H as H0. apply Forall_cons in H0 as [[H1 H2] _].
    assert (distinct (add_visited (clean_url v) (now r1))) as Hv.
    { split; [done|]. simpl. set_solver. }
    constructor; [done|]. by constructor.
  - intros r1 v d' p H _ _ Hnew Hp. unfold states in *. simpl.
    apply scrape_page_some in Hp as [Hu _].
    pose proof H as H0. apply Forall_cons in H0 as [[H1 H2] _].
    assert (distinct (add_visited (clean_url v) (now r1))) as Hv.
    { split; [done|]. simpl. set_solver. }
    constructor; [|constructor; [done|by constructor]].
    split; simpl.
    + rewrite fmap_app. apply NoDup_app. split; [done|].
      split; [|apply NoDup_singleton].
      intros x Hx. rewrite fmap_cons, list_elem_of_singleton. intros ->.
      apply list_elem_of_fmap in Hx as (q & Hq & Hin).
      apply Hnew. rewrite <- Hu, Hq. by apply H2.
    + intros q. rewrite elem_of_app, list_elem_of_singleton.
      intros [Hq| ->]; [set_solver|]. rewrite Hu. set_solver.
Qed.

(** X19. In every state of a session the pages of the results have distinct
    URLs: no page is scraped twice. *)
Theorem page_urls_distinct r seed pages r' :
  scrape_website r seed = Some (Ok pages, r') →
  NoDup (WebScraper.url <$> pages)
  ∧ ∀ s, s ∈ states r' → NoDup (WebScraper.url <$> scraped_pages s).
Proof.
  intros Hs. apply scrape_website_inv in Hs as [(e & [=] & _)|(u & _ & [= ->] & Hc)].
  assert (Forall (λ s, distinct s) (states r')) as Hall.
  { eapply crawl_distinct; [|exact Hc]. unfold states. simpl.
    constructor; [|constructor]. split; [constructor|]. set_solver. }
  rewrite Forall_forall in Hall. split.
  - apply (Hall (now r')). by left.
  - intros s Hin. by apply Hall.
Qed.

(** *** Pages are extractions of the documents received *)

Local Abbreviation extraction requests_made p :=
  (∃ before later soup,
     requests_made = before ++ WebScraper.url p :: later
     ∧ session_get before (WebScraper.url p) = Document soup
     ∧ title p = Extract._extract_title soup
     ∧ content p = (Extract._extract_content soup).1
     ∧ metadata p = Extract._extract_metadata (Extract._extract_content soup).2
     ∧ links p = _extract_links (Extract._extract_content soup).2 (WebScraper.url p)).

Lemma crawl_extractions fuel u d r r' :
  (∀ p, p ∈ scraped_pages (now r) → extraction (requests (now r)) p) →
  _crawl_recursive fuel u d r = Some r' →
  ∀ p, p ∈ scraped_pages (now r') → extraction (requests (now r')) p.
Proof.
  apply (crawl_rule _ _ _ _ _
           (λ r1, ∀ p, p ∈ scraped_pages (now r1) → extraction (requests (now r1)) p)).
  - intros r1 v d' H _ _ _ p Hp. simpl in *.
    destruct (H p Hp) as (b & l & soup & -> & Hrest).
    exists b, (l ++ [clean_url v]), soup. by rewrite <- app_assoc.
  - intros r1 v d' p H _ _ _ Hpage q. simpl.
    rewrite elem_of_app, list_elem_of_singleton. intros [Hq| ->].
    + destruct (H q Hq) as (b & l & soup & -> & Hrest).
      exists b, (l ++ [clean_url v]), soup. by rewrite <- app_assoc.
    + rewrite scrape_page_eq in Hpage. simpl in Hpage.
      destruct (session_get (requests (now r1)) (clean_url v)) as [| |soup] eqn:Hget;
        [done..|].
      injection Hpage as <-. simpl.
      exists (requests (now r1)), [], soup. done.
Qed.

(** X14. Every page of the results is the extraction of the document that the
    request of its URL gave: its title, content, metadata and links are
    those of [_extract_title], [_extract_content], [_extract_metadata]
    and [_extract_links] on that document, and every one of its links is
    a valid URL. *)
Theorem results_are_extractions r seed pages r' p :
  scrape_website r seed = Some (Ok pages, r') →
  p ∈ pages →
  (∃ before later soup,
     requests (now r') = before ++ WebScraper.url p :: later
     ∧ session_get before (WebScraper.url p) = Document soup
     ∧ title p = Extract._extract_title soup
     ∧ content p = (Extract._extract_content soup).1
     ∧ metadata p = Extract._extract_metadata (Extract._extract_content soup).2
     ∧ links p = _extract_links (Extract._extract_content soup).2 (WebScraper.url p))
  ∧ NoDup (links p)
  ∧ ∀ link, link ∈ links p →
      URLValidator.is_valid_url validators_url chk link = Ok true.
Proof.
  intros Hs Hp.
  apply scrape_website_inv in Hs as [(e & [=] & _)|(u & _ & [= ->] & Hc)].
  assert (∀ q, q ∈ scraped_pages (now fresh) → extraction (requests (now fresh)) q)
    as Hfresh by (by intros ? ?%elem_of_nil).
  pose proof (crawl_extractions _ _ _ _ _ Hfresh Hc p Hp)
    as (b & l & soup & Hreq & Hget & Ht & Hcn & Hm & Hl).
  split; [by exists b, l, soup|]. rewrite Hl. split.
  - unfold WebScraper._extract_links.
    rewrite extract_links_first_occurrences.
    by destruct (first_occurrences_from_spec
                   (omap (Spec.resolve validators_url chk (WebScraper.url p))
                      (Extract.anchor_hrefs (Extract._extract_content soup).2)) [])
      as [? _].
  - intros link Hin. by eapply extract_links_valid.
Qed.

(** *** Pages are reached from the seed *)

Lemma reached_append root (pages : list ScrapedPage) p :
  reached chk root pages →
  0 ≤ depth p →
  (pages = [] ∧ depth p = 0 ∧ WebScraper.url p = clean_url root
   ∨ ∃ (j : nat) q, pages !! j = Some q ∧ linked_from chk q p) →
  reached chk root (pages ++ [p]).
Proof.
  intros Hr Hd Ho i p' Hi.
  destruct (decide (i < length pages)%nat) as [Hlt|Hge].
  - rewrite lookup_app_l in Hi by done.
    destruct (Hr i p' Hi) as [H0 [?|(j & q & Hj & Hq & Hl)]]; (split; [done|]).
    + by left.
    + right. exists j, q. split; [done|]. split; [|done].
      by apply lookup_app_l_Some.
  - rewrite lookup_app_r in Hi by lia.
    destruct (i - length pages)%nat as [|k] eqn:Hk; [|by destruct k].
    injection Hi as <-. split; [done|].
    destruct Ho as [(-> & H0 & Hu)|(j & q & Hq & Hl)].
    + left. simpl in *. split; [lia|done].
    + right. exists j, q. apply lookup_lt_Some in Hq as Hj.
      split; [lia|]. split; [by apply lookup_app_l_Some|done].
Qed.

Lemma crawl_links_reached root fuel :
  (∀ u d r r',
     reached chk root (scraped_pages (now r)) → 0 ≤ d →
     (scraped_pages (now r) = [] ∧ d = 0 ∧ u = root
      ∨ ∃ (j : nat) q, scraped_pages (now r) !! j = Some q
          ∧ depth q + 1 = d ∧ u ∈ links q
          ∧ is_same_domain (WebScraper.url q) u = true) →
     _crawl_recursive fuel u d r = Some r' →
     reached chk root (scraped_pages (now r'))) →
  ∀ (n : nat) p ls r r',
    reached chk root (scraped_pages (now r)) →
    scraped_pages (now r) !! n = Some p → 0 ≤ depth p →
    (∀ link, link ∈ ls → link ∈ links p) →
    crawl_links fuel (WebScraper.url p) (depth p) ls r = Some r' →
    reached chk root (scraped_pages (now r')).
Proof.
  intros IH n p ls. induction ls as [|link ls IHl]; intros r r' Hr Hp Hd Hsub.
  { simpl. by intros [= <-]. }
  rewrite crawl_links_cons. case_bool_decide; [by intros [= <-]|].
  destruct (is_same_domain (WebScraper.url p) link) eqn:Hsame.
  - destruct (_crawl_recursive fuel link (depth p + 1) r) as [r1|] eqn:Hrec; [|done].
    simpl. apply IHl; [| |done|set_solver].
    + apply (IH link (depth p + 1) r r1); [done|lia| |done].
      right. exists n, p. split; [done|]. split; [done|].
      split; [apply Hsub; by left|done].
    + apply crawl_grows in Hrec as (_ & Hpre & _).
      by eapply prefix_lookup_Some.
  - apply IHl; [done|done|done|set_solver].
Qed.

Lemma crawl_reached root fuel u d r r' :
  reached chk root (scraped_pages (now r)) →
  0 ≤ d →
  (scraped_pages (now r) = [] ∧ d = 0 ∧ u = root
   ∨ ∃ (j : nat) q, scraped_pages (now r) !! j = Some q
       ∧ depth q + 1 = d ∧ u ∈ links q
       ∧ is_same_domain (WebScraper.url q) u = true) →
  _crawl_recursive fuel u d r = Some r' →
  reached chk root (scraped_pages (now r')).
Proof.
  revert u d r r'. induction fuel as [|fuel IH]; intros u d r r' Hr Hd Ho; [done|].
  rewrite crawl_recursive_unfold.
  case_bool_decide; [by intros [= <-]|].
  case_bool_decide; [by intros [= <-]|].
  case_bool_decide; [by intros [= <-]|].
  destruct (_scrape_page _ _ _) as [res r1] eqn:Hpage.
  assert (r1 = fetching u r) as ->.
  { rewrite scrape_page_eq in Hpage. by injection Hpage as _ <-. }
  destruct res as [p|]; [|by intros [= <-]].
  apply scrape_page_some in Hpage as [Hu Hdp].
  rewrite <- Hu, <- Hdp.
  apply (crawl_links_reached root fuel IH (length (scraped_pages (now r))) p).
  - simpl. apply reached_append; [done|lia|].
    destruct Ho as [(E & -> & ->)|(j & q & Hq & Hdq & Hin & Hsame)].
    + left. by rewrite Hu.
    + right. exists j, q. split; [done|]. split; [lia|].
      exists u. by rewrite Hu.
  - simpl. by rewrite lookup_app_r, Nat.sub_diag.
  - lia.
  - done.
Qed.

(** X20. Every page of the results was reached from the seed.  The first page
    is the page of the normalized and cleaned seed, at depth 0; every
    other page stands after a page one level above it, one of whose
    same-domain links, cleaned, is its URL.  So no depth is negative, and
    the depth of a page is the length of a chain of links from the seed
    to it. *)
Theorem pages_reached_from_seed r seed u pages r' :
  normalize_url seed = Ok (Some u) →
  scrape_website r seed = Some (Ok pages, r') →
  reached chk u pages.
Proof.
  intros Hn Hs.
  apply scrape_website_inv in Hs as [(e & [=] & _)|(u' & Hn' & [= ->] & Hc)].
  rewrite Hn in Hn'. injection Hn' as <-.
  apply (crawl_reached u (WebScraper.enough_fuel max_depth 0) u 0 fresh r');
    [|done|by left|done].
  by intros i p Hi.
Qed.

(** *** The seed *)

(** X21. With room for a page ([max_depth] at least 0, [max_pages] at least
    1) the first request of a session is the cleaned seed.  When that
    request gives a document, the first page of the results is the seed
    page, at depth 0; when it fails, the session ends there: no page,
    one request, one visited URL. *)
Theorem seed_page_first r seed u pages r' :
  0 ≤ max_depth → 0 < max_pages →
  normalize_url seed = Ok (Some u) →
  scrape_website r seed = Some (Ok pages, r') →
  head (requests (now r')) = Some (clean_url u)
  ∧ clean_url u ∈ visited_urls (now r')
  ∧ match session_get [] (clean_url u) with
    | Document soup =>
        ∃ p, head pages = Some p
             ∧ WebScraper.url p = clean_url u ∧ depth p = 0
             ∧ title p = Extract._extract_title soup
             ∧ content p = (Extract._extract_content soup).1
    | _ =>
        pages = [] ∧ requests (now r') = [clean_url u]
        ∧ visited_urls (now r') = {[clean_url u]}
    end.
Proof.
  intros Hd Hp Hn Hs.
  apply scrape_website_inv in Hs as [(e & [=] & _)|(u' & Hn' & [= ->] & Hc)].
  rewrite Hn in Hn'. injection Hn' as <-.
  unfold WebScraper.enough_fuel in Hc. rewrite crawl_recursive_unfold in Hc.
  rewrite bool_decide_false in Hc by lia.
  rewrite bool_decide_false in Hc by (unfold len; simpl; lia).
  rewrite bool_decide_false in Hc by set_solver.
  rewrite scrape_page_eq in Hc. simpl in Hc.
  destruct (session_get [] (clean_url u)) as [| |soup].
  - injection Hc as <-. simpl. split; [done|]. split; [set_solver|].
    split; [done|]. split; [done|]. set_solver.
  - injection Hc as <-. simpl. split; [done|]. split; [set_solver|].
    split; [done|]. split; [done|]. set_solver.
  - apply crawl_links_grows in Hc as (Hv & [k1 Hk1] & [k2 Hk2]). simpl in *.
    rewrite Hk1, Hk2. simpl. split; [done|]. split; [set_solver|].
    eexists. split; [done|]. done.
Qed.

(** *** The summary *)

(** X22. The summary of a session: [total_pages] is the number of pages
    returned, at most [total_urls_visited], which is the number of
    requests made, and at most [max_pages]; [max_depth_reached] is the
    depth of one of the pages, the greatest, between 0 and [max_depth],
    and 0 when there is no page; [total_content_length] is not
    negative. *)
Theorem scrape_summary_bounds r seed pages r' :
  scrape_website r seed = Some (Ok pages, r') →
  let summary := get_scrape_summary chk (now r') in
  total_pages summary = Z.of_nat (length pages)
  ∧ total_pages summary ≤ total_urls_visited summary
  ∧ total_urls_visited summary = Z.of_nat (length (requests (now r')))
  ∧ (0 ≤ max_pages → total_pages summary ≤ max_pages)
  ∧ 0 ≤ max_depth_reached summary
  ∧ match pages with
    | [] => max_depth_reached summary = 0
    | _ => max_depth_reached summary ≤ max_depth
           ∧ (∃ p, p ∈ pages ∧ depth p = max_depth_reached summary)
           ∧ ∀ p, p ∈ pages → depth p ≤ max_depth_reached summary
    end
  ∧ 0 ≤ total_content_length summary.
Proof.
  intros Hs. cbv zeta.
  pose proof (session_states_inv _ _ _ _ _ _ _ _ _ Hs) as Hinv.
  apply Forall_cons in Hinv as [[Hreq _ Hvis _ Hbudget Hdepth] _].
  apply scrape_website_inv in Hs as [(e & [=] & _)|(u & Hn & [= ->] & Hc)].
  assert (NoDup (WebScraper.url <$> scraped_pages (now r'))) as Hnd.
  { eapply crawl_distinct in Hc as Hall.
    - apply Forall_cons in Hall as [[? _] _]. done.
    - unfold states. simpl. constructor; [|constructor].
      split; [constructor|]. set_solver. }
  assert (reached chk u (scraped_pages (now r'))) as Hreach.
  { apply (crawl_reached u (WebScraper.enough_fuel max_depth 0) u 0 fresh r');
      [|done|by left|done]. by intros i p Hi. }
  assert (size (visited_urls (now r')) = length (requests (now r'))) as Hsize.
  { apply crawl_requests in Hc as ->; [|done]. by apply size_list_to_set. }
  unfold get_scrape_summary. simpl.
  split; [done|]. split.
  { apply inj_le. rewrite <- (length_fmap WebScraper.url).
    apply length_le_size; [done|].
    intros x Hx. apply list_elem_of_fmap in Hx as (p & -> & Hp). by apply Hvis. }
  split; [by rewrite Hsize|]. split; [exact Hbudget|].
  pose proof (max_default_spec (depth <$> scraped_pages (now r')) 0) as Hmax.
  destruct (scraped_pages (now r')) as [|p0 ps] eqn:Hps.
  { simpl in *. split; [lia|]. split; [done|]. done. }
  rewrite <- Hps in *.
  destruct (depth <$> scraped_pages (now r')) as [|x l] eqn:Hds.
  { rewrite Hps in Hds. done. }
  rewrite <- Hds in *. destruct Hmax as [Hin Hall].
  apply list_elem_of_fmap in Hin as (pm & Hpm & Hin).
  split.
  { rewrite Hpm. apply list_elem_of_lookup in Hin as [i Hi].
    by destruct (Hreach i pm Hi) as [? _]. }
  split.
  { split; [rewrite Hpm; by apply Hdepth|].
    split; [by exists pm|].
    intros p Hp. rewrite Forall_forall in Hall. apply Hall.
    apply list_elem_of_fmap. by exists p. }
  apply sum_nonneg, Forall_forall. intros x' Hx'.
  apply list_elem_of_fmap in Hx' as (p & -> & _). lia.
Qed.

End pages_more.

(** ** The seed, the summary and the trailing slash *)

(** X6. [clean_url] takes a URL with a slash at its end and the same URL
    without it for one, as soon as the URL holds three slashes (the two
    after the scheme and one more); below that the slash stays, so an
    origin with and without its final slash are two URLs for the
    crawl. *)
Theorem clean_url_trailing_slash u :
  strip u = u → endswith u (py "/") = false →
  URLValidator.clean_url u = u
  ∧ URLValidator.clean_url (u ++ py "/")
    = if bool_decide (3 ≤ count "/"%char u) then u else u ++ py "/".
Proof.
  intros Hs He.
  assert (strip (u ++ py "/") = u ++ py "/") as Hs'.
  { apply strip_by_edges_id. intros c [Hc|Hc].
    - destruct u as [|a u'].
      + injection Hc as <-. by vm_compute.
      + injection Hc as <-. apply (strip_by_edges isspace (a :: u')).
        left. fold (strip (a :: u')). by rewrite Hs.
    - change (py "/") with ["/"%char] in Hc. rewrite last_snoc in Hc.
      injection Hc as <-. by vm_compute. }
  unfold URLValidator.clean_url. rewrite Hs, Hs', He. cbn [andb].
  split; [done|].
  assert (endswith (u ++ py "/") (py "/") = true) as ->.
  { apply bool_decide_eq_true. by exists u. }
  cbn [andb]. rewrite count_app. change (count "/"%char (py "/")) with 1.
  repeat case_bool_decide; try lia; [|done].
  rewrite length_app. change (length (py "/")) with 1%nat.
  replace (length u + 1 - 1)%nat with (length u) by lia.
  by rewrite take_app_length.
Qed.

Section compose_more.

Variables max_depth max_pages : Z.
Variable validators_url : str → bool.
Variable chk : str → bool.
Variable session_get : list str → str → response.

(** [validators.url] rejects a string with leading or trailing white space. *)
Hypothesis validators_url_stripped :
  ∀ s, validators_url s = true → strip s = s.

Local Abbreviation scrape_website :=
  (WebScraper.scrape_website max_depth max_pages validators_url chk session_get).
Local Abbreviation normalize_url := (WebScraper.normalize_url validators_url chk).

Lemma normalize_url_again u r :
  normalize_url u = Ok (Some r) → normalize_url r = Ok (Some r).
Proof.
  intros Hn.
  destruct (normalize_url_parts _ _ _ _ Hn)
    as (sch & N & P & Q & -> & Hsch & HN & Hparse & _ & Hvalid & _).
  destruct (is_valid_url_true _ _ _ Hvalid) as (Hv & _).
  destruct (rebuild_prefixed sch N P Q Hsch) as [Hne Hpre].
  unfold WebScraper.normalize_url, URLValidator.normalize_url.
  rewrite bool_decide_false by done.
  rewrite (validators_url_stripped _ Hv), Hpre.
  unfold URLValidator.urlparse. rewrite Hparse. simpl.
  change (URLValidator.is_valid_url validators_url chk (rebuild sch N P Q)
          ≫= (λ valid : bool,
                if valid then Ok (Some (rebuild sch N P Q)) else Ok None)
          = Ok (Some (rebuild sch N P Q))).
  by rewrite Hvalid.
Qed.

(** X24. A session on a normalized URL is the session on the URL it was
    normalized from: [scrape_website], which normalizes its argument
    again, does not raise on it and crawls from the same seed, with the
    same result. *)
Theorem normalized_seed_accepted r seed u :
  normalize_url seed = Ok (Some u) →
  scrape_website r u = scrape_website r seed
  ∧ ∃ pages r', scrape_website r u = Some (Ok pages, r').
Proof.
  intros Hn. pose proof (normalize_url_again _ _ Hn) as Hu.
  destruct (scrape_website_returns max_depth max_pages validators_url chk
              session_get r seed u Hn) as (r' & Hs & _).
  assert (scrape_website r u = scrape_website r seed) as Heq.
  { unfold WebScraper.scrape_website.
    fold normalize_url. by rewrite Hn, Hu. }
  split; [done|]. exists (scraped_pages (now r')), r'. by rewrite Heq.
Qed.

(** X23. The summary of a session counts one domain when the session has
    pages, and none when it has not. *)
Theorem summary_unique_domains r seed pages r' :
  scrape_website r seed = Some (Ok pages, r') →
  unique_domains (get_scrape_summary chk (now r'))
  = match pages with [] => 0 | _ => 1 end.
Proof.
  intros Hs.
  destruct (session_url_invariant _ _ _ _ _ validators_url_stripped _ _ _ _ Hs)
    as (u & host & _ & _ & Hall).
  apply scrape_website_inv in Hs as [(e & [=] & _)|(u' & _ & [= ->] & _)].
  unfold get_scrape_summary. simpl.
  destruct (scraped_pages (now r')) as [|p ps] eqn:Hps; [done|].
  rewrite (list_to_set_constant _ (Some host)); [by rewrite size_singleton|done|].
  apply Forall_forall. intros d Hd.
  apply list_elem_of_fmap in Hd as (q & -> & Hq).
  apply (Hall (now r') (WebScraper.url q)); [by left|].
  right. exists q. by rewrite Hps.
Qed.

End compose_more.

(** ** Well-formed URLs: what the validator computes *)

Lemma split_fragment_at a f :
  Forall (λ c, c ≠ "#"%char) a → split_fragment (a ++ "#"%char :: f) = (a, f).
Proof.
  intros Ha. unfold split_fragment.
  replace (contains "#"%char (a ++ "#"%char :: f)) with true.
  - by apply split1_at.
  - symmetry. unfold contains. apply bool_decide_eq_true. set_solver.
Qed.

Section exact.

Variable validators_url : str → bool.
Variable chk : str → bool.

Local Abbreviation is_valid_url := (URLValidator.is_valid_url validators_url chk).
Local Abbreviation normalize_url := (URLValidator.normalize_url validators_url chk).
Local Abbreviation get_domain := (URLValidator.get_domain chk).
Local Abbreviation is_same_domain := (URLValidator.is_same_domain chk).
Local Abbreviation make_absolute_url :=
  (URLValidator.make_absolute_url validators_url chk).

Lemma urlsplit_compose_fragment sch N P Q F dflt :
  wellformed chk sch N P Q → Forall safe F →
  urlsplit chk (rebuild sch N P Q ++ fragment_suffix F) dflt
  = Ok (mkSplit sch N P Q F).
Proof.
  intros (Hsch & _ & HN & Hinv & HP & HP' & HQ & Hsafe) HF.
  rewrite rebuild_alt.
  destruct (http_schemes_shape sch Hsch) as (s & Hs & Hssafe).
  set (optq := if bool_decide (Q = []) then [] else "?"%char :: Q).
  set (optf := fragment_suffix F).
  rewrite <- app_assoc. cbn [app]. rewrite <- !app_assoc.
  apply Forall_app in Hsafe as [HsN Hsafe]. apply Forall_app in Hsafe as [HsP HsQ].
  assert (Forall safe optq) as Hsq.
  { unfold optq. case_bool_decide; [constructor|].
    constructor; [|done]. apply (bool_decide_unpack _); by vm_compute. }
  assert (Forall safe optf) as Hsf.
  { unfold optf, fragment_suffix. case_bool_decide; [constructor|].
    constructor; [|done]. apply (bool_decide_unpack _); by vm_compute. }
  assert (Forall (λ c, c ≠ "#"%char) (P ++ optq)) as Hnofrag.
  { apply Forall_app. split.
    - eapply Forall_impl; [exact HP'|]. naive_solver.
    - unfold optq. case_bool_decide; [constructor|]. by constructor. }
  assert (break netloc_delim (N ++ P ++ optq ++ optf) = (N, P ++ optq ++ optf)) as Hbr.
  { destruct HP as [->|[p ->]]; simpl.
    - unfold optq. case_bool_decide.
      + simpl. unfold optf, fragment_suffix. case_bool_decide.
        * rewrite app_nil_r. by apply break_none.
        * by apply break_at.
      + by apply break_at.
    - by apply break_at. }
  unfold urlsplit.
  replace (lstrip_by c0_control_or_space (sch ++ _)) with
    (sch ++ ":"%char :: "/"%char :: "/"%char :: N ++ P ++ optq ++ optf)
    by (by rewrite Hs).
  rewrite (remove_unsafe_id (sch ++ _)).
  2:{ apply Forall_app. split; [done|].
      do 3 (constructor; [apply (bool_decide_unpack _); by vm_compute|]).
      by rewrite !Forall_app. }
  rewrite split_scheme_http by done.
  rewrite bool_decide_true by reflexivity.
  unfold splitnetloc.
  replace (drop 2 (_ :: _ :: N ++ P ++ optq ++ optf)) with (N ++ P ++ optq ++ optf)
    by reflexivity.
  rewrite Hbr, Hinv. simpl.
  assert (split_fragment (P ++ optq ++ optf) = (P ++ optq, F)) as ->.
  { unfold optf, fragment_suffix. case_bool_decide as HFe.
    - subst F. rewrite !app_nil_r. by apply split_fragment_none.
    - rewrite app_assoc. by apply split_fragment_at. }
  assert (split_query (P ++ optq) = (P, Q)) as ->; [|done].
  unfold optq. case_bool_decide as HQe.
  - subst Q. rewrite app_nil_r. apply split_query_none.
    eapply Forall_impl; [exact HP'|]. naive_solver.
  - apply split_query_at. eapply Forall_impl; [exact HP'|]. naive_solver.
Qed.

Lemma urlparse_compose_fragment sch N P Q F dflt :
  wellformed chk sch N P Q → Forall safe F →
  urlparse chk (rebuild sch N P Q ++ fragment_suffix F) dflt
  = Ok (mkParse sch N (path_of sch P).1 (path_of sch P).2 Q F).
Proof.
  intros Hw HF. rewrite urlparse_unfold.
  by rewrite (urlsplit_compose_fragment _ _ _ _ _ _ Hw HF).
Qed.

(** The path without its parameters is well-formed too. *)
Lemma wellformed_path sch N P Q :
  wellformed chk sch N P Q → wellformed chk sch N (path_of sch P).1 Q.
Proof.
  intros (Hsch & HNe & HN & Hinv & HP & HP' & HQ & Hsafe).
  destruct (path_of_spec sch P) as (t & Ht & _).
  set (P' := (path_of sch P).1) in *.
  split; [done|]. split; [done|]. split; [done|]. split; [done|].
  split.
  { destruct HP as [->|[p Hp]].
    - left. symmetry in Ht. by apply app_eq_nil in Ht as [? _].
    - destruct P' as [|c P'']; [by left|right].
      rewrite Hp in Ht. injection Ht as <- _. by eexists. }
  rewrite Ht in HP', Hsafe. apply Forall_app in HP' as [HP' _].
  split; [done|]. split; [done|].
  rewrite !Forall_app in Hsafe. rewrite !Forall_app. naive_solver.
Qed.

Lemma is_valid_url_wellformed sch N P Q :
  wellformed chk sch N P Q → path_of sch P = (P, []) →
  is_valid_url (rebuild sch N P Q) = Ok (validators_url (rebuild sch N P Q)).
Proof.
  intros Hw Hpath. pose proof Hw as (Hsch & HNe & HN & Hinv & HP & HP' & HQ & Hsafe).
  unfold URLValidator.is_valid_url.
  destruct (rebuild_prefixed sch N P Q Hsch) as [Hne _].
  rewrite bool_decide_false by done.
  destruct (validators_url _); [|done]. cbn [negb].
  unfold URLValidator.urlparse. rewrite urlparse_compose by done. simpl.
  rewrite bool_decide_true by done. cbn [negb].
  by rewrite bool_decide_false.
Qed.

(** X25. [normalize_url] on a well-formed URL.  Given a trimmed URL, with or
    without its scheme, that is made of a scheme, a network location, a
    path, a query and maybe a fragment, [normalize_url] asks
    [validators.url] about the URL made of the scheme ([https] when
    there was none), the network location, the path without the
    parameters of its last segment, and the query; it returns that URL
    when the answer is yes and [None] when it is no. *)
Theorem normalize_url_exact u sch N P Q F :
  wellformed chk sch N P Q → Forall safe F →
  u ≠ [] → strip u = u →
  with_scheme u = rebuild sch N P Q ++ fragment_suffix F →
  normalize_url u
  = Ok (if validators_url (rebuild sch N (path_of sch P).1 Q)
        then Some (rebuild sch N (path_of sch P).1 Q) else None).
Proof.
  intros Hw HF Hne Hs Hu.
  unfold URLValidator.normalize_url. rewrite bool_decide_false by done.
  rewrite Hs. fold (with_scheme u). rewrite Hu.
  unfold URLValidator.urlparse.
  rewrite (urlparse_compose_fragment _ _ _ _ _ _ Hw HF). simpl.
  change (is_valid_url (rebuild sch N (path_of sch P).1 Q)
          ≫= (λ valid : bool,
                if valid then Ok (Some (rebuild sch N (path_of sch P).1 Q))
                else Ok None)
          = Ok (if validators_url (rebuild sch N (path_of sch P).1 Q)
                then Some (rebuild sch N (path_of sch P).1 Q) else None)).
  rewrite is_valid_url_wellformed.
  - simpl. by destruct (validators_url _).
  - by apply wellformed_path.
  - by destruct (path_of_spec sch P) as (t & _ & ?).
Qed.

Lemma get_domain_wellformed sch N P Q :
  wellformed chk sch N P Q → get_domain (rebuild sch N P Q) = Some N.
Proof.
  intros Hw. pose proof Hw as (_ & HNe & _).
  unfold URLValidator.get_domain, URLValidator.urlparse.
  pose proof (urlparse_compose_fragment sch N P Q [] [] Hw ltac:(constructor)) as Hp.
  unfold fragment_suffix in Hp. rewrite bool_decide_true, app_nil_r in Hp by done.
  rewrite Hp. simpl. by rewrite bool_decide_false.
Qed.

(** X26. Two well-formed HTTP(S) URLs are in the same domain exactly when
    their network locations are the same string: the scheme, the path
    and the query play no part; the port, the user name and the case of
    the letters do. *)
Theorem is_same_domain_netloc sch1 N1 P1 Q1 sch2 N2 P2 Q2 :
  wellformed chk sch1 N1 P1 Q1 → wellformed chk sch2 N2 P2 Q2 →
  get_domain (rebuild sch1 N1 P1 Q1) = Some N1
  ∧ is_same_domain (rebuild sch1 N1 P1 Q1) (rebuild sch2 N2 P2 Q2)
    = bool_decide (N1 = N2).
Proof.
  intros H1 H2. split; [by apply get_domain_wellformed|].
  unfold URLValidator.is_same_domain.
  by rewrite !get_domain_wellformed.
Qed.

(** *** Root-relative references *)

Lemma split_nonempty c (s : str) : split c s ≠ [].
Proof.
  destruct s as [|d s]; [done|]. simpl. case_bool_decide; [done|].
  by destruct (split c s).
Qed.

Lemma join_split c (s : str) : join [c] (split c s) = s.
Proof.
  induction s as [|d s IH]; [done|]. simpl split.
  destruct (split c s) as [|seg segs] eqn:E; [by apply split_nonempty in E|].
  case_bool_decide as Hd.
  - subst d.
    change (join [c] ([] :: seg :: segs)) with (c :: join [c] (seg :: segs)).
    by rewrite IH.
  - destruct segs as [|seg' segs].
    + simpl in *. by rewrite IH.
    + change (join [c] ((d :: seg) :: seg' :: segs))
        with (d :: join [c] (seg :: seg' :: segs)).
      by rewrite IH.
Qed.

Lemma resolve_segments_plain (segments resolved : list str) :
  Forall (λ seg, seg ≠ py "." ∧ seg ≠ py "..") segments →
  resolve_segments resolved segments = resolved ++ segments.
Proof.
  intros Hs. revert resolved.
  induction Hs as [|seg segments [H1 H2] _ IH]; intros resolved; simpl.
  { by rewrite app_nil_r. }
  rewrite !bool_decide_false by done. by rewrite IH, <- app_assoc.
Qed.

Lemma split_scheme_slash dflt (x : str) :
  split_scheme dflt ("/"%char :: x) = (dflt, "/"%char :: x).
Proof.
  unfold split_scheme. cbn [break].
  change (is_char ":"%char "/"%char) with false. cbv iota.
  destruct (break (is_char ":"%char) x) as [a b].
  by destruct b.
Qed.

Lemma urlparse_root_relative sch (p : str) :
  sch ∈ URLValidator.http_schemes → plain_path p →
  urlparse chk ("/"%char :: p) sch = Ok (mkParse sch [] ("/"%char :: p) [] [] []).
Proof.
  intros Hsch (Hsafe & Hchars & Hslash & _).
  assert (Forall safe ("/"%char :: p)) as Hsafe'.
  { constructor; [|done]. apply (bool_decide_unpack _); by vm_compute. }
  assert (remove_unsafe (strip_by c0_control_or_space sch) = sch) as Hsch'.
  { unfold URLValidator.http_schemes in Hsch.
    rewrite !elem_of_cons, elem_of_nil in Hsch.
    by destruct Hsch as [->|[->|[]]]; vm_compute. }
  rewrite urlparse_unfold. unfold urlsplit.
  change (lstrip_by c0_control_or_space ("/"%char :: p)) with ("/"%char :: p).
  rewrite Hsch', (remove_unsafe_id _ Hsafe'), split_scheme_slash.
  rewrite bool_decide_false.
  2:{ intros E. apply Hslash. destruct p as [|c p]; [done|].
      by injection E as ->. }
  simpl.
  rewrite split_fragment_none.
  2:{ constructor; [done|]. eapply Forall_impl; [exact Hchars|]. naive_solver. }
  rewrite split_query_none.
  2:{ constructor; [done|]. eapply Forall_impl; [exact Hchars|]. naive_solver. }
  simpl. unfold path_of.
  replace (contains ";"%char ("/"%char :: p)) with false; [by rewrite andb_false_r|].
  symmetry. apply contains_false. constructor; [done|].
  eapply Forall_impl; [exact Hchars|]. naive_solver.
Qed.

(** X27. A root-relative reference resolves on the host of the base.  For a
    well-formed base URL, whatever its path, query and fragment, and a
    reference [/p] with a plain path, [make_absolute_url] asks
    [validators.url] about the scheme and the network location of the
    base followed by [/p]; it returns that URL when the answer is yes and
    [None] when it is no. *)
Theorem make_absolute_url_root_relative sch N P Q F p :
  wellformed chk sch N P Q → Forall safe F → plain_path p →
  make_absolute_url (rebuild sch N P Q ++ fragment_suffix F) ("/"%char :: p)
  = if validators_url (rebuild sch N ("/"%char :: p) [])
    then Some (rebuild sch N ("/"%char :: p) []) else None.
Proof.
  intros Hw HF Hp.
  pose proof Hw as (Hsch & HNe & HN & Hinv & _ & _ & _ & Hsafe).
  pose proof Hp as (Hpsafe & Hchars & Hslash & Hsegs).
  destruct (rebuild_prefixed sch N P Q Hsch) as [Hne _].
  assert (Urllib.urljoin chk (rebuild sch N P Q ++ fragment_suffix F) ("/"%char :: p)
          = Ok (rebuild sch N ("/"%char :: p) [])) as Hjoin.
  { unfold Urllib.urljoin.
    rewrite bool_decide_false by (intros [? _]%app_eq_nil; done).
    rewrite bool_decide_false by done.
    rewrite (urlparse_compose_fragment _ _ _ _ _ _ Hw HF). simpl.
    rewrite (urlparse_root_relative _ _ Hsch Hp). simpl.
    rewrite (bool_decide_true (sch = sch)) by done.
    assert (bool_decide (sch ∈ uses_relative) = true) as ->.
    { unfold URLValidator.http_schemes in Hsch.
      rewrite !elem_of_cons, elem_of_nil in Hsch.
      by destruct Hsch as [->|[->|[]]]; vm_compute. }
    assert (bool_decide (sch ∈ uses_netloc) = true) as ->.
    { unfold URLValidator.http_schemes in Hsch.
      rewrite !elem_of_cons, elem_of_nil in Hsch.
      by destruct Hsch as [->|[->|[]]]; vm_compute. }
    simpl.
    rewrite (resolve_segments_plain _ _ Hsegs). cbn [app].
    assert (last ([] :: split "/"%char p) ≠ Some ["."%char]
            ∧ last ([] :: split "/"%char p) ≠ Some ["."%char; "."%char]) as [Hl1 Hl2].
    { destruct (split "/"%char p) as [|seg segs] eqn:E; [by apply split_nonempty in E|].
      rewrite last_cons_cons. rewrite Forall_forall in Hsegs.
      split; intros Hl%last_Some_elem_of; destruct (Hsegs _ Hl) as [H1 H2];
        [by apply H1|by apply H2]. }
    rewrite (bool_decide_false _ Hl1), (bool_decide_false _ Hl2). cbn [orb].
    assert (join ["/"%char] ([] :: split "/"%char p) = "/"%char :: p) as ->.
    { destruct (split "/"%char p) as [|seg segs] eqn:E; [by apply split_nonempty in E|].
      change (join ["/"%char] ([] :: seg :: segs))
        with ("/"%char :: join ["/"%char] (seg :: segs)).
      by rewrite <- E, join_split. }
    rewrite bool_decide_false by done.
    unfold urlunparse, urlunsplit. simpl.
    rewrite (bool_decide_false (N = [])) by done. simpl.
    rewrite (bool_decide_false (sch = [])) by (by apply http_scheme_nonempty).
    unfold rebuild. simpl. reflexivity. }
  unfold URLValidator.make_absolute_url, URLValidator.urljoin. rewrite Hjoin. simpl.
  change (URLValidator.is_valid_url validators_url chk (rebuild sch N ("/"%char :: p) []))
    with (is_valid_url (rebuild sch N ("/"%char :: p) [])).
  rewrite is_valid_url_wellformed.
  - simpl. by destruct (validators_url _).
  - split; [done|]. split; [done|]. split; [done|]. split; [done|].
    split; [right; by eexists|]. split.
    { constructor; [done|]. eapply Forall_impl; [exact Hchars|]. naive_solver. }
    split; [constructor|].
    rewrite !Forall_app in Hsafe. rewrite !Forall_app.
    split; [naive_solver|]. split; [|constructor].
    constructor; [|done]. apply (bool_decide_unpack _); by vm_compute.
  - unfold path_of.
    replace (contains ";"%char ("/"%char :: p)) with false; [by rewrite andb_false_r|].
    symmetry. apply contains_false. constructor; [done|].
    eapply Forall_impl; [exact Hchars|]. naive_solver.
Qed.

End exact.

(** ** Examples of the properties above *)

Section more_examples.

Local Abbreviation V := Sample.validator.
Local Abbreviation N := Sample.no_check.
Local Abbreviation sample_scrape :=
  (WebScraper.scrape_website 3 50 V N Sample.web fresh (py "a.com")).
Local Abbreviation sample_pages := (scraped_pages (now Sample.run)).

Lemma normalize_url_shape_witness :
  URLValidator.normalize_url V N (py " example.com/a;p?q=1#top ")
  = Ok (Some (py "https://example.com/a?q=1"))
  ∧ (startswith (py "https://example.com/a?q=1") (py "http://")
     || startswith (py "https://example.com/a?q=1") (py "https://")) = true
  ∧ (startswith (strip (py " example.com/a;p?q=1#top ")) (py "http://") = false →
     startswith (py "https://example.com/a?q=1") (py "https://") = true)
  ∧ ("#"%char ∉ py "https://example.com/a?q=1")
  ∧ ∃ parsed, URLValidator.urlparse N (py "https://example.com/a?q=1") = Ok parsed
      ∧ scheme parsed ∈ URLValidator.http_schemes
      ∧ netloc parsed ≠ []
      ∧ params parsed = [] ∧ fragment parsed = []
      ∧ py "https://example.com/a?q=1"
        = rebuild (scheme parsed) (netloc parsed) (path parsed) (query parsed).
Proof.
  split; [by vm_compute|].
  apply (normalize_url_shape V N (py " example.com/a;p?q=1#top ")).
  by vm_compute.
Defined.

Lemma normalize_url_blank_witness :
  Forall (λ c, isspace c = true) [" "%char; chr 9; " "%char]
  ∧ URLValidator.normalize_url V N [" "%char; chr 9; " "%char] = Ok None.
Proof.
  split; [by repeat constructor|].
  apply (normalize_url_blank V N). by repeat constructor.
Defined.

Lemma is_valid_url_is_absolute_witness :
  URLValidator.is_valid_url V N (py "https://a.com/x") = Ok true
  ∧ URLValidator.is_absolute_url N (py "https://a.com/x") = Ok true
  ∧ is_Some (URLValidator.get_domain N (py "https://a.com/x"))
  ∧ URLValidator.is_same_domain N (py "https://a.com/x") (py "https://a.com/x") = true.
Proof.
  split; [by vm_compute|].
  apply (is_valid_url_is_absolute V N). by vm_compute.
Defined.

Lemma clean_url_keeps_domain_witness :
  (∀ s, V s = true → strip s = s)
  ∧ URLValidator.is_valid_url V N (py "https://a.com/x/") = Ok true
  ∧ absolute_http N (URLValidator.clean_url (py "https://a.com/x/"))
  ∧ URLValidator.get_domain N (URLValidator.clean_url (py "https://a.com/x/"))
    = URLValidator.get_domain N (py "https://a.com/x/")
  ∧ URLValidator.is_same_domain N (py "https://a.com/x/")
      (URLValidator.clean_url (py "https://a.com/x/")) = true.
Proof.
  split; [exact sample_validator_stripped|]. split; [by vm_compute|].
  apply (clean_url_keeps_domain V N sample_validator_stripped). by vm_compute.
Defined.

Lemma clean_url_trailing_slash_witness :
  strip (py "https://a.com/x") = py "https://a.com/x"
  ∧ endswith (py "https://a.com/x") (py "/") = false
  ∧ URLValidator.clean_url (py "https://a.com/x") = py "https://a.com/x"
  ∧ URLValidator.clean_url (py "https://a.com/x" ++ py "/")
    = if bool_decide (3 ≤ count "/"%char (py "https://a.com/x"))
      then py "https://a.com/x" else py "https://a.com/x" ++ py "/".
Proof.
  split; [by vm_compute|]. split; [by vm_compute|].
  apply (clean_url_trailing_slash (py "https://a.com/x")); by vm_compute.
Defined.

Lemma extract_metadata_meta_witness :
  py "description" ≠ py "headings"
  ∧ Extract._extract_metadata Sample.meta_page !! py "description"
    = MetaContent <$> last_meta (py "description")
                        (Bs4.find_all [py "meta"] Sample.meta_page).
Proof.
  split; [by vm_compute|].
  apply (extract_metadata_meta Sample.meta_page (py "description")).
  by vm_compute.
Defined.

Lemma empty_budget_session_witness :
  (0 ≤ 0 ∨ 3 < 0)
  ∧ WebScraper.normalize_url V N (py "a.com") = Ok (Some (py "https://a.com"))
  ∧ WebScraper.scrape_website 3 0 V N Sample.web Sample.run (py "a.com")
    = Some (Ok [], fresh).
Proof.
  split; [left; lia|]. split; [exact sample_seed|].
  apply (empty_budget_session 3 0 V N Sample.web Sample.run (py "a.com")
           (py "https://a.com")); [left; lia|exact sample_seed].
Defined.

Lemma budget_ends_session_witness :
  sample_scrape = Some (Ok sample_pages, Sample.run)
  ∧ Forall (λ s, len s < 50) (past Sample.run).
Proof.
  split; [exact sample_session|].
  exact (budget_ends_session 3 50 V N Sample.web _ _ _ _ sample_session).
Defined.

Lemma session_only_grows_witness :
  sample_scrape = Some (Ok sample_pages, Sample.run)
  ∧ StronglySorted (λ newer older, grows older newer) (states Sample.run).
Proof.
  split; [exact sample_session|].
  exact (session_only_grows 3 50 V N Sample.web _ _ _ _ sample_session).
Defined.

Lemma visited_are_requested_witness :
  sample_scrape = Some (Ok sample_pages, Sample.run)
  ∧ visited_urls (now Sample.run) = list_to_set (requests (now Sample.run))
  ∧ NoDup (requests (now Sample.run))
  ∧ size (visited_urls (now Sample.run)) = length (requests (now Sample.run)).
Proof.
  split; [exact sample_session|].
  exact (visited_are_requested 3 50 V N Sample.web _ _ _ _ sample_session).
Defined.

Lemma page_urls_distinct_witness :
  sample_scrape = Some (Ok sample_pages, Sample.run)
  ∧ NoDup (WebScraper.url <$> sample_pages)
  ∧ ∀ s, s ∈ states Sample.run → NoDup (WebScraper.url <$> scraped_pages s).
Proof.
  split; [exact sample_session|].
  exact (page_urls_distinct 3 50 V N Sample.web _ _ _ _ sample_session).
Defined.

Lemma sample_first_page : Sample.first_page ∈ sample_pages.
Proof.
  assert (sample_pages = Sample.first_page :: tail sample_pages) as ->
    by (by vm_compute).
  apply list_elem_of_here.
Qed.

Lemma results_are_extractions_witness :
  sample_scrape = Some (Ok sample_pages, Sample.run)
  ∧ Sample.first_page ∈ sample_pages
  ∧ (∃ before later soup,
       requests (now Sample.run) = before ++ WebScraper.url Sample.first_page :: later
       ∧ Sample.web before (WebScraper.url Sample.first_page) = Document soup
       ∧ title Sample.first_page = Extract._extract_title soup
       ∧ content Sample.first_page = (Extract._extract_content soup).1
       ∧ metadata Sample.first_page
         = Extract._extract_metadata (Extract._extract_content soup).2
       ∧ links Sample.first_page
         = WebScraper._extract_links V N (Extract._extract_content soup).2
             (WebScraper.url Sample.first_page))
  ∧ NoDup (links Sample.first_page)
  ∧ ∀ link, link ∈ links Sample.first_page →
      URLValidator.is_valid_url V N link = Ok true.
Proof.
  split; [exact sample_session|]. split; [exact sample_first_page|].
  exact (results_are_extractions 3 50 V N Sample.web _ _ _ _ _
           sample_session sample_first_page).
Defined.

Lemma pages_reached_from_seed_witness :
  WebScraper.normalize_url V N (py "a.com") = Ok (Some (py "https://a.com"))
  ∧ sample_scrape = Some (Ok sample_pages, Sample.run)
  ∧ reached N (py "https://a.com") sample_pages.
Proof.
  split; [exact sample_seed|]. split; [exact sample_session|].
  exact (pages_reached_from_seed 3 50 V N Sample.web _ _ _ _ _
           sample_seed sample_session).
Defined.

Lemma seed_page_first_witness :
  0 ≤ 3 ∧ 0 < 50
  ∧ WebScraper.normalize_url V N (py "a.com") = Ok (Some (py "https://a.com"))
  ∧ sample_scrape = Some (Ok sample_pages, Sample.run)
  ∧ head (requests (now Sample.run)) = Some (clean_url (py "https://a.com"))
  ∧ clean_url (py "https://a.com") ∈ visited_urls (now Sample.run)
  ∧ match Sample.web [] (clean_url (py "https://a.com")) with
    | Document soup =>
        ∃ p, head sample_pages = Some p
             ∧ WebScraper.url p = clean_url (py "https://a.com") ∧ depth p = 0
             ∧ title p = Extract._extract_title soup
             ∧ content p = (Extract._extract_content soup).1
    | _ =>
        sample_pages = [] ∧ requests (now Sample.run) = [clean_url (py "https://a.com")]
        ∧ visited_urls (now Sample.run) = {[clean_url (py "https://a.com")]}
    end.
Proof.
  split; [lia|]. split; [lia|]. split; [exact sample_seed|].
  split; [exact sample_session|].
  apply (seed_page_first 3 50 V N Sample.web fresh (py "a.com") (py "https://a.com")
           sample_pages Sample.run); [lia|lia|exact sample_seed|exact sample_session].
Defined.

Lemma scrape_summary_bounds_witness :
  sample_scrape = Some (Ok sample_pages, Sample.run)
  ∧ let summary := get_scrape_summary N (now Sample.run) in
    total_pages summary = Z.of_nat (length sample_pages)
    ∧ total_pages summary ≤ total_urls_visited summary
    ∧ total_urls_visited summary = Z.of_nat (length (requests (now Sample.run)))
    ∧ (0 ≤ 50 → total_pages summary ≤ 50)
    ∧ 0 ≤ max_depth_reached summary
    ∧ match sample_pages with
      | [] => max_depth_reached summary = 0
      | _ => max_depth_reached summary ≤ 3
             ∧ (∃ p, p ∈ sample_pages ∧ depth p = max_depth_reached summary)
             ∧ ∀ p, p ∈ sample_pages → depth p ≤ max_depth_reached summary
      end
    ∧ 0 ≤ total_content_length summary.
Proof.
  split; [exact sample_session|].
  exact (scrape_summary_bounds 3 50 V N Sample.web _ _ _ _ sample_session).
Defined.

Lemma normalized_seed_accepted_witness :
  (∀ s, V s = true → strip s = s)
  ∧ WebScraper.normalize_url V N (py "a.com") = Ok (Some (py "https://a.com"))
  ∧ WebScraper.scrape_website 3 50 V N Sample.web fresh (py "https://a.com")
    = sample_scrape
  ∧ ∃ pages r',
      WebScraper.scrape_website 3 50 V N Sample.web fresh (py "https://a.com")
      = Some (Ok pages, r').
Proof.
  split; [exact sample_validator_stripped|]. split; [exact sample_seed|].
  exact (normalized_seed_accepted 3 50 V N Sample.web sample_validator_stripped
           fresh (py "a.com") (py "https://a.com") sample_seed).
Defined.

Lemma summary_unique_domains_witness :
  (∀ s, V s = true → strip s = s)
  ∧ sample_scrape = Some (Ok sample_pages, Sample.run)
  ∧ unique_domains (get_scrape_summary N (now Sample.run))
    = match sample_pages with [] => 0 | _ => 1 end.
Proof.
  split; [exact sample_validator_stripped|]. split; [exact sample_session|].
  exact (summary_unique_domains 3 50 V N Sample.web sample_validator_stripped
           _ _ _ _ sample_session).
Defined.

Local Ltac decide_it := apply (bool_decide_unpack _); vm_compute; reflexivity.

Lemma sample_wellformed :
  wellformed N (py "https") (py "a.com") (py "/docs/page;v=2") (py "x=1")
  ∧ wellformed N (py "http") (py "a.com") [] [].
Proof.
  split; (split; [decide_it|]); (split; [done|]); (split; [decide_it|]);
    (split; [by vm_compute|]).
  - split; [right; by eexists|]. split; [decide_it|]. split; decide_it.
  - split; [by left|]. split; [decide_it|]. split; decide_it.
Qed.

Lemma sample_plain_path : Forall safe (py "top") ∧ plain_path (py "about/team").
Proof.
  split; [decide_it|]. split; [decide_it|]. split; [decide_it|].
  split; [by vm_compute|]. decide_it.
Qed.

Lemma normalize_url_exact_witness :
  wellformed N (py "https") (py "a.com") (py "/docs/page;v=2") (py "x=1")
  ∧ Forall safe (py "top")
  ∧ py "a.com/docs/page;v=2?x=1#top" ≠ []
  ∧ strip (py "a.com/docs/page;v=2?x=1#top") = py "a.com/docs/page;v=2?x=1#top"
  ∧ with_scheme (py "a.com/docs/page;v=2?x=1#top")
    = rebuild (py "https") (py "a.com") (py "/docs/page;v=2") (py "x=1")
      ++ fragment_suffix (py "top")
  ∧ URLValidator.normalize_url V N (py "a.com/docs/page;v=2?x=1#top")
    = Ok (if V (rebuild (py "https") (py "a.com")
                  (path_of (py "https") (py "/docs/page;v=2")).1 (py "x=1"))
          then Some (rebuild (py "https") (py "a.com")
                       (path_of (py "https") (py "/docs/page;v=2")).1 (py "x=1"))
          else None).
Proof.
  split; [exact (proj1 sample_wellformed)|]. split; [exact (proj1 sample_plain_path)|].
  split; [done|]. split; [by vm_compute|]. split; [by vm_compute|].
  apply (normalize_url_exact V N (py "a.com/docs/page;v=2?x=1#top")
           (py "https") (py "a.com") (py "/docs/page;v=2") (py "x=1") (py "top")
           (proj1 sample_wellformed) (proj1 sample_plain_path));
    [done|by vm_compute|by vm_compute].
Defined.

Lemma is_same_domain_netloc_witness :
  wellformed N (py "https") (py "a.com") (py "/docs/page;v=2") (py "x=1")
  ∧ wellformed N (py "http") (py "a.com") [] []
  ∧ URLValidator.get_domain N
      (rebuild (py "https") (py "a.com") (py "/docs/page;v=2") (py "x=1"))
    = Some (py "a.com")
  ∧ URLValidator.is_same_domain N
      (rebuild (py "https") (py "a.com") (py "/docs/page;v=2") (py "x=1"))
      (rebuild (py "http") (py "a.com") [] [])
    = bool_decide (py "a.com" = py "a.com").
Proof.
  split; [exact (proj1 sample_wellformed)|]. split; [exact (proj2 sample_wellformed)|].
  exact (is_same_domain_netloc N _ _ _ _ _ _ _ _
           (proj1 sample_wellformed) (proj2 sample_wellformed)).
Defined.

Lemma make_absolute_url_root_relative_witness :
  wellformed N (py "https") (py "a.com") (py "/docs/page;v=2") (py "x=1")
  ∧ Forall safe (py "top")
  ∧ plain_path (py "about/team")
  ∧ URLValidator.make_absolute_url V N
      (rebuild (py "https") (py "a.com") (py "/docs/page;v=2") (py "x=1")
       ++ fragment_suffix (py "top"))
      ("/"%char :: py "about/team")
    = if V (rebuild (py "https") (py "a.com") ("/"%char :: py "about/team") [])
      then Some (rebuild (py "https") (py "a.com") ("/"%char :: py "about/team") [])
      else None.
Proof.
  split; [exact (proj1 sample_wellformed)|]. split; [exact (proj1 sample_plain_path)|].
  split; [exact (proj2 sample_plain_path)|].
  exact (make_absolute_url_root_relative V N _ _ _ _ _ _
           (proj1 sample_wellformed) (proj1 sample_plain_path)
           (proj2 sample_plain_path)).
Defined.

(** What the three properties give on these URLs. *)
Example wellformed_examples :
  URLValidator.normalize_url V N (py "a.com/docs/page;v=2?x=1#top")
  = Ok (Some (py "https://a.com/docs/page?x=1"))
  ∧ URLValidator.is_same_domain N (py "https://a.com/docs/page;v=2?x=1")
      (py "http://a.com") = true
  ∧ URLValidator.make_absolute_url V N (py "https://a.com/docs/page;v=2?x=1#top")
      (py "/about/team") = Some (py "https://a.com/about/team")
  ∧ URLValidator.make_absolute_url V N (py "https://a.com/docs/page;v=2?x=1#top")
      (py "team") = Some (py "https://a.com/docs/team").
Proof. by vm_compute. Qed.

(** The metadata of the sample page: the second description, the
    headings by level. *)
Example metadata_example :
  Extract._extract_metadata Sample.meta_page !! py "description"
  = Some (MetaContent (py "second"))
  ∧ Extract._extract_metadata Sample.meta_page !! py "og:title"
    = Some (MetaContent (py "A page"))
  ∧ Extract._extract_metadata Sample.meta_page !! py "headings"
    = Some (MetaHeadings [(1, py "A page"); (2, py "Details")])
  ∧ Extract._extract_title Sample.meta_page = py "A page".
Proof. by vm_compute. Qed.

(** The summary of the sample session. *)
Example summary_example :
  get_scrape_summary N (now Sample.run)
  = mkSummary 5 6 2 0 1.
Proof. by vm_compute. Qed.

End more_examples.
